(** * claude-run: the log-indexing and usage-aggregation core

    A shallow embedding of [api/storage.ts] and [api/pricing.ts].

    Conventions of the embedding.
    - JavaScript strings are [string]s when they name something (session ids,
      file names, model identifiers, dates) and [list ascii] when they are the
      text of a log file: one [ascii] is one byte, so byte offsets are list
      positions.  The text is taken in the ASCII range, where UTF-8 decoding is
      the identity and [Buffer.byteLength] is the length.
    - Token counts and millisecond timestamps are integers ([Z]).
    - Costs are JavaScript numbers in the source; here they are exact
      rationals ([Q], compared with [==]).  Rounding of IEEE doubles is outside
      the model.
    - A promise that may reject is a [Result]; [try]/[catch] is [try_catch].
    - The process-wide [fileIndex] is threaded through the functions that
      read or fill it.
    - The functions are given as what one call computes; which calls share
      a computation ([dedupe], [pendingRequests]) is the subject of the
      section on the request coalescer.
    - [JSON.parse] of a log line is a parameter, read at the type the source
      gives its result ([ConversationMessage]).  The list of sessions that
      [getSessions] returns is a parameter of the usage functions; of
      [getSessions] itself the pass over the history log is given. *)

From Stdlib Require Import ZArith QArith String Ascii List Lia Permutation Sorted.
From stdpp Require Import gmap strings list.
From Equations Require Import Equations.

Local Open Scope Z_scope.

(* ===================================================================== *)
(** ** JavaScript string operations used by the sources *)
(* ===================================================================== *)

(** [hay.includes(needle)] *)
Fixpoint includes (hay needle : string) : bool :=
  String.prefix needle hay
  || match hay with
     | EmptyString => false
     | String _ hay' => includes hay' needle
     end.

Definition lower_char (c : ascii) : ascii :=
  let n := nat_of_ascii c in
  if ((65 <=? n) && (n <=? 90))%nat then ascii_of_nat (n + 32) else c.

(** [s.toLowerCase()] on ASCII text *)
Fixpoint toLowerCase (s : string) : string :=
  match s with
  | EmptyString => EmptyString
  | String c s' => String (lower_char c) (toLowerCase s')
  end.

(** [s.endsWith(suffix)] *)
Definition endsWith (s suffix : string) : bool :=
  let n := String.length s in
  let k := String.length suffix in
  (k <=? n)%nat && String.eqb (String.substring (n - k) k s) suffix.

(** [s.startsWith(p)] *)
Definition startsWith (s p : string) : bool := String.prefix p s.

Definition is_digit (c : ascii) : bool :=
  let n := nat_of_ascii c in ((48 <=? n) && (n <=? 57))%nat.

Fixpoint all_digits (s : string) : bool :=
  match s with
  | EmptyString => true
  | String c s' => is_digit c && all_digits s'
  end.

(** [s.replace(/^claude-/, "")] *)
Definition strip_claude_prefix (s : string) : string :=
  if startsWith s "claude-"
  then String.substring 7 (String.length s - 7) s
  else s.

(** [s.replace(/-\d{8}$/, "")] *)
Definition strip_date_suffix (s : string) : string :=
  let n := String.length s in
  if (9 <=? n)%nat
     && String.eqb (String.substring (n - 9) 1 s) "-"
     && all_digits (String.substring (n - 8) 8 s)
  then String.substring 0 (n - 9) s
  else s.

(** Truthiness of an optional string: [undefined] and [""] are falsy. *)
Definition truthy (s : option string) : bool :=
  match s with
  | Some EmptyString | None => false
  | Some _ => true
  end.

(** [s || dflt] for an optional string *)
Definition or_else (s : option string) (dflt : string) : string :=
  match s with
  | Some EmptyString | None => dflt
  | Some v => v
  end.

(* ===================================================================== *)
(** ** Pricing resolver ([api/pricing.ts]) *)
(* ===================================================================== *)

Record TokenUsage := {
  input_tokens : Z;
  output_tokens : Z;
  cache_creation_input_tokens : option Z;
  cache_read_input_tokens : option Z
}.

Record ModelPricing := {
  inputPerMillion : Q;
  outputPerMillion : Q;
  cacheWriteMultiplier : Q;
  cacheReadMultiplier : Q
}.

Definition mkPricing (i o : Q) : ModelPricing :=
  {| inputPerMillion := i; outputPerMillion := o;
     cacheWriteMultiplier := 5 # 4; cacheReadMultiplier := 1 # 10 |}.

Definition opus_4_5 : ModelPricing := mkPricing 5 25.
Definition opus_4 : ModelPricing := mkPricing 15 75.
Definition sonnet_4_5 : ModelPricing := mkPricing 3 15.
Definition sonnet_4 : ModelPricing := mkPricing 3 15.
Definition haiku_4_5 : ModelPricing := mkPricing 1 5.
Definition haiku_3_5 : ModelPricing := mkPricing (4 # 5) 4.
Definition haiku_3 : ModelPricing := mkPricing (1 # 4) (5 # 4).
Definition sonnet_3_5_v2 : ModelPricing := mkPricing 3 15.
Definition sonnet_3_5_v1 : ModelPricing := mkPricing 3 15.

Definition MODEL_PRICING : list (string * ModelPricing) :=
  [ ("claude-opus-4-5-20251101", opus_4_5);
    ("claude-opus-4-20250514", opus_4);
    ("claude-sonnet-4-5-20241022", sonnet_4_5);
    ("claude-sonnet-4-20250514", sonnet_4);
    ("claude-haiku-4-5-20251101", haiku_4_5);
    ("claude-3-5-haiku-20241022", haiku_3_5);
    ("claude-3-haiku-20240307", haiku_3);
    ("claude-3-5-sonnet-20241022", sonnet_3_5_v2);
    ("claude-3-5-sonnet-20240620", sonnet_3_5_v1) ].

Definition DEFAULT_PRICING : ModelPricing := mkPricing 3 15.

(** [table[key]] on a table with string keys (own properties only) *)
Fixpoint table_get {A : Type} (key : string) (table : list (string * A)) : option A :=
  match table with
  | [] => None
  | (k, v) :: rest => if String.eqb k key then Some v else table_get key rest
  end.

Definition getModelPricing (model : option string) : ModelPricing :=
  match model with
  | None | Some EmptyString => DEFAULT_PRICING
  | Some model =>
    match table_get model MODEL_PRICING with
    | Some p => p
    | None =>
      let modelLower := toLowerCase model in
      if includes modelLower "opus-4-5" || includes modelLower "opus-4.5" then opus_4_5
      else if includes modelLower "opus-4" || includes modelLower "opus4" then opus_4
      else if includes modelLower "sonnet-4-5" || includes modelLower "sonnet-4.5" then sonnet_4_5
      else if includes modelLower "sonnet-4" || includes modelLower "sonnet4" then sonnet_4
      else if includes modelLower "haiku-4-5" || includes modelLower "haiku-4.5" then haiku_4_5
      else if includes modelLower "haiku-3-5" || includes modelLower "haiku-3.5" then haiku_3_5
      else if includes modelLower "haiku" then haiku_3
      else if includes modelLower "sonnet-3-5" || includes modelLower "sonnet-3.5" then sonnet_3_5_v2
      else if includes modelLower "sonnet" then sonnet_4
      else DEFAULT_PRICING
    end
  end.

(** [tokens / 1_000_000] *)
Definition perMillion (tokens : Z) : Q := (inject_Z tokens / 1000000)%Q.

Definition calculateCost (usage : TokenUsage) (model : option string) : Q :=
  let pricing := getModelPricing model in
  let inputCost := (perMillion (input_tokens usage) * inputPerMillion pricing)%Q in
  let outputCost := (perMillion (output_tokens usage) * outputPerMillion pricing)%Q in
  let cacheWriteCost :=
    match cache_creation_input_tokens usage with
    | Some n =>
      if n =? 0 then 0%Q
      else (perMillion n * inputPerMillion pricing * cacheWriteMultiplier pricing)%Q
    | None => 0%Q
    end in
  let cacheReadCost :=
    match cache_read_input_tokens usage with
    | Some n =>
      if n =? 0 then 0%Q
      else (perMillion n * inputPerMillion pricing * cacheReadMultiplier pricing)%Q
    | None => 0%Q
    end in
  (inputCost + outputCost + cacheWriteCost + cacheReadCost)%Q.

Definition getModelDisplayName (model : option string) : string :=
  match model with
  | None | Some EmptyString => "Unknown"
  | Some model =>
    let modelLower := toLowerCase model in
    if includes modelLower "opus-4-5" || includes modelLower "opus-4.5" then "Opus 4.5"
    else if includes modelLower "opus-4" || includes modelLower "opus4" then "Opus 4"
    else if includes modelLower "sonnet-4-5" || includes modelLower "sonnet-4.5" then "Sonnet 4.5"
    else if includes modelLower "sonnet-4" || includes modelLower "sonnet4" then "Sonnet 4"
    else if includes modelLower "haiku-4-5" || includes modelLower "haiku-4.5" then "Haiku 4.5"
    else if includes modelLower "haiku-3-5" || includes modelLower "haiku-3.5" then "Haiku 3.5"
    else if includes modelLower "haiku" then "Haiku 3"
    else if includes modelLower "sonnet-3-5" || includes modelLower "sonnet-3.5" then "Sonnet 3.5"
    else if includes modelLower "sonnet" then "Sonnet"
    else if includes modelLower "opus" then "Opus"
    else strip_date_suffix (strip_claude_prefix model)
  end.

(** [n || 0] for an optional count *)
Definition count_or_zero (n : option Z) : Z :=
  match n with Some v => v | None => 0 end.

(* ===================================================================== *)
(** ** Log text: whitespace, lines *)
(* ===================================================================== *)

Definition LF : ascii := ascii_of_nat 10.
Definition CR : ascii := ascii_of_nat 13.

(** The ASCII characters [String.prototype.trim] removes:
    tab, line feed, vertical tab, form feed, carriage return, space. *)
Definition isWhiteSpace (c : ascii) : bool :=
  let n := nat_of_ascii c in
  ((n =? 32) || ((9 <=? n) && (n <=? 13)))%nat.

Fixpoint trimStart (s : list ascii) : list ascii :=
  match s with
  | [] => []
  | c :: s' => if isWhiteSpace c then trimStart s' else s
  end.

Definition trimEnd (s : list ascii) : list ascii := rev (trimStart (rev s)).

(** [s.trim()] *)
Definition trim (s : list ascii) : list ascii := trimEnd (trimStart s).

(** [!line.trim()]: the line is empty or all white space *)
Definition isBlank (s : list ascii) : bool :=
  match trim s with [] => true | _ => false end.

(** [Boolean(line)] for a string: the empty string is falsy *)
Definition nonEmpty (s : list ascii) : bool :=
  match s with [] => false | _ => true end.

(** [content.split("\n")]: always at least one piece *)
Fixpoint split_LF (s : list ascii) : list (list ascii) :=
  match s with
  | [] => [[]]
  | c :: s' =>
    if Ascii.eqb c LF then [] :: split_LF s'
    else match split_LF s' with
         | l :: ls => (c :: l) :: ls
         | [] => [[c]]
         end
  end.

(** The lines [readline] emits for a stream holding [s]: a line ends at
    LF, CR LF (one break, [crlfDelay: Infinity]) or a lone CR; what follows
    the last break is a line when it is not empty. *)
Fixpoint readline (s : list ascii) : list (list ascii) :=
  match s with
  | [] => []
  | c :: s' =>
    if Ascii.eqb c LF then [] :: readline s'
    else if Ascii.eqb c CR then
      match s' with
      | c' :: s'' =>
        if Ascii.eqb c' LF then [] :: readline s'' else [] :: readline s'
      | [] => [[]]
      end
    else match readline s' with
         | l :: ls => (c :: l) :: ls
         | [] => [[c]]
         end
  end.

(* ===================================================================== *)
(** ** Results, the file system and the file index *)
(* ===================================================================== *)

Inductive Exn := ENOENT | EACCES | ENOTDIR | RangeError.

Inductive Result (A : Type) :=
| Ok (a : A)
| Err (e : Exn).
Arguments Ok {A} a.
Arguments Err {A} e.

Definition result_bind {A B : Type} (r : Result A) (k : A -> Result B) : Result B :=
  match r with
  | Ok a => k a
  | Err e => Err e
  end.

(** A regular file of a project directory.  [readable = false]: the file is
    there ([stat] works) and cannot be opened or read. *)
Record File := {
  mtimeMs : Z;
  data : list ascii;
  readable : bool
}.

(** An entry of [projectsDir].  [entries] is the directory's listing in
    [readdir] order; [None] when listing it fails. *)
Record Dirent := {
  name : string;
  isDirectory : bool;
  entries : option (list (string * File))
}.

(** [projectsDir]: [None] when the directory does not exist. *)
Record FS := {
  projectsDir : option (list Dirent)
}.

(** [join(projectsDir, dir, file)] *)
Definition Path : Type := string * string.

Record Stats := {
  size : Z;
  st_mtimeMs : Z
}.

Definition readdir_projects (fs : FS) : Result (list Dirent) :=
  match projectsDir fs with
  | Some ds => Ok ds
  | None => Err ENOENT
  end.

Fixpoint find_dirent (dirName : string) (ds : list Dirent) : option Dirent :=
  match ds with
  | [] => None
  | d :: rest => if String.eqb (name d) dirName then Some d else find_dirent dirName rest
  end.

Definition readdir_entries (fs : FS) (dirName : string) : Result (list (string * File)) :=
  match projectsDir fs with
  | None => Err ENOENT
  | Some ds =>
    match find_dirent dirName ds with
    | None => Err ENOENT
    | Some d =>
      if isDirectory d
      then match entries d with Some es => Ok es | None => Err EACCES end
      else Err ENOTDIR
    end
  end.

(** [readdir(join(projectsDir, dirName))]: the names, in listing order *)
Definition readdir (fs : FS) (dirName : string) : Result (list string) :=
  result_bind (readdir_entries fs dirName) (fun es => Ok (map fst es)).

Definition lookup_file (fs : FS) (p : Path) : Result File :=
  result_bind (readdir_entries fs (fst p)) (fun es =>
    match table_get (snd p) es with
    | Some f => Ok f
    | None => Err ENOENT
    end).

(** [stat(path)] *)
Definition stat (fs : FS) (p : Path) : Result Stats :=
  result_bind (lookup_file fs p) (fun f =>
    Ok {| size := Z.of_nat (length (data f)); st_mtimeMs := mtimeMs f |}).

(** [readFile(path, "utf-8")] *)
Definition readFile (fs : FS) (p : Path) : Result (list ascii) :=
  result_bind (lookup_file fs p) (fun f =>
    if readable f then Ok (data f) else Err EACCES).

(** [open(path, "r")] then [createReadStream({ start })]: the bytes from
    [start] on.  A negative [start] is refused with a [RangeError]. *)
Definition readFrom (fs : FS) (p : Path) (start : Z) : Result (list ascii) :=
  result_bind (readFile fs p) (fun bytes =>
    if start <? 0 then Err RangeError
    else Ok (drop (Z.to_nat start) bytes)).

(** Computations over the process-wide [fileIndex] that may throw. *)
Definition M (A : Type) : Type :=
  gmap string Path -> Result A * gmap string Path.

Definition ret {A : Type} (a : A) : M A := fun idx => (Ok a, idx).

Definition throw {A : Type} (e : Exn) : M A := fun idx => (Err e, idx).

Definition lift {A : Type} (r : Result A) : M A := fun idx => (r, idx).

Definition bind {A B : Type} (c : M A) (k : A -> M B) : M B :=
  fun idx =>
    match c idx with
    | (Ok a, idx') => k a idx'
    | (Err e, idx') => (Err e, idx')
    end.

(** [try { body } catch (err) { handler }] *)
Definition try_catch {A : Type} (body : M A) (handler : Exn -> M A) : M A :=
  fun idx =>
    match body idx with
    | (Ok a, idx') => (Ok a, idx')
    | (Err e, idx') => handler e idx'
    end.

Notation "'let*' x := c 'in' k" := (bind c (fun x => k))
  (at level 10, x name, c at level 100, k at level 200).

(** [fileIndex.set(sessionId, filePath)] *)
Definition addToFileIndex (sessionId : string) (filePath : Path) : M unit :=
  fun idx => (Ok tt, <[sessionId := filePath]> idx).

(** [files.includes(targetFile)] *)
Definition includes_name (files : list string) (target : string) : bool :=
  existsb (String.eqb target) files.

Definition findSessionFile (fs : FS) (sessionId : string) : M (option Path) :=
  fun idx =>
    match idx !! sessionId with
    | Some p => (Ok (Some p), idx)
    | None =>
      let targetFile := (sessionId +:+ ".jsonl")%string in
      match readdir_projects fs with
      | Err _ => (Ok None, idx)
      | Ok projectDirs =>
        let directories := List.filter isDirectory projectDirs in
        let results :=
          map (fun dir =>
                 match readdir fs (name dir) with
                 | Ok files =>
                   if includes_name files targetFile
                   then Some (name dir, targetFile)
                   else None
                 | Err _ => None
                 end) directories in
        match List.find (fun r => match r with Some _ => true | None => false end) results with
        | Some (Some filePath) => (Ok (Some filePath), <[sessionId := filePath]> idx)
        | _ => (Ok None, idx)
        end
      end
    end.

(* ===================================================================== *)
(** ** Data model ([api/storage.ts]) *)
(* ===================================================================== *)

Record HistoryEntry := {
  h_display : string;
  h_timestamp : Z;
  h_project : string;
  h_sessionId : option string
}.

Record Session := {
  s_id : string;
  s_display : string;
  s_timestamp : Z;
  s_project : string;
  s_projectName : string
}.

(** The [message] object of a log line; of its fields the functions below
    read [model] and [usage]. *)
Record Message := {
  role : string;
  model : option string;
  usage : option TokenUsage
}.

(** One parsed log line.  [type] is kept a string: the functions compare
    it with ["user"], ["assistant"] and ["summary"] and pass over the rest. *)
Record ConversationMessage := {
  type : string;
  uuid : option string;
  msg_timestamp : option string;
  message : option Message;
  summary : option string
}.

Record StreamResult := {
  messages : list ConversationMessage;
  nextOffset : Z
}.

Record SessionUsage := {
  su_sessionId : string;
  su_display : string;
  su_project : string;
  su_projectName : string;
  su_totalInputTokens : Z;
  su_totalOutputTokens : Z;
  su_cacheCreationTokens : Z;
  su_cacheReadTokens : Z;
  su_messageCount : Z;
  su_model : string;
  su_estimatedCost : Q;
  su_firstMessageAt : option string;
  su_lastMessageAt : option string
}.

Record ModelBucket := {
  mb_inputTokens : Z;
  mb_outputTokens : Z;
  mb_cost : Q;
  mb_count : Z
}.

Record DateBucket := {
  date : string;
  inputTokens : Z;
  outputTokens : Z;
  cacheCreationTokens : Z;
  cacheReadTokens : Z;
  cost : Q;
  d_sessionCount : Z
}.

Record ProjectBucket := {
  pb_projectName : string;
  pb_inputTokens : Z;
  pb_outputTokens : Z;
  pb_cost : Q;
  pb_sessionCount : Z
}.

Record UsageSummary := {
  totalInputTokens : Z;
  totalOutputTokens : Z;
  totalCacheCreationTokens : Z;
  totalCacheReadTokens : Z;
  totalEstimatedCost : Q;
  sessionCount : Z;
  messageCount : Z;
  byModel : gmap string ModelBucket;
  byDate : list DateBucket;
  byProject : gmap string ProjectBucket
}.

(** An ISO date string of the interface is identified with the instant it
    denotes, in milliseconds. *)
Record TimeRange := {
  range_start : option Z;
  range_end : option Z
}.

Record UsageOptions := {
  opt_timeRange : option TimeRange;
  opt_project : option string
}.

Definition isUserOrAssistant (msg : ConversationMessage) : bool :=
  String.eqb (type msg) "user" || String.eqb (type msg) "assistant".

Definition isSummary (msg : ConversationMessage) : bool :=
  String.eqb (type msg) "summary".

(* ===================================================================== *)
(** ** Conversation store *)
(* ===================================================================== *)

Section ConversationStore.

(** [JSON.parse] of one line, read at the type the source gives it;
    [None] when the parse throws (or gives [null], on which reading
    [msg.type] throws inside the same [try]). *)
Variable JSON_parse : list ascii -> option ConversationMessage.

(** Body of the [for (const line of lines)] loop of [getConversation] *)
Definition addLine (msgs : list ConversationMessage) (line : list ascii)
  : list ConversationMessage :=
  match JSON_parse line with
  | Some msg =>
    if isUserOrAssistant msg then msgs ++ [msg]
    else if isSummary msg then msg :: msgs
    else msgs
  | None => msgs
  end.

Definition parseConversation (content : list ascii) : list ConversationMessage :=
  let lines := List.filter nonEmpty (split_LF (trim content)) in
  fold_left addLine lines [].

(** The body [getConversation] hands to [dedupe] *)
Definition getConversation (fs : FS) (sessionId : string)
  : M (list ConversationMessage) :=
  let* filePath := findSessionFile fs sessionId in
  match filePath with
  | None => ret []
  | Some filePath =>
    try_catch
      (let* content := lift (readFile fs filePath) in
       ret (parseConversation content))
      (fun _ => ret [])
  end.

(** The [for await (const line of rl)] loop of [getConversationStream]:
    the messages pushed and [bytesConsumed] when it ends or breaks. *)
Fixpoint consumeLines (lines : list (list ascii))
    (msgs : list ConversationMessage) (bytesConsumed : Z)
  : list ConversationMessage * Z :=
  match lines with
  | [] => (msgs, bytesConsumed)
  | line :: rest =>
    let lineBytes := Z.of_nat (length line) + 1 in
    if negb (isBlank line) then
      match JSON_parse line with
      | Some msg =>
        consumeLines rest
          (if isUserOrAssistant msg then msgs ++ [msg] else msgs)
          (bytesConsumed + lineBytes)
      | None => (msgs, bytesConsumed)
      end
    else consumeLines rest msgs (bytesConsumed + lineBytes)
  end.

Definition getConversationStream (fs : FS) (sessionId : string) (fromOffset : Z)
  : M StreamResult :=
  let* filePath := findSessionFile fs sessionId in
  match filePath with
  | None => ret {| messages := []; nextOffset := 0 |}
  | Some filePath =>
    try_catch
      (let* fileStat := lift (stat fs filePath) in
       let fileSize := size fileStat in
       if fromOffset >=? fileSize
       then ret {| messages := []; nextOffset := fromOffset |}
       else
         let* text := lift (readFrom fs filePath fromOffset) in
         let '(msgs, bytesConsumed) := consumeLines (readline text) [] 0 in
         let actualOffset := fromOffset + bytesConsumed in
         let nextOffset := if actualOffset >? fileSize then fileSize else actualOffset in
         ret {| messages := msgs; nextOffset := nextOffset |})
      (fun _ => ret {| messages := []; nextOffset := fromOffset |})
  end.

End ConversationStore.

(* ===================================================================== *)
(** ** History reconciler and the history pass of [getSessions] *)
(* ===================================================================== *)

Definition encode_char (c : ascii) : ascii :=
  if Ascii.eqb c "/" || Ascii.eqb c "." then "-"%char else c.

(** [path.replace(/[/.]/g, "-")] *)
Fixpoint encodeProjectPath (path : string) : string :=
  match path with
  | EmptyString => EmptyString
  | String c rest => String (encode_char c) (encodeProjectPath rest)
  end.

(** [s.split(sep)] for a one-character separator *)
Fixpoint split_on (sep : ascii) (s : string) : list string :=
  match s with
  | EmptyString => [EmptyString]
  | String c s' =>
    if Ascii.eqb c sep then EmptyString :: split_on sep s'
    else match split_on sep s' with
         | p :: ps => String c p :: ps
         | [] => [String c EmptyString]
         end
  end.

Definition nonEmptyString (s : string) : bool :=
  match s with EmptyString => false | _ => true end.

(** [parts[parts.length - 1] || dflt] *)
Definition last_or (parts : list string) (dflt : string) : string :=
  or_else (last parts) dflt.

Definition getProjectName (projectPath : string) : string :=
  let parts := List.filter nonEmptyString (split_on "/" projectPath) in
  last_or parts projectPath.

(** [basename(file, suffix)] for a name without directory part *)
Definition basename (file suffix : string) : string :=
  if endsWith file suffix
  then String.substring 0 (String.length file - String.length suffix) file
  else file.

(** [timeDiff < closestTimeDiff], where [None] is [Infinity] *)
Definition closer (timeDiff : Z) (closestTimeDiff : option Z) : bool :=
  match closestTimeDiff with
  | None => true
  | Some d => timeDiff <? d
  end.

(** Body of the loop over [fileStats] in [findSessionByTimestamp]; the
    state is [(closestFile, closestTimeDiff)]. *)
Definition closestStep (timestamp : Z) (st : option string * option Z)
    (fileStat : string * Z) : option string * option Z :=
  let '(file, mtime) := fileStat in
  let timeDiff := Z.abs (mtime - timestamp) in
  if closer timeDiff (snd st) then (Some file, Some timeDiff) else st.

Definition findSessionByTimestamp (fs : FS) (encodedProject : string) (timestamp : Z)
  : option string :=
  match readdir_entries fs encodedProject with
  | Err _ => None
  | Ok files =>
    let jsonlFiles := List.filter (fun f => endsWith (fst f) ".jsonl") files in
    let fileStats := map (fun f => (fst f, mtimeMs (snd f))) jsonlFiles in
    let '(closestFile, _) := fold_left (closestStep timestamp) fileStats (None, None) in
    if truthy closestFile
    then option_map (fun f => basename f ".jsonl") closestFile
    else None
  end.

(** The state of the first loop of [getSessions]: [sessions], [seenIds]
    and [historySessionIds]. *)
Record SessionAcc := {
  acc_sessions : list Session;
  acc_seenIds : gset string;
  acc_historySessionIds : gmap string HistoryEntry
}.

(** Body of [for (const entry of entries)] in [getSessions] *)
Definition addHistoryEntry (fs : FS) (acc : SessionAcc) (entry : HistoryEntry)
  : SessionAcc :=
  let sessionId :=
    if truthy (h_sessionId entry) then h_sessionId entry
    else findSessionByTimestamp fs (encodeProjectPath (h_project entry))
                                (h_timestamp entry) in
  match sessionId with
  | Some sessionId =>
    if negb (nonEmptyString sessionId) || bool_decide (sessionId ∈ acc_seenIds acc)
    then acc
    else {| acc_sessions :=
              acc_sessions acc ++
              [ {| s_id := sessionId;
                   s_display := h_display entry;
                   s_timestamp := h_timestamp entry;
                   s_project := h_project entry;
                   s_projectName := getProjectName (h_project entry) |} ];
            acc_seenIds := {[ sessionId ]} ∪ acc_seenIds acc;
            acc_historySessionIds := <[ sessionId := entry ]> (acc_historySessionIds acc) |}
  | None => acc
  end.

Definition emptySessionAcc : SessionAcc :=
  {| acc_sessions := []; acc_seenIds := ∅; acc_historySessionIds := ∅ |}.

(** The sessions [getSessions] takes from the history log, before it
    scans the project directories for the rest. *)
Definition historySessions (fs : FS) (historyEntries : list HistoryEntry) : SessionAcc :=
  fold_left (addHistoryEntry fs) historyEntries emptySessionAcc.

(* ===================================================================== *)
(** ** Calendar dates *)
(* ===================================================================== *)

Definition msPerDay : Z := 86400000.

(** The largest time value of a valid [Date] *)
Definition maxTime : Z := 8640000000000000.

(** Year, month and day of the proleptic Gregorian calendar for a day
    count since 1970-01-01. *)
Definition civil_from_days (days : Z) : Z * Z * Z :=
  let z := days + 719468 in
  let era := z / 146097 in
  let doe := z - era * 146097 in
  let yoe := (doe - doe / 1460 + doe / 36524 - doe / 146096) / 365 in
  let y := yoe + era * 400 in
  let doy := doe - (365 * yoe + yoe / 4 - yoe / 100) in
  let mp := (5 * doy + 2) / 153 in
  let d := doy - (153 * mp + 2) / 5 + 1 in
  let m := if mp <? 10 then mp + 3 else mp - 9 in
  (if m <=? 2 then y + 1 else y, m, d).

(** [n] in decimal, [width] digits *)
Fixpoint pad (width : nat) (n : Z) : string :=
  match width with
  | O => EmptyString
  | S w => pad w (n / 10) +:+ String (ascii_of_nat (48 + Z.to_nat (n mod 10))) EmptyString
  end.

Definition formatYear (y : Z) : string :=
  if (0 <=? y) && (y <=? 9999) then pad 4 y
  else if y <? 0 then "-" +:+ pad 6 (- y)
  else "+" +:+ pad 6 y.

(** [new Date(t).toISOString().split("T")[0]]: the UTC calendar date of
    the instant [t]; a [RangeError] when [t] is no valid time value. *)
Definition toISODate (t : Z) : Result string :=
  if Z.abs t <=? maxTime then
    let '(y, m, d) := civil_from_days (t / msPerDay) in
    Ok (formatYear y +:+ "-" +:+ pad 2 m +:+ "-" +:+ pad 2 d)
  else Err RangeError.

(** [date.setDate(date.getDate() + n)], in a zone with a fixed offset from
    UTC, where every calendar day has [msPerDay] milliseconds. *)
Definition addDays (t : Z) (n : Z) : Z := t + n * msPerDay.

(* ===================================================================== *)
(** ** JavaScript [Map] with string keys, in insertion order *)
(* ===================================================================== *)

(** [m.set(key, v)]: in place when the key is there, at the end otherwise *)
Fixpoint map_set {V : Type} (key : string) (v : V) (m : list (string * V))
  : list (string * V) :=
  match m with
  | [] => [(key, v)]
  | (k, v') :: rest =>
    if String.eqb k key then (k, v) :: rest else (k, v') :: map_set key v rest
  end.

(* ===================================================================== *)
(** ** Usage aggregator *)
(* ===================================================================== *)

(** The value type of [byDateMap] *)
Record DateEntry := {
  de_inputTokens : Z;
  de_outputTokens : Z;
  de_cacheCreationTokens : Z;
  de_cacheReadTokens : Z;
  de_cost : Q;
  de_sessionCount : Z
}.

Definition zeroDateEntry : DateEntry :=
  {| de_inputTokens := 0; de_outputTokens := 0; de_cacheCreationTokens := 0;
     de_cacheReadTokens := 0; de_cost := 0; de_sessionCount := 0 |}.

(** [{ date, ...data }] *)
Definition withDate (kv : string * DateEntry) : DateBucket :=
  {| date := fst kv;
     inputTokens := de_inputTokens (snd kv);
     outputTokens := de_outputTokens (snd kv);
     cacheCreationTokens := de_cacheCreationTokens (snd kv);
     cacheReadTokens := de_cacheReadTokens (snd kv);
     cost := de_cost (snd kv);
     d_sessionCount := de_sessionCount (snd kv) |}.

Definition zeroBucket (dateStr : string) : DateBucket :=
  {| date := dateStr; inputTokens := 0; outputTokens := 0; cacheCreationTokens := 0;
     cacheReadTokens := 0; cost := 0; d_sessionCount := 0 |}.

(** [a.date.localeCompare(b.date) <= 0]; dates of the years 0000 to 9999
    compare as their characters. *)
Definition date_leb (a b : DateBucket) : bool := String.leb (date a) (date b).

Fixpoint insertByDate (b : DateBucket) (l : list DateBucket) : list DateBucket :=
  match l with
  | [] => [b]
  | x :: rest => if date_leb b x then b :: x :: rest else x :: insertByDate b rest
  end.

(** [.sort((a, b) => a.date.localeCompare(b.date))], a stable sort *)
Definition sortByDate (l : list DateBucket) : list DateBucket :=
  foldr insertByDate [] l.

(** The usage of an assistant message: [msg.type === "assistant" &&
    msg.message?.usage] *)
Definition assistantUsage (msg : ConversationMessage) : option (TokenUsage * option string) :=
  if String.eqb (type msg) "assistant" then
    match message msg with
    | Some m =>
      match usage m with
      | Some u => Some (u, model m)
      | None => None
      end
    | None => None
    end
  else None.

(** Body of [for (const msg of messages)] in [getSessionUsage]; the
    accumulator holds the loop's local variables. *)
Definition sessionUsageStep (acc : SessionUsage) (msg : ConversationMessage)
  : SessionUsage :=
  let acc1 :=
    match assistantUsage msg with
    | Some (u, mdl) =>
      {| su_sessionId := su_sessionId acc;
         su_display := su_display acc;
         su_project := su_project acc;
         su_projectName := su_projectName acc;
         su_totalInputTokens := su_totalInputTokens acc + input_tokens u;
         su_totalOutputTokens := su_totalOutputTokens acc + output_tokens u;
         su_cacheCreationTokens :=
           su_cacheCreationTokens acc + count_or_zero (cache_creation_input_tokens u);
         su_cacheReadTokens :=
           su_cacheReadTokens acc + count_or_zero (cache_read_input_tokens u);
         su_messageCount := su_messageCount acc;
         su_model := if truthy mdl then getModelDisplayName mdl else su_model acc;
         su_estimatedCost := (su_estimatedCost acc + calculateCost u mdl)%Q;
         su_firstMessageAt := su_firstMessageAt acc;
         su_lastMessageAt := su_lastMessageAt acc |}
    | None => acc
    end in
  if isUserOrAssistant msg then
    {| su_sessionId := su_sessionId acc1;
       su_display := su_display acc1;
       su_project := su_project acc1;
       su_projectName := su_projectName acc1;
       su_totalInputTokens := su_totalInputTokens acc1;
       su_totalOutputTokens := su_totalOutputTokens acc1;
       su_cacheCreationTokens := su_cacheCreationTokens acc1;
       su_cacheReadTokens := su_cacheReadTokens acc1;
       su_messageCount := su_messageCount acc1 + 1;
       su_model := su_model acc1;
       su_estimatedCost := su_estimatedCost acc1;
       su_firstMessageAt :=
         if truthy (msg_timestamp msg) then
           match su_firstMessageAt acc1 with
           | None => msg_timestamp msg
           | Some t => Some t
           end
         else su_firstMessageAt acc1;
       su_lastMessageAt :=
         if truthy (msg_timestamp msg) then msg_timestamp msg
         else su_lastMessageAt acc1 |}
  else acc1.

(** [sessions.find((s) => s.id === sessionId)] *)
Definition findSession (sessions : list Session) (sessionId : string) : option Session :=
  List.find (fun s => String.eqb (s_id s) sessionId) sessions.

Definition initialSessionUsage (sessions : list Session) (sessionId : string)
  : SessionUsage :=
  let session := findSession sessions sessionId in
  {| su_sessionId := sessionId;
     su_display := or_else (option_map s_display session) "Unknown session";
     su_project := or_else (option_map s_project session) "";
     su_projectName := or_else (option_map s_projectName session) "";
     su_totalInputTokens := 0;
     su_totalOutputTokens := 0;
     su_cacheCreationTokens := 0;
     su_cacheReadTokens := 0;
     su_messageCount := 0;
     su_model := "Unknown";
     su_estimatedCost := 0;
     su_firstMessageAt := None;
     su_lastMessageAt := None |}.

(** The local variables of one turn of the session loop of [getUsageSummary] *)
Record SessionTotals := {
  sessionInputTokens : Z;
  sessionOutputTokens : Z;
  sessionCacheCreationTokens : Z;
  sessionCacheReadTokens : Z;
  sessionCost : Q;
  sessionMessageCount : Z
}.

Definition zeroSessionTotals : SessionTotals :=
  {| sessionInputTokens := 0; sessionOutputTokens := 0;
     sessionCacheCreationTokens := 0; sessionCacheReadTokens := 0;
     sessionCost := 0; sessionMessageCount := 0 |}.

Definition zeroModelBucket : ModelBucket :=
  {| mb_inputTokens := 0; mb_outputTokens := 0; mb_cost := 0; mb_count := 0 |}.

Definition emptySummary : UsageSummary :=
  {| totalInputTokens := 0; totalOutputTokens := 0;
     totalCacheCreationTokens := 0; totalCacheReadTokens := 0;
     totalEstimatedCost := 0; sessionCount := 0; messageCount := 0;
     byModel := ∅; byDate := []; byProject := ∅ |}.

(** Body of [for (const msg of messages)] in [getUsageSummary]: it updates
    the summary's cache totals and [byModel], and the session's locals. *)
Definition summaryMessageStep (st : UsageSummary * SessionTotals)
    (msg : ConversationMessage) : UsageSummary * SessionTotals :=
  let '(acc, t) := st in
  let '(acc1, t1) :=
    match assistantUsage msg with
    | Some (u, mdl) =>
      let cost := calculateCost u mdl in
      let modelName := getModelDisplayName mdl in
      let bucket := default zeroModelBucket (byModel acc !! modelName) in
      ({| totalInputTokens := totalInputTokens acc;
          totalOutputTokens := totalOutputTokens acc;
          totalCacheCreationTokens :=
            totalCacheCreationTokens acc + count_or_zero (cache_creation_input_tokens u);
          totalCacheReadTokens :=
            totalCacheReadTokens acc + count_or_zero (cache_read_input_tokens u);
          totalEstimatedCost := totalEstimatedCost acc;
          sessionCount := sessionCount acc;
          messageCount := messageCount acc;
          byModel :=
            <[ modelName :=
                 {| mb_inputTokens := mb_inputTokens bucket + input_tokens u;
                    mb_outputTokens := mb_outputTokens bucket + output_tokens u;
                    mb_cost := (mb_cost bucket + cost)%Q;
                    mb_count := mb_count bucket + 1 |} ]> (byModel acc);
          byDate := byDate acc;
          byProject := byProject acc |},
       {| sessionInputTokens := sessionInputTokens t + input_tokens u;
          sessionOutputTokens := sessionOutputTokens t + output_tokens u;
          sessionCacheCreationTokens :=
            sessionCacheCreationTokens t + count_or_zero (cache_creation_input_tokens u);
          sessionCacheReadTokens :=
            sessionCacheReadTokens t + count_or_zero (cache_read_input_tokens u);
          sessionCost := (sessionCost t + cost)%Q;
          sessionMessageCount := sessionMessageCount t |})
    | None => (acc, t)
    end in
  if isUserOrAssistant msg then
    (acc1,
     {| sessionInputTokens := sessionInputTokens t1;
        sessionOutputTokens := sessionOutputTokens t1;
        sessionCacheCreationTokens := sessionCacheCreationTokens t1;
        sessionCacheReadTokens := sessionCacheReadTokens t1;
        sessionCost := sessionCost t1;
        sessionMessageCount := sessionMessageCount t1 + 1 |})
  else (acc1, t1).

(** One turn of [for (const session of filteredSessions)], once the
    session's messages are read.  The state is the summary and [byDateMap]. *)
Definition summarySessionStep (st : UsageSummary * list (string * DateEntry))
    (session : Session) (msgs : list ConversationMessage)
  : Result (UsageSummary * list (string * DateEntry)) :=
  let '(acc, byDateMap) := st in
  let '(acc1, t) := fold_left summaryMessageStep msgs (acc, zeroSessionTotals) in
  if sessionMessageCount t >? 0 then
    match toISODate (s_timestamp session) with
    | Err e => Err e
    | Ok dateStr =>
      let dateEntry := default zeroDateEntry (table_get dateStr byDateMap) in
      let dateEntry' :=
        {| de_inputTokens := de_inputTokens dateEntry + sessionInputTokens t;
           de_outputTokens := de_outputTokens dateEntry + sessionOutputTokens t;
           de_cacheCreationTokens :=
             de_cacheCreationTokens dateEntry + sessionCacheCreationTokens t;
           de_cacheReadTokens := de_cacheReadTokens dateEntry + sessionCacheReadTokens t;
           de_cost := (de_cost dateEntry + sessionCost t)%Q;
           de_sessionCount := de_sessionCount dateEntry + 1 |} in
      let projectKey := or_else (Some (s_project session)) "Unknown" in
      let projectEntry :=
        default {| pb_projectName := or_else (Some (s_projectName session)) "Unknown";
                   pb_inputTokens := 0; pb_outputTokens := 0;
                   pb_cost := 0; pb_sessionCount := 0 |}
                (byProject acc1 !! projectKey) in
      Ok ({| totalInputTokens := totalInputTokens acc1 + sessionInputTokens t;
             totalOutputTokens := totalOutputTokens acc1 + sessionOutputTokens t;
             totalCacheCreationTokens := totalCacheCreationTokens acc1;
             totalCacheReadTokens := totalCacheReadTokens acc1;
             totalEstimatedCost := (totalEstimatedCost acc1 + sessionCost t)%Q;
             sessionCount := sessionCount acc1 + 1;
             messageCount := messageCount acc1 + sessionMessageCount t;
             byModel := byModel acc1;
             byDate := byDate acc1;
             byProject :=
               <[ projectKey :=
                    {| pb_projectName := pb_projectName projectEntry;
                       pb_inputTokens := pb_inputTokens projectEntry + sessionInputTokens t;
                       pb_outputTokens := pb_outputTokens projectEntry + sessionOutputTokens t;
                       pb_cost := (pb_cost projectEntry + sessionCost t)%Q;
                       pb_sessionCount := pb_sessionCount projectEntry + 1 |} ]>
                 (byProject acc1) |},
          map_set dateStr dateEntry' byDateMap)
    end
  else Ok (acc1, byDateMap).

(** The project and time-range filters of [getUsageSummary] *)
Definition filterSessions (sessions : list Session) (options : option UsageOptions)
  : list Session :=
  let project := match options with Some o => opt_project o | None => None end in
  let timeRange := match options with Some o => opt_timeRange o | None => None end in
  let filteredSessions :=
    if truthy project
    then List.filter (fun s => String.eqb (s_project s) (or_else project "")) sessions
    else sessions in
  match timeRange with
  | Some r =>
    match range_start r, range_end r with
    | None, None => filteredSessions
    | start, end_ =>
      let startTime := match start with Some t => t | None => 0 end in
      List.filter
        (fun s => (s_timestamp s >=? startTime)
                  && match end_ with
                     | Some endTime => s_timestamp s <=? endTime
                     | None => true
                     end)
        filteredSessions
    end
  | None => filteredSessions
  end.

Section UsageAggregator.

Variable JSON_parse : list ascii -> option ConversationMessage.

Definition getSessionUsage (fs : FS) (sessions : list Session) (sessionId : string)
  : M (option SessionUsage) :=
  let* msgs := getConversation JSON_parse fs sessionId in
  if (length msgs =? 0)%nat then ret None
  else ret (Some (fold_left sessionUsageStep msgs (initialSessionUsage sessions sessionId))).

(** [for (const session of filteredSessions)] *)
Fixpoint summaryLoop (fs : FS) (filteredSessions : list Session)
    (st : UsageSummary * list (string * DateEntry))
  : M (UsageSummary * list (string * DateEntry)) :=
  match filteredSessions with
  | [] => ret st
  | session :: rest =>
    let* msgs := getConversation JSON_parse fs (s_id session) in
    let* st' := lift (summarySessionStep st session msgs) in
    summaryLoop fs rest st'
  end.

(** [sessions] is what [await getSessions()] gave. *)
Definition getUsageSummary (fs : FS) (sessions : list Session)
    (options : option UsageOptions) : M UsageSummary :=
  let filteredSessions := filterSessions sessions options in
  let* st := summaryLoop fs filteredSessions (emptySummary, []) in
  let '(acc, byDateMap) := st in
  ret {| totalInputTokens := totalInputTokens acc;
         totalOutputTokens := totalOutputTokens acc;
         totalCacheCreationTokens := totalCacheCreationTokens acc;
         totalCacheReadTokens := totalCacheReadTokens acc;
         totalEstimatedCost := totalEstimatedCost acc;
         sessionCount := sessionCount acc;
         messageCount := messageCount acc;
         byModel := byModel acc;
         byDate := sortByDate (map withDate byDateMap);
         byProject := byProject acc |}.

End UsageAggregator.

(** [new Map(summary.byDate.map((d) => [d.date, d]))] *)
Definition dateMapOf (buckets : list DateBucket) : list (string * DateBucket) :=
  fold_left (fun m d => map_set (date d) d m) buckets [].

(** The [while (current <= endDate)] loop of [getDailyUsage] *)
Equations? dailyLoop (dateMap : list (string * DateBucket)) (endDate : Z)
    (current : Z) (result : list DateBucket)
  : Result (list DateBucket) by wf (Z.to_nat ((endDate - current) / msPerDay + 1)) lt :=
  dailyLoop dateMap endDate current result with Z_le_dec current endDate => {
    | right _ => Ok result;
    | left _ with toISODate current => {
      | Err e => Err e;
      | Ok dateStr =>
        dailyLoop dateMap endDate (addDays current 1)
          (result ++ [default (zeroBucket dateStr) (table_get dateStr dateMap)]) } }.
Proof.
  unfold addDays, msPerDay.
  replace (endDate - (current + 1 * 86400000)) with ((endDate - current) + (-1) * 86400000) by lia.
  rewrite Z.div_add by lia.
  assert (0 <= (endDate - current) / 86400000) by (apply Z.div_pos; lia).
  lia.
Qed.

Section DailyUsage.

Variable JSON_parse : list ascii -> option ConversationMessage.

(** [endNow] and [startNow] are the instants the two calls of [new Date()]
    read, in this order: [endDate] is created first. *)
Definition getDailyUsage (fs : FS) (sessions : list Session)
    (endNow startNow : Z) (days : Z) : M (list DateBucket) :=
  let endDate := endNow in
  let startDate := addDays startNow (- days) in
  let* _ := lift (toISODate startDate) in
  let* _ := lift (toISODate endDate) in
  let* usageSummary :=
    getUsageSummary JSON_parse fs sessions
      (Some {| opt_timeRange := Some {| range_start := Some startDate;
                                        range_end := Some endDate |};
               opt_project := None |}) in
  let dateMap := dateMapOf (byDate usageSummary) in
  lift (dailyLoop dateMap endDate startDate []).

End DailyUsage.

(* ===================================================================== *)
(** ** Request coalescer: [dedupe] and [pendingRequests]

    The event loop runs one task at a time: a call registers or finds its
    promise without interruption, and a promise settles later, as a step of
    its own.  A promise is named by its position in [started], the list of
    the computations launched so far. *)
(* ===================================================================== *)

Inductive Computation :=
| FullRead (sessionId : string)
| TailRead (sessionId : string) (fromOffset : Z).

(** A launched computation (a call of [fn()] or of an async body), with the
    key its promise is registered under, if it was launched by [dedupe]. *)
Record Launch := {
  computation : Computation;
  dedupeKey : option string
}.

Record Coalescer := {
  pendingRequests : gmap string nat;
  started : list Launch;
  settled : gset nat
}.

Definition initialCoalescer : Coalescer :=
  {| pendingRequests := ∅; started := []; settled := ∅ |}.

(** [dedupe(key, fn)]: the promise the caller gets, and the new state *)
Definition dedupe (key : string) (fn : Computation) (c : Coalescer) : nat * Coalescer :=
  match pendingRequests c !! key with
  | Some existing => (existing, c)
  | None =>
    let promise := length (started c) in
    (promise,
     {| pendingRequests := <[ key := promise ]> (pendingRequests c);
        started := started c ++ [ {| computation := fn; dedupeKey := Some key |} ];
        settled := settled c |})
  end.

(** A call of an async function that is not wrapped in [dedupe] *)
Definition launch (fn : Computation) (c : Coalescer) : nat * Coalescer :=
  (length (started c),
   {| pendingRequests := pendingRequests c;
      started := started c ++ [ {| computation := fn; dedupeKey := None |} ];
      settled := settled c |}).

(** The promise settles, with success or failure; the [finally] callback
    of [dedupe] runs if the promise came from there. *)
Definition settle (promise : nat) (c : Coalescer) : Coalescer :=
  match started c !! promise with
  | Some l =>
    if bool_decide (promise ∈ settled c) then c
    else {| pendingRequests :=
              match dedupeKey l with
              | Some key => delete key (pendingRequests c)
              | None => pendingRequests c
              end;
            started := started c;
            settled := {[ promise ]} ∪ settled c |}
  | None => c
  end.

Definition conversationKey (sessionId : string) : string :=
  "getConversation:" +:+ sessionId.

(** What the callers of the two read modes do to the coalescer *)
Definition callGetConversation (sessionId : string) (c : Coalescer) : nat * Coalescer :=
  dedupe (conversationKey sessionId) (FullRead sessionId) c.

Definition callGetConversationStream (sessionId : string) (fromOffset : Z) (c : Coalescer)
  : nat * Coalescer :=
  launch (TailRead sessionId fromOffset) c.

Inductive Event :=
| CallGetConversation (sessionId : string)
| CallGetConversationStream (sessionId : string) (fromOffset : Z)
| Settle (promise : nat).

Definition step (c : Coalescer) (e : Event) : Coalescer :=
  match e with
  | CallGetConversation sessionId => snd (callGetConversation sessionId c)
  | CallGetConversationStream sessionId fromOffset =>
    snd (callGetConversationStream sessionId fromOffset c)
  | Settle promise => settle promise c
  end.

Definition run (events : list Event) (c : Coalescer) : Coalescer :=
  fold_left step events c.

Definition reachable (c : Coalescer) : Prop :=
  exists events, c = run events initialCoalescer.

(** The computations of [fn] launched and not yet settled *)
Definition inFlight (fn : Computation -> bool) (c : Coalescer) : list nat :=
  List.filter
    (fun p => match started c !! p with
              | Some l => fn (computation l) && negb (bool_decide (p ∈ settled c))
              | None => false
              end)
    (seq 0 (length (started c))).

Definition isFullReadOf (sessionId : string) (fn : Computation) : bool :=
  match fn with
  | FullRead s => String.eqb s sessionId
  | TailRead _ _ => false
  end.

Definition isTailReadOf (sessionId : string) (fn : Computation) : bool :=
  match fn with
  | FullRead _ => false
  | TailRead s _ => String.eqb s sessionId
  end.

(* ===================================================================== *)
(** ** Session discovery: the file index, log metadata, [getSessions] *)
(* ===================================================================== *)

(** Body of the callback [buildFileIndex] runs for one directory: after
    the listing arrives, every log of the directory is entered. *)
Definition indexDirectory (fs : FS) (dir : Dirent) : M unit :=
  fun idx =>
    match readdir fs (name dir) with
    | Ok files =>
      (Ok tt,
       fold_left
         (fun idx file =>
            if endsWith file ".jsonl"
            then <[ basename file ".jsonl" := (name dir, file) ]> idx
            else idx)
         files idx)
    | Err _ => (Ok tt, idx)
    end.

(** [Promise.all] starts the listings of all directories at once; each
    callback fills the index when its listing arrives.  [arrival] is the
    list of directories in the order their listings arrive: some
    arrangement of [projectDirs.filter((d) => d.isDirectory())]. *)
Definition buildFileIndex (fs : FS) (arrival : list Dirent) : M unit :=
  match readdir_projects fs with
  | Ok _ => fold_left (fun c dir => let* _ := c in indexDirectory fs dir) arrival (ret tt)
  | Err _ => ret tt
  end.

Definition projectDirToDisplayName (dirName : string) : string :=
  let parts := List.filter nonEmptyString (split_on "-" dirName) in
  last_or parts dirName.

(** A content block; [extractDisplayText] reads its [type] and [text]. *)
Record ContentBlock := {
  cb_type : string;
  cb_text : option string
}.

(** [message.content]: a string, an array of blocks, or a value that is
    neither (the declared type has the first two, the code allows for the
    third). *)
Inductive Content :=
| TextContent (text : string)
| BlockContent (blocks : list ContentBlock)
| OtherContent.

(** [block.type === "text" && block.text] *)
Definition isTextBlock (block : ContentBlock) : bool :=
  String.eqb (cb_type block) "text" && truthy (cb_text block).

Definition extractDisplayText (content : Content) : string :=
  match content with
  | TextContent text => String.substring 0 200 text
  | BlockContent blocks =>
    match List.find (fun block =>
                       isTextBlock block
                       && negb (startsWith (or_else (cb_text block) "") "<"))
                    blocks with
    | Some block => String.substring 0 200 (or_else (cb_text block) "")
    | None =>
      match List.find isTextBlock blocks with
      | Some block => String.substring 0 200 (or_else (cb_text block) "")
      | None => "Untitled conversation"
      end
    end
  | OtherContent => "Untitled conversation"
  end.

(** What [readSessionMetadata] reads of a parsed line: [msg.type],
    [msg.message?.content], [msg.timestamp] and [msg.cwd].  The timestamp
    is identified with the instant it denotes, as in [TimeRange]; an absent
    field is [None]. *)
Record LogLine := {
  line_type : string;
  line_content : option Content;
  line_timestamp : option Z;
  line_cwd : option string
}.

(** Truthiness of [msg.message?.content]: the empty string is falsy, an
    array is truthy even when empty. *)
Definition hasContent (content : option Content) : bool :=
  match content with
  | None | Some (TextContent EmptyString) => false
  | Some _ => true
  end.

Record SessionMetadata := {
  meta_display : string;
  meta_timestamp : Z;
  meta_project : string
}.

(** The hidden state next to [fileIndex]: [null] is [None]. *)
Record Caches := {
  historyCache : option (list HistoryEntry);
  sessionCache : option (list Session)
}.

Definition invalidateHistoryCache (c : Caches) : Caches :=
  {| historyCache := None; sessionCache := None |}.

Definition invalidateSessionCache (c : Caches) : Caches :=
  {| historyCache := historyCache c; sessionCache := None |}.

(** [array.sort(compare)], a stable sort, for a [compare] that orders the
    elements consistently; [before a b] is [compare(a, b) <= 0]. *)
Fixpoint insertSorted {A : Type} (before : A -> A -> bool) (a : A) (l : list A)
  : list A :=
  match l with
  | [] => [a]
  | x :: rest =>
    if before a x then a :: x :: rest else x :: insertSorted before a rest
  end.

Definition stableSort {A : Type} (before : A -> A -> bool) (l : list A) : list A :=
  foldr (insertSorted before) [] l.

(** A session found in a project directory, as the callbacks of
    [getSessions] collect them *)
Record Discovered := {
  found_session : Session;
  found_hasCwd : bool
}.

Section SessionIndex.

(** [JSON.parse] of a line of [history.jsonl] and of a line of a session
    log, each read at the fields the caller uses; [None] when the parse
    throws. *)
Variable JSON_parse_history : list ascii -> option HistoryEntry.
Variable JSON_parse_line : list ascii -> option LogLine.

(** [historyFile] is what [readFile(join(claudeDir, "history.jsonl"))]
    gives. *)
Definition loadHistoryCache (historyFile : Result (list ascii)) (c : Caches)
  : list HistoryEntry * Caches :=
  match historyFile with
  | Ok content =>
    let lines := List.filter nonEmpty (split_LF (trim content)) in
    let entries :=
      fold_left
        (fun entries line =>
           match JSON_parse_history line with
           | Some entry => entries ++ [entry]
           | None => entries
           end)
        lines [] in
    (entries, {| historyCache := Some entries; sessionCache := sessionCache c |})
  | Err _ => ([], {| historyCache := Some []; sessionCache := sessionCache c |})
  end.

Definition loadStorage (fs : FS) (arrival : list Dirent)
    (historyFile : Result (list ascii)) (c : Caches) : M Caches :=
  let* _ := buildFileIndex fs arrival in
  ret (snd (loadHistoryCache historyFile c)).

(** The [for await (const line of rl)] loop of [readSessionMetadata];
    [now] is what [Date.now()] reads. *)
Fixpoint scanMetadata (now : Z) (lines : list (list ascii)) : option SessionMetadata :=
  match lines with
  | [] => None
  | line :: rest =>
    if isBlank line then scanMetadata now rest
    else
      match JSON_parse_line line with
      | Some msg =>
        if String.eqb (line_type msg) "user" && hasContent (line_content msg) then
          Some {| meta_display :=
                    match line_content msg with
                    | Some content => extractDisplayText content
                    | None => "Untitled conversation"
                    end;
                  meta_timestamp :=
                    match line_timestamp msg with
                    | Some t => t
                    | None => now
                    end;
                  meta_project := or_else (line_cwd msg) "" |}
        else scanMetadata now rest
      | None => scanMetadata now rest
      end
  end.

Definition readSessionMetadata (fs : FS) (now : Z) (filePath : Path)
  : option SessionMetadata :=
  match readFile fs filePath with
  | Ok text => scanMetadata now (readline text)
  | Err _ => None
  end.

(** Body of [for (const file of jsonlFiles)] in the callback [getSessions]
    runs for the directory [dirName]; the state is the callback's [results]
    and the shared [dirToProjectPath].  [now filePath] is what [Date.now()]
    reads while the metadata of [filePath] are read. *)
Definition discoverFile (fs : FS) (now : Path -> Z) (seenIds : gset string)
    (dirName : string) (st : list Discovered * gmap string string) (file : string)
  : list Discovered * gmap string string :=
  let '(results, dirToProjectPath) := st in
  let sessionId := basename file ".jsonl" in
  if bool_decide (sessionId ∈ seenIds) then st
  else
    let filePath := (dirName, file) in
    match readSessionMetadata fs (now filePath) filePath with
    | Some meta =>
      let hasProject := nonEmptyString (meta_project meta) in
      (results ++
       [ {| found_session :=
              {| s_id := sessionId;
                 s_display := meta_display meta;
                 s_timestamp := meta_timestamp meta;
                 s_project := or_else (Some (meta_project meta)) dirName;
                 s_projectName :=
                   if hasProject then getProjectName (meta_project meta)
                   else projectDirToDisplayName dirName |};
            found_hasCwd := hasProject |} ],
       if hasProject then <[ dirName := meta_project meta ]> dirToProjectPath
       else dirToProjectPath)
    | None =>
      match stat fs filePath with
      | Ok fileStat =>
        (results ++
         [ {| found_session :=
                {| s_id := sessionId;
                   s_display := "Untitled conversation";
                   s_timestamp := st_mtimeMs fileStat;
                   s_project := dirName;
                   s_projectName := projectDirToDisplayName dirName |};
              found_hasCwd := false |} ],
         dirToProjectPath)
      | Err _ => st
      end
    end.

(** The callback for one directory.  The callbacks of the directories run
    interleaved; each writes [dirToProjectPath] at its own directory name
    only and none changes [seenIds], so they are given one after the other,
    in the order of their results. *)
Definition discoverDirectory (fs : FS) (now : Path -> Z) (seenIds : gset string)
    (st : list (string * list Discovered) * gmap string string) (dir : Dirent)
  : list (string * list Discovered) * gmap string string :=
  let '(discoveredSessions, dirToProjectPath) := st in
  match readdir fs (name dir) with
  | Ok files =>
    let jsonlFiles := List.filter (fun f => endsWith f ".jsonl") files in
    let '(results, dirToProjectPath') :=
      fold_left (discoverFile fs now seenIds (name dir)) jsonlFiles
                ([], dirToProjectPath) in
    (discoveredSessions ++ [(name dir, results)], dirToProjectPath')
  | Err _ => (discoveredSessions ++ [(name dir, [])], dirToProjectPath)
  end.

(** Body of [for (const { session, hasCwd } of results)] *)
Definition resolveSession (resolvedPath : option string)
    (st : list Session * gset string) (found : Discovered)
  : list Session * gset string :=
  let '(sessions, seenIds) := st in
  let session :=
    if negb (found_hasCwd found) && truthy resolvedPath
    then {| s_id := s_id (found_session found);
            s_display := s_display (found_session found);
            s_timestamp := s_timestamp (found_session found);
            s_project := or_else resolvedPath "";
            s_projectName := getProjectName (or_else resolvedPath "") |}
    else found_session found in
  if bool_decide (s_id session ∈ seenIds) then st
  else (sessions ++ [session], {[ s_id session ]} ∪ seenIds).

(** Body of [for (const { dirName, results } of discoveredSessions)] *)
Definition resolveDirectory (dirToProjectPath : gmap string string)
    (st : list Session * gset string) (entry : string * list Discovered)
  : list Session * gset string :=
  fold_left (resolveSession (dirToProjectPath !! fst entry)) (snd entry) st.

(** The second part of [getSessions]: the sessions of the project
    directories that the history log did not give. *)
Definition discoverSessions (fs : FS) (now : Path -> Z)
    (st : list Session * gset string) : list Session * gset string :=
  match readdir_projects fs with
  | Ok projectDirs =>
    let directories := List.filter isDirectory projectDirs in
    let '(discoveredSessions, dirToProjectPath) :=
      fold_left (discoverDirectory fs now (snd st)) directories ([], ∅) in
    fold_left (resolveDirectory dirToProjectPath) discoveredSessions st
  | Err _ => st
  end.

(** [b.timestamp - a.timestamp <= 0] *)
Definition newerFirst (a b : Session) : bool := s_timestamp b <=? s_timestamp a.

(** The body [getSessions] hands to [dedupe]. *)
Definition getSessions (fs : FS) (historyFile : Result (list ascii))
    (now : Path -> Z) (c : Caches) : list Session * Caches :=
  match sessionCache c with
  | Some sessions => (sessions, c)
  | None =>
    let '(entries, c1) :=
      match historyCache c with
      | Some entries => (entries, c)
      | None => loadHistoryCache historyFile c
      end in
    let acc := historySessions fs entries in
    let '(sessions, _) :=
      discoverSessions fs now (acc_sessions acc, acc_seenIds acc) in
    let sorted := stableSort newerFirst sessions in
    (sorted, {| historyCache := historyCache c1; sessionCache := Some sorted |})
  end.

End SessionIndex.

(** [projects.add(p)] on a [Set] kept in insertion order *)
Definition set_add (p : string) (projects : list string) : list string :=
  if bool_decide (p ∈ projects) then projects else projects ++ [p].

(** [sessions] is what [await getSessions()] gave.  The default [sort]
    compares strings by their code units. *)
Definition getProjects (sessions : list Session) : list string :=
  let projects :=
    fold_left
      (fun projects session =>
         if nonEmptyString (s_project session)
         then set_add (s_project session) projects
         else projects)
      sessions [] in
  stableSort String.leb projects.

(* ===================================================================== *)
(** ** Sessions with their usage ([getSessionsWithUsage]) *)
(* ===================================================================== *)

(** The options of [getSessionsWithUsage]; the numbers are integers. *)
Record ListOptions := {
  lo_limit : option Z;
  lo_offset : option Z;
  lo_sortBy : option string;
  lo_project : option string
}.

Record SessionsWithUsage := {
  swu_sessions : list SessionUsage;
  swu_total : Z
}.

(** [n || dflt] for an optional number: [undefined] and [0] are falsy. *)
Definition number_or (n : option Z) (dflt : Z) : Z :=
  match n with
  | Some v => if v =? 0 then dflt else v
  | None => dflt
  end.

(** [array.slice(start, end)]: a negative index counts from the end. *)
Definition slice {A : Type} (l : list A) (start end_ : Z) : list A :=
  let len := Z.of_nat (length l) in
  let k := if start <? 0 then Z.max (len + start) 0 else Z.min start len in
  let final := if end_ <? 0 then Z.max (len + end_) 0 else Z.min end_ len in
  take (Z.to_nat (final - k)) (drop (Z.to_nat k) l).

Section SessionsWithUsage.

Variable JSON_parse : list ascii -> option ConversationMessage.

(** [new Date(s).getTime()]; [None] is [NaN], for a string that is no
    date. *)
Variable Date_getTime : string -> option Z.

(** [a.lastMessageAt ? new Date(a.lastMessageAt).getTime() : 0] *)
Definition lastMessageTime (a : SessionUsage) : option Z :=
  if truthy (su_lastMessageAt a) then Date_getTime (or_else (su_lastMessageAt a) "")
  else Some 0.

(** [compare(a, b) <= 0] for the comparator given to [sort]; a result of
    [NaN] counts as [0].  Where a timestamp is no date the comparator of
    the ["date"] order is not consistent, and the order [sort] produces is
    then left open by the language. *)
Definition usageBefore (sortBy : string) (a b : SessionUsage) : bool :=
  if String.eqb sortBy "cost" then
    Qle_bool (su_estimatedCost b) (su_estimatedCost a)
  else if String.eqb sortBy "tokens" then
    su_totalInputTokens b + su_totalOutputTokens b
    - (su_totalInputTokens a + su_totalOutputTokens a) <=? 0
  else
    match lastMessageTime a, lastMessageTime b with
    | Some aTime, Some bTime => bTime - aTime <=? 0
    | _, _ => true
    end.

(** [for (const session of filteredSessions)] *)
Fixpoint usageLoop (fs : FS) (sessions filteredSessions : list Session)
    (sessionsWithUsage : list SessionUsage) : M (list SessionUsage) :=
  match filteredSessions with
  | [] => ret sessionsWithUsage
  | session :: rest =>
    let* usage := getSessionUsage JSON_parse fs sessions (s_id session) in
    usageLoop fs sessions rest
      (match usage with
       | Some u => sessionsWithUsage ++ [u]
       | None => sessionsWithUsage
       end)
  end.

(** [sessions] is what [await getSessions()] gave. *)
Definition getSessionsWithUsage (fs : FS) (sessions : list Session)
    (options : option ListOptions) : M SessionsWithUsage :=
  let limit := number_or (options ≫= lo_limit) 50 in
  let offset := number_or (options ≫= lo_offset) 0 in
  let sortBy := or_else (options ≫= lo_sortBy) "date" in
  let project := options ≫= lo_project in
  let filteredSessions :=
    if truthy project
    then List.filter (fun s => String.eqb (s_project s) (or_else project "")) sessions
    else sessions in
  let* sessionsWithUsage := usageLoop fs sessions filteredSessions [] in
  let sorted := stableSort (usageBefore sortBy) sessionsWithUsage in
  ret {| swu_sessions := slice sorted offset (offset + limit);
         swu_total := Z.of_nat (length sessionsWithUsage) |}.

End SessionsWithUsage.

(* ===================================================================== *)
(** ** Usage figures of the session header ([web/components/session-view.tsx]) *)
(* ===================================================================== *)

Record UsageStats := {
  us_inputTokens : Z;
  us_outputTokens : Z;
  us_cost : Q
}.

(** Body of [for (const msg of messages)] in [usageStats]; the rates are
    written in the loop, whatever the model of the message. *)
Definition usageStatsStep (acc : UsageStats) (msg : ConversationMessage) : UsageStats :=
  match assistantUsage msg with
  | Some (u, _) =>
    let inputCost := (perMillion (input_tokens u) * 3)%Q in
    let outputCost := (perMillion (output_tokens u) * 15)%Q in
    let cacheWriteCost :=
      (perMillion (count_or_zero (cache_creation_input_tokens u)) * 3 * (5 # 4))%Q in
    let cacheReadCost :=
      (perMillion (count_or_zero (cache_read_input_tokens u)) * 3 * (1 # 10))%Q in
    {| us_inputTokens := us_inputTokens acc + input_tokens u;
       us_outputTokens := us_outputTokens acc + output_tokens u;
       us_cost := (us_cost acc + (inputCost + outputCost + cacheWriteCost + cacheReadCost))%Q |}
  | None => acc
  end.

Definition usageStats (messages : list ConversationMessage) : UsageStats :=
  fold_left usageStatsStep messages
            {| us_inputTokens := 0; us_outputTokens := 0; us_cost := 0 |}.


(* ===================================================================== *)
(** ** Derived forms, used in the proofs *)
(* ===================================================================== *)

(** The result of a tail read of a resolved file, from what [stat] and the
    read stream give. *)
Definition tailReadResult (JSON_parse : list ascii -> option ConversationMessage)
    (fromOffset : Z) (st : Result Stats) (text : Result (list ascii)) : StreamResult :=
  match st with
  | Err _ => {| messages := []; nextOffset := fromOffset |}
  | Ok s =>
    if fromOffset >=? size s then {| messages := []; nextOffset := fromOffset |}
    else
      match text with
      | Err _ => {| messages := []; nextOffset := fromOffset |}
      | Ok t =>
        let r := consumeLines JSON_parse (readline t) [] 0 in
        {| messages := fst r;
           nextOffset :=
             if fromOffset + snd r >? size s then size s else fromOffset + snd r |}
      end
  end.

(** Chained tail reads: each call starts at the offset the one before
    returned; [snapshots] are the states of the file system the calls find. *)
Fixpoint tailReads (JSON_parse : list ascii -> option ConversationMessage)
    (snapshots : list FS) (sessionId : string) (fromOffset : Z)
    (idx : gmap string Path) : list StreamResult :=
  match snapshots with
  | [] => []
  | fs :: rest =>
    match getConversationStream JSON_parse fs sessionId fromOffset idx with
    | (Ok r, idx') => r :: tailReads JSON_parse rest sessionId (nextOffset r) idx'
    | (Err _, _) => []
    end
  end.



Definition sumZ {A : Type} (f : A -> Z) (l : list A) : Z :=
  fold_right (fun x acc => f x + acc) 0 l.

Definition sumQ {A : Type} (f : A -> Q) (l : list A) : Q :=
  fold_right (fun x acc => (f x + acc)%Q) 0%Q l.

(** What holds of every state the coalescer reaches: settled promises were
    launched; a pending entry names a launched, unsettled promise of that
    key; a launched, unsettled promise of a key is the pending entry of the
    key; full reads, and only they, are launched through [dedupe]. *)
Definition coalescerInv (c : Coalescer) : Prop :=
  (forall p, p ∈ settled c -> (p < length (started c))%nat)
  /\ (forall key p,
        pendingRequests c !! key = Some p ->
        (exists l, started c !! p = Some l /\ dedupeKey l = Some key)
        /\ p ∉ settled c)
  /\ (forall p l key,
        started c !! p = Some l -> dedupeKey l = Some key -> p ∉ settled c ->
        pendingRequests c !! key = Some p)
  /\ (forall p l,
        started c !! p = Some l ->
        dedupeKey l =
          match computation l with
          | FullRead s => Some (conversationKey s)
          | TailRead _ _ => None
          end).


Definition isLineBreak (c : ascii) : bool := Ascii.eqb c LF || Ascii.eqb c CR.

(** The text holds no line break: it is (part of) one line. *)
Definition oneLine (l : list ascii) : Prop :=
  forallb (fun c => negb (isLineBreak c)) l = true.

(** The text holds no carriage return: its lines end with a line feed. *)
Definition noCR (s : list ascii) : Prop :=
  forallb (fun c => negb (Ascii.eqb c CR)) s = true.

(** The lines written out, each followed by a line feed *)
Definition unlines (lines : list (list ascii)) : list ascii :=
  concat (map (fun l => l ++ [LF]) lines).

(** The user and assistant messages of the lines that are not blank *)
Definition lineMessages (JSON_parse : list ascii -> option ConversationMessage)
    (lines : list (list ascii)) : list ConversationMessage :=
  List.filter isUserOrAssistant
    (omap JSON_parse (List.filter (fun l => negb (isBlank l)) lines)).

(** A line the tail read consumes: blank, or parsed by [JSON.parse] *)
Definition goodLine {B : Type} (JSON_parse : list ascii -> option B)
    (l : list ascii) : Prop :=
  isBlank l = true \/ is_Some (JSON_parse l).

(** A log of well-formed lines, each ended by a line feed (the last one
    may lack it). *)
Definition wellFormedLog (JSON_parse : list ascii -> option ConversationMessage)
    (content : list ascii) : Prop :=
  noCR content /\ Forall (goodLine JSON_parse) (readline content).

(** [x] added to the last of the lines *)
Fixpoint app_last (lines : list (list ascii)) (x : ascii) : list (list ascii) :=
  match lines with
  | [] => [[x]]
  | [l] => [l ++ [x]]
  | l :: rest => l :: app_last rest x
  end.

(** What the proofs below ask of [JSON.parse]: it refuses a blank text,
    and when it accepts a text it accepts the text without the white space
    around it, with the same result. *)
Definition refusesBlank {B : Type} (f : list ascii -> option B) : Prop :=
  forall l, isBlank l = true -> f l = None.

Definition skipsWhiteSpace {B : Type} (f : list ascii -> option B) : Prop :=
  forall a s b m,
    forallb isWhiteSpace a = true -> forallb isWhiteSpace b = true ->
    f (a ++ s ++ b) = Some m -> f s = Some m.


(** The session id [getSessions] works out for a history entry: the one
    the entry names, else the one of the log closest in time. *)
Definition entrySessionId (fs : FS) (entry : HistoryEntry) : option string :=
  if truthy (h_sessionId entry) then h_sessionId entry
  else findSessionByTimestamp fs (encodeProjectPath (h_project entry))
                              (h_timestamp entry).

(** The session [getSessions] makes of a history entry *)
Definition entrySession (sessionId : string) (entry : HistoryEntry) : Session :=
  {| s_id := sessionId;
     s_display := h_display entry;
     s_timestamp := h_timestamp entry;
     s_project := h_project entry;
     s_projectName := getProjectName (h_project entry) |}.

(** The history entries [getSessions] works from: the cached ones, else
    those of the history log *)
Definition historyEntries (JSON_parse_history : list ascii -> option HistoryEntry)
    (historyFile : Result (list ascii)) (c : Caches) : list HistoryEntry :=
  match historyCache c with
  | Some entries => entries
  | None => fst (loadHistoryCache JSON_parse_history historyFile c)
  end.

(** [seenIds] holds the ids of [sessions], and no two sessions share an
    id: the invariant of the loops of [getSessions]. *)
Definition idsSeen (st : list Session * gset string) : Prop :=
  NoDup (map s_id (fst st))
  /\ forall id, id ∈ snd st <-> id ∈ map s_id (fst st).

(** A log [file] that the directory [dirName] lists *)
Definition listedLog (fs : FS) (dirName file : string) : Prop :=
  exists files,
    readdir fs dirName = Ok files /\ file ∈ files /\ endsWith file ".jsonl" = true.

(** The session ids of what the callbacks of [getSessions] found *)
Definition foundIds (results : list Discovered) : list string :=
  map (fun found => s_id (found_session found)) results.

Definition discoveredIds (discoveredSessions : list (string * list Discovered))
  : list string :=
  concat (map (fun entry => foundIds (snd entry)) discoveredSessions).

(** The index resolves [sessionId] to a log of that session in a directory
    that can be listed. *)
Definition indexed (fs : FS) (sessionId : string) (idx : gmap string Path) : Prop :=
  exists p : Path,
    idx !! sessionId = Some p
    /\ listedLog fs (fst p) (snd p)
    /\ basename (snd p) ".jsonl" = sessionId.





(** A session without a message has no usage: an invariant of the message
    loop of [getUsageSummary]. *)
Definition countedUsage (t : SessionTotals) : Prop :=
  0 <= sessionMessageCount t
  /\ (sessionMessageCount t = 0 ->
      sessionInputTokens t = 0 /\ sessionOutputTokens t = 0
      /\ (sessionCost t == 0)%Q).

(** Every entry of the index is what a scan of the project directories
    finds: true of the empty index, and kept by every lookup. *)
Definition indexAgrees (fs : FS) (idx : gmap string Path) : Prop :=
  forall sessionId (p : Path),
    idx !! sessionId = Some p -> fst (findSessionFile fs sessionId ∅) = Ok (Some p).

(** What [getConversation] and [getSessionUsage] return for a session when
    they start from an empty index (neither rejects) *)
Definition conversationOf (JSON_parse : list ascii -> option ConversationMessage)
    (fs : FS) (sessionId : string) : list ConversationMessage :=
  match fst (getConversation JSON_parse fs sessionId ∅) with
  | Ok msgs => msgs
  | Err _ => []
  end.

Definition sessionUsageOf (JSON_parse : list ascii -> option ConversationMessage)
    (fs : FS) (sessions : list Session) (sessionId : string) : option SessionUsage :=
  match fst (getSessionUsage JSON_parse fs sessions sessionId ∅) with
  | Ok usage => usage
  | Err _ => None
  end.

(** The figures of a session grow alike in the message loops of
    [getSessionUsage] (from [a] to [a']) and of [getUsageSummary] (from
    [st] to [st']). *)
Definition sameGrowth (a a' : SessionUsage)
    (st st' : UsageSummary * SessionTotals) : Prop :=
  su_totalInputTokens a' - su_totalInputTokens a
  = sessionInputTokens (snd st') - sessionInputTokens (snd st)
  /\ su_totalOutputTokens a' - su_totalOutputTokens a
     = sessionOutputTokens (snd st') - sessionOutputTokens (snd st)
  /\ su_cacheCreationTokens a' - su_cacheCreationTokens a
     = totalCacheCreationTokens (fst st') - totalCacheCreationTokens (fst st)
  /\ su_cacheReadTokens a' - su_cacheReadTokens a
     = totalCacheReadTokens (fst st') - totalCacheReadTokens (fst st)
  /\ su_messageCount a' - su_messageCount a
     = sessionMessageCount (snd st') - sessionMessageCount (snd st)
  /\ (su_estimatedCost a' - su_estimatedCost a
      == sessionCost (snd st') - sessionCost (snd st))%Q.

(** The grand totals of [acc'] are those of [acc] and the figures of [u]. *)
Definition totalsGrowBy (acc acc' : UsageSummary) (u : SessionUsage) : Prop :=
  totalInputTokens acc' = totalInputTokens acc + su_totalInputTokens u
  /\ totalOutputTokens acc' = totalOutputTokens acc + su_totalOutputTokens u
  /\ totalCacheCreationTokens acc' = totalCacheCreationTokens acc + su_cacheCreationTokens u
  /\ totalCacheReadTokens acc' = totalCacheReadTokens acc + su_cacheReadTokens u
  /\ messageCount acc' = messageCount acc + su_messageCount u
  /\ (totalEstimatedCost acc' == totalEstimatedCost acc + su_estimatedCost u)%Q.

(** The figures the message loop of [getSessionUsage] works out for a
    session, also when its conversation is empty *)
Definition sessionFigures (JSON_parse : list ascii -> option ConversationMessage)
    (fs : FS) (sessions : list Session) (session : Session) : SessionUsage :=
  fold_left sessionUsageStep (conversationOf JSON_parse fs (s_id session))
            (initialSessionUsage sessions (s_id session)).

(** The usage of two messages taken together *)
Definition addUsage (u1 u2 : TokenUsage) : TokenUsage :=
  {| input_tokens := input_tokens u1 + input_tokens u2;
     output_tokens := output_tokens u1 + output_tokens u2;
     cache_creation_input_tokens :=
       Some (count_or_zero (cache_creation_input_tokens u1)
             + count_or_zero (cache_creation_input_tokens u2));
     cache_read_input_tokens :=
       Some (count_or_zero (cache_read_input_tokens u1)
             + count_or_zero (cache_read_input_tokens u2)) |}.


(** The character [c] occurs in [s]. *)
Fixpoint hasChar (c : ascii) (s : string) : bool :=
  match s with
  | EmptyString => false
  | String x s' => Ascii.eqb x c || hasChar c s'
  end.


(** The lines written out, each followed by a carriage return and a line
    feed *)
Definition unlinesCRLF (lines : list (list ascii)) : list ascii :=
  concat (map (fun l => l ++ [CR; LF]) lines).

(** What the callback of [getSessions] collects for a log [file] of the
    directory [dirName] that the history log did not give: the session made
    of the log's metadata, or of the file's modification time when the log
    has none; nothing when the file cannot be examined either. *)
Definition foundIn (JSON_parse_line : list ascii -> option LogLine)
    (fs : FS) (now : Path -> Z) (dirName file : string) : option Discovered :=
  let filePath := (dirName, file) in
  match readSessionMetadata JSON_parse_line fs (now filePath) filePath with
  | Some meta =>
    Some {| found_session :=
              {| s_id := basename file ".jsonl";
                 s_display := meta_display meta;
                 s_timestamp := meta_timestamp meta;
                 s_project := or_else (Some (meta_project meta)) dirName;
                 s_projectName :=
                   if nonEmptyString (meta_project meta)
                   then getProjectName (meta_project meta)
                   else projectDirToDisplayName dirName |};
            found_hasCwd := nonEmptyString (meta_project meta) |}
  | None =>
    match stat fs filePath with
    | Ok fileStat =>
      Some {| found_session :=
                {| s_id := basename file ".jsonl";
                   s_display := "Untitled conversation";
                   s_timestamp := st_mtimeMs fileStat;
                   s_project := dirName;
                   s_projectName := projectDirToDisplayName dirName |};
              found_hasCwd := false |}
    | Err _ => None
    end
  end.

(** [found] was collected for a log of the directory [dirName]. *)
Definition foundFrom (JSON_parse_line : list ascii -> option LogLine)
    (fs : FS) (now : Path -> Z) (dirName : string) (found : Discovered) : Prop :=
  exists file,
    listedLog fs dirName file
    /\ foundIn JSON_parse_line fs now dirName file = Some found.

(** The session the last loop of [getSessions] lists for [found]: the
    project may be the one another log of the directory gave. *)
Definition listedAs (s : Session) (found : Discovered) : Prop :=
  s_id s = s_id (found_session found)
  /\ s_display s = s_display (found_session found)
  /\ s_timestamp s = s_timestamp (found_session found)
  /\ (found_hasCwd found = true -> s = found_session found).

(** [s] is made of the character [c] only. *)
Fixpoint onlyChar (c : ascii) (s : string) : bool :=
  match s with
  | EmptyString => true
  | String x s' => Ascii.eqb x c && onlyChar c s'
  end.

(* ===================================================================== *)
(** ** Sample logs and file systems, used by the examples *)
(* ===================================================================== *)

(** JSON text written with ['] for the double quote *)
Definition json (s : string) : list ascii :=
  map (fun c => if Ascii.eqb c "'" then ascii_of_nat 34 else c) (list_ascii_of_string s).

Definition plainMessage (ty : string) : ConversationMessage :=
  {| type := ty; uuid := None; msg_timestamp := None; message := None; summary := None |}.

Definition sonnetUsage : TokenUsage :=
  {| input_tokens := 1000000; output_tokens := 0;
     cache_creation_input_tokens := None; cache_read_input_tokens := None |}.

Definition assistantWithUsage : ConversationMessage :=
  {| type := "assistant"; uuid := None; msg_timestamp := None;
     message := Some {| role := "assistant";
                        model := Some "claude-sonnet-4-20250514";
                        usage := Some sonnetUsage |};
     summary := None |}.

Definition userLine : string := "{'type':'user'}".
Definition assistantLine : string := "{'type':'assistant'}".
Definition summaryLine : string := "{'type':'summary'}".
Definition systemLine : string := "{'type':'system'}".
Definition usageLine : string :=
  "{'type':'assistant','message':{'role':'assistant','model':'claude-sonnet-4-20250514','usage':{'input_tokens':1000000,'output_tokens':0}}}".

(** What [JSON.parse] gives on the lines of the samples; white space
    around a line is skipped, every other text is refused. *)
Definition sampleLines : list (string * ConversationMessage) :=
  [ (string_of_list_ascii (json userLine), plainMessage "user");
    (string_of_list_ascii (json assistantLine), plainMessage "assistant");
    (string_of_list_ascii (json summaryLine), plainMessage "summary");
    (string_of_list_ascii (json systemLine), plainMessage "system");
    (string_of_list_ascii (json usageLine), assistantWithUsage) ].

Definition sampleParse (line : list ascii) : option ConversationMessage :=
  table_get (string_of_list_ascii (trim line)) sampleLines.

(** A project directory [-a-b] holding the given files *)
Definition sampleFS (files : list (string * File)) : FS :=
  {| projectsDir :=
       Some [ {| name := "-a-b"; isDirectory := true; entries := Some files |} ] |}.

Definition logFile (mtime : Z) (content : string) : File :=
  {| mtimeMs := mtime; data := json content; readable := true |}.

Definition NL : string := String LF EmptyString.


Definition s1Path : Path := ("-a-b", "s1.jsonl")%string.

(** A log of two lines, a user message and an assistant message without
    usage data *)
Definition twoLineFS : FS :=
  sampleFS [ ("s1.jsonl", logFile 0 (userLine +:+ NL +:+ assistantLine +:+ NL)) ].

(** Three logs of the project [/a/b], modified at 100, 200 and 300, next
    to a file that is no log *)
Definition threeLogsFS : FS :=
  sampleFS [ ("s1.jsonl", logFile 100 (userLine +:+ NL));
             ("notes.txt", logFile 195 "");
             ("s2.jsonl", logFile 200 (userLine +:+ NL));
             ("s3.jsonl", logFile 300 (userLine +:+ NL)) ].

(** A history entry of the project [/a/b] without session id *)
Definition legacyEntry (t : Z) : HistoryEntry :=
  {| h_display := "hello"; h_timestamp := t; h_project := "/a/b"; h_sessionId := None |}.

(** Three sessions of the project [/a/b]: two on 1970-01-01, one of them
    with usage data, and one on 1970-01-02 with usage data. *)
Definition usageFS : FS :=
  sampleFS [ ("s1.jsonl", logFile 0 (userLine +:+ NL +:+ usageLine +:+ NL));
             ("s2.jsonl", logFile 0 (userLine +:+ NL +:+ assistantLine +:+ NL));
             ("s3.jsonl", logFile 0 (usageLine +:+ NL +:+ usageLine +:+ NL)) ].

Definition sampleSession (sessionId : string) (t : Z) : Session :=
  {| s_id := sessionId; s_display := "hello"; s_timestamp := t;
     s_project := "/a/b"; s_projectName := "b" |}.

Definition usageSessions : list Session :=
  [ sampleSession "s3" 90000000; sampleSession "s2" 3600000; sampleSession "s1" 0 ].



(** A log with a summary line before a user message *)
Definition summaryFS : FS :=
  sampleFS [ ("s1.jsonl", logFile 0 (summaryLine +:+ NL +:+ userLine +:+ NL)) ].

(** A log whose summary line comes last *)
Definition summaryLastFS : FS :=
  sampleFS [ ("s1.jsonl",
              logFile 0 (userLine +:+ NL +:+ assistantLine +:+ NL +:+ summaryLine +:+ NL)) ].

(** A log without user or assistant message *)
Definition systemOnlyFS : FS :=
  sampleFS [ ("s1.jsonl", logFile 0 (systemLine +:+ NL +:+ summaryLine +:+ NL)) ].

(** Proves that a line of a sample log is a good line. *)
Ltac sample_parsed := right; eexists; vm_compute; reflexivity.

(** Lines of a history log: an entry that names its session, a second
    entry of the same session, and an entry without session id *)
Definition historyLine1 : string :=
  "{'display':'fix the bug','timestamp':5000,'project':'/a/b','sessionId':'s1'}".
Definition historyLine2 : string :=
  "{'display':'and the tests','timestamp':6000,'project':'/a/b','sessionId':'s1'}".
Definition historyLine3 : string :=
  "{'display':'hello','timestamp':190,'project':'/a/b'}".

Definition sampleHistoryLines : list (string * HistoryEntry) :=
  [ (string_of_list_ascii (json historyLine1),
     {| h_display := "fix the bug"; h_timestamp := 5000; h_project := "/a/b";
        h_sessionId := Some "s1" |});
    (string_of_list_ascii (json historyLine2),
     {| h_display := "and the tests"; h_timestamp := 6000; h_project := "/a/b";
        h_sessionId := Some "s1" |});
    (string_of_list_ascii (json historyLine3), legacyEntry 190) ].

Definition sampleHistoryParse (line : list ascii) : option HistoryEntry :=
  table_get (string_of_list_ascii (trim line)) sampleHistoryLines.

(** A user line with text, working directory and timestamp *)
Definition promptLine : string :=
  "{'type':'user','cwd':'/a/b','timestamp':'1970-01-01T00:00:07.000Z','message':{'role':'user','content':'hello'}}".

Definition bareLine (ty : string) : LogLine :=
  {| line_type := ty; line_content := None; line_timestamp := None; line_cwd := None |}.

(** What [readSessionMetadata] reads of the lines of the samples *)
Definition sampleLogLines : list (string * LogLine) :=
  [ (string_of_list_ascii (json userLine), bareLine "user");
    (string_of_list_ascii (json assistantLine), bareLine "assistant");
    (string_of_list_ascii (json summaryLine), bareLine "summary");
    (string_of_list_ascii (json systemLine), bareLine "system");
    (string_of_list_ascii (json promptLine),
     {| line_type := "user"; line_content := Some (TextContent "hello");
        line_timestamp := Some 7000; line_cwd := Some "/a/b" |}) ].

Definition sampleLineParse (line : list ascii) : option LogLine :=
  table_get (string_of_list_ascii (trim line)) sampleLogLines.

(** The project [/a/b] with the log of a session of the history, a log
    with a prompt, a log without one, and a file that is no log *)
Definition discoveryFS : FS :=
  sampleFS [ ("s1.jsonl", logFile 100 (userLine +:+ NL));
             ("s2.jsonl", logFile 200 (summaryLine +:+ NL +:+ promptLine +:+ NL));
             ("notes.txt", logFile 250 "");
             ("s3.jsonl", logFile 300 (userLine +:+ NL +:+ assistantLine +:+ NL)) ].

Definition sampleHistoryFile : Result (list ascii) :=
  Ok (json (historyLine1 +:+ NL +:+ historyLine2 +:+ NL)).

Definition noCaches : Caches := {| historyCache := None; sessionCache := None |}.

(** The clock stands at 9000 while the logs are read. *)
Definition sampleNow (filePath : Path) : Z := 9000.

(** No timestamp of the samples is taken for a date. *)
Definition noDates (s : string) : option Z := None.

(** The second and third of the sessions, by tokens *)
Definition pageOptions : ListOptions :=
  {| lo_limit := Some 2; lo_offset := Some 1; lo_sortBy := Some "tokens";
     lo_project := None |}.


(** A log of two lines that end with CR LF *)
Definition crlfFS : FS :=
  sampleFS [ ("s1.jsonl",
              {| mtimeMs := 0;
                 data := unlinesCRLF [json userLine; json assistantLine];
                 readable := true |}) ].

(* ===================================================================== *)
(** * Properties *)
(* ===================================================================== *)

(** ** Pricing *)

Lemma perMillion_million : (perMillion 1000000 == 1)%Q.
Proof. reflexivity. Qed.

Lemma perMillion_zero : (perMillion 0 == 0)%Q.
Proof. reflexivity. Qed.

Lemma cache_cost_default (n : option Z) (a b : Q) :
  (match n with
   | Some v => if v =? 0 then 0 else perMillion v * a * b
   | None => 0
   end == perMillion (count_or_zero n) * a * b)%Q.
Proof.
  destruct n as [v|]; simpl.
  - destruct (Z.eqb_spec v 0) as [->|_]; [|reflexivity].
    rewrite perMillion_zero. ring.
  - rewrite perMillion_zero. ring.
Qed.

(** C6. The cost of a usage record is the sum of four components under the
    pricing resolved for the model: input and output tokens per million at
    the input and output rates, cache-creation and cache-read tokens per
    million at the input rate times the write and read multipliers, an absent
    cache field counting as zero.  With one million input tokens, no output
    tokens and no cache tokens, under a pricing whose input rate is 3, the
    cost is exactly 3. *)
Theorem calculateCost_components (u : TokenUsage) (mdl : option string) :
  let pricing := getModelPricing mdl in
  (calculateCost u mdl ==
     perMillion (input_tokens u) * inputPerMillion pricing
     + perMillion (output_tokens u) * outputPerMillion pricing
     + perMillion (count_or_zero (cache_creation_input_tokens u))
       * inputPerMillion pricing * cacheWriteMultiplier pricing
     + perMillion (count_or_zero (cache_read_input_tokens u))
       * inputPerMillion pricing * cacheReadMultiplier pricing)%Q
  /\ ((inputPerMillion pricing == 3)%Q ->
      input_tokens u = 1000000 ->
      output_tokens u = 0 ->
      count_or_zero (cache_creation_input_tokens u) = 0 ->
      count_or_zero (cache_read_input_tokens u) = 0 ->
      (calculateCost u mdl == 3)%Q).
Proof.
  intros pricing.
  assert (Hsum :
    (calculateCost u mdl ==
       perMillion (input_tokens u) * inputPerMillion pricing
       + perMillion (output_tokens u) * outputPerMillion pricing
       + perMillion (count_or_zero (cache_creation_input_tokens u))
         * inputPerMillion pricing * cacheWriteMultiplier pricing
       + perMillion (count_or_zero (cache_read_input_tokens u))
         * inputPerMillion pricing * cacheReadMultiplier pricing)%Q).
  { unfold calculateCost. fold pricing.
    rewrite !cache_cost_default. reflexivity. }
  split; [exact Hsum|].
  intros Hin Hi Ho Hcw Hcr.
  rewrite Hsum, Hi, Ho, Hcw, Hcr, Hin.
  rewrite perMillion_million, perMillion_zero. ring.
Qed.

Lemma calculateCost_components_witness :
  (calculateCost sonnetUsage (Some "claude-sonnet-4-20250514") == 3)%Q.
Proof.
  apply (proj2 (calculateCost_components sonnetUsage (Some "claude-sonnet-4-20250514")));
    reflexivity.
Defined.

Example calculateCost_default_million :
  (calculateCost sonnetUsage None == 3)%Q
  /\ (calculateCost sonnetUsage (Some "claude-sonnet-4-20250514") == 3)%Q
  /\ (calculateCost sonnetUsage (Some "claude-opus-4-5-20251101") == 5)%Q.
Proof. repeat split; reflexivity. Qed.

(** ** The file index *)

Lemma findSessionFile_cases (fs : FS) (sessionId : string) (idx : gmap string Path) :
  (exists p, findSessionFile fs sessionId idx = (Ok (Some p), <[ sessionId := p ]> idx))
  \/ (findSessionFile fs sessionId idx = (Ok None, idx) /\ idx !! sessionId = None).
Proof.
  unfold findSessionFile.
  destruct (idx !! sessionId) as [p|] eqn:Hidx.
  - left. exists p. by rewrite insert_id.
  - destruct (readdir_projects fs) as [ds|e]; [|by right].
    destruct (List.find _ _) as [[p|]|]; [left; by exists p | by right | by right].
Qed.


Lemma findSessionFile_none_again (fs : FS) (sessionId : string)
    (idx idx' : gmap string Path) :
  findSessionFile fs sessionId idx = (Ok None, idx') ->
  idx' = idx.
Proof.
  intros H.
  destruct (findSessionFile_cases fs sessionId idx) as [[q Hq]|[Hq _]];
    rewrite Hq in H; [discriminate|]. by injection H.
Qed.

(** ** The two read modes, case by case *)

Section ReadModes.

Variable JSON_parse : list ascii -> option ConversationMessage.

Lemma getConversation_unresolved fs sessionId idx idx' :
  findSessionFile fs sessionId idx = (Ok None, idx') ->
  getConversation JSON_parse fs sessionId idx = (Ok [], idx').
Proof. intros H. unfold getConversation, bind. by rewrite H. Qed.

Lemma getConversation_resolved fs sessionId idx idx' p :
  findSessionFile fs sessionId idx = (Ok (Some p), idx') ->
  getConversation JSON_parse fs sessionId idx =
    (Ok (match readFile fs p with
         | Ok content => parseConversation JSON_parse content
         | Err _ => []
         end), idx').
Proof.
  intros H. unfold getConversation, bind. rewrite H.
  unfold try_catch, bind, lift, ret. by destruct (readFile fs p).
Qed.

(** [getConversation] never rejects. *)
Lemma getConversation_total fs sessionId idx :
  exists msgs idx', getConversation JSON_parse fs sessionId idx = (Ok msgs, idx').
Proof.
  destruct (findSessionFile_cases fs sessionId idx) as [[p Hp]|[Hn _]].
  - rewrite (getConversation_resolved _ _ _ _ _ Hp). eauto.
  - rewrite (getConversation_unresolved _ _ _ _ Hn). eauto.
Qed.

Lemma getConversationStream_unresolved fs sessionId fromOffset idx idx' :
  findSessionFile fs sessionId idx = (Ok None, idx') ->
  getConversationStream JSON_parse fs sessionId fromOffset idx =
    (Ok {| messages := []; nextOffset := 0 |}, idx').
Proof. intros H. unfold getConversationStream, bind. by rewrite H. Qed.

Lemma getConversationStream_resolved fs sessionId fromOffset idx idx' p :
  findSessionFile fs sessionId idx = (Ok (Some p), idx') ->
  getConversationStream JSON_parse fs sessionId fromOffset idx =
    (Ok (tailReadResult JSON_parse fromOffset (stat fs p) (readFrom fs p fromOffset)), idx').
Proof.
  intros H. unfold getConversationStream, bind at 1. rewrite H.
  unfold try_catch, bind, lift, ret, tailReadResult.
  destruct (stat fs p) as [s|e]; [|done].
  destruct (fromOffset >=? size s); [done|].
  destruct (readFrom fs p fromOffset) as [t|e]; [|done].
  by destruct (consumeLines JSON_parse (readline t) [] 0).
Qed.




End ReadModes.

(** ** Offsets of the incremental tail read *)

Section Offsets.

Variable JSON_parse : list ascii -> option ConversationMessage.



End Offsets.


(** ** Failed reads *)

Section FailedReads.

Variable JSON_parse : list ascii -> option ConversationMessage.



End FailedReads.



(** ** Usage of one session *)

Section SessionUsageProperties.

Variable JSON_parse : list ascii -> option ConversationMessage.

(** Messages without usage data leave the token totals, the cost and the
    reported model as they are. *)
Lemma sessionUsageStep_no_usage acc msg :
  assistantUsage msg = None ->
  let acc' := sessionUsageStep acc msg in
  su_totalInputTokens acc' = su_totalInputTokens acc
  /\ su_totalOutputTokens acc' = su_totalOutputTokens acc
  /\ su_cacheCreationTokens acc' = su_cacheCreationTokens acc
  /\ su_cacheReadTokens acc' = su_cacheReadTokens acc
  /\ su_estimatedCost acc' = su_estimatedCost acc
  /\ su_model acc' = su_model acc.
Proof.
  intros H. unfold sessionUsageStep. rewrite H.
  by destruct (isUserOrAssistant msg).
Qed.

Lemma sessionUsage_fold_no_usage msgs :
  forall acc,
    (forall m, In m msgs -> assistantUsage m = None) ->
    let acc' := fold_left sessionUsageStep msgs acc in
    su_totalInputTokens acc' = su_totalInputTokens acc
    /\ su_totalOutputTokens acc' = su_totalOutputTokens acc
    /\ su_cacheCreationTokens acc' = su_cacheCreationTokens acc
    /\ su_cacheReadTokens acc' = su_cacheReadTokens acc
    /\ su_estimatedCost acc' = su_estimatedCost acc
    /\ su_model acc' = su_model acc.
Proof.
  induction msgs as [|m rest IH]; intros acc Hno; simpl; [done|].
  destruct (sessionUsageStep_no_usage acc m) as (H1 & H2 & H3 & H4 & H5 & H6).
  { apply Hno. by left. }
  destruct (IH (sessionUsageStep acc m)) as (I1 & I2 & I3 & I4 & I5 & I6).
  { intros m' Hm'. apply Hno. by right. }
  simpl in *. repeat split; congruence.
Qed.

(** C10. [getSessionUsage] answers [null] exactly when the full read of the
    session is empty.  When the read holds a message it answers with a
    record, and if no message of the read carries usage data the record's
    token totals and cost are zero and its model is "Unknown". *)
Theorem getSessionUsage_null_iff_empty fs sessions sessionId (idx : gmap string Path) :
  exists msgs,
    fst (getConversation JSON_parse fs sessionId idx) = Ok msgs
    /\ (fst (getSessionUsage JSON_parse fs sessions sessionId idx) = Ok None
        <-> msgs = [])
    /\ (msgs <> [] ->
        exists u,
          fst (getSessionUsage JSON_parse fs sessions sessionId idx) = Ok (Some u)
          /\ ((forall m, In m msgs -> assistantUsage m = None) ->
              su_totalInputTokens u = 0
              /\ su_totalOutputTokens u = 0
              /\ su_cacheCreationTokens u = 0
              /\ su_cacheReadTokens u = 0
              /\ su_estimatedCost u = 0%Q
              /\ su_model u = "Unknown"%string)).
Proof.
  destruct (getConversation_total JSON_parse fs sessionId idx) as (msgs & idx' & Hc).
  exists msgs. split; [by rewrite Hc|].
  unfold getSessionUsage, bind. rewrite Hc.
  destruct msgs as [|m rest]; simpl.
  - split; [done|]. intros H. by destruct H.
  - split; [split; discriminate|]. intros _.
    eexists. split; [reflexivity|].
    intros Hno.
    apply (sessionUsage_fold_no_usage (m :: rest) (initialSessionUsage sessions sessionId) Hno).
Qed.

(** When the full read is empty: the session is unknown, its file cannot
    be read, or no line of the file parses to a user, assistant or summary
    message. *)
Lemma addLine_nil_inv msgs line :
  addLine JSON_parse msgs line = [] ->
  msgs = []
  /\ match JSON_parse line with
     | Some msg => isUserOrAssistant msg = false /\ isSummary msg = false
     | None => True
     end.
Proof.
  unfold addLine. destruct (JSON_parse line) as [msg|]; [|done].
  destruct (isUserOrAssistant msg).
  - intros H. by destruct msgs.
  - destruct (isSummary msg); [discriminate|done].
Qed.

Lemma fold_addLine_nil_inv lines :
  forall msgs,
    fold_left (addLine JSON_parse) lines msgs = [] ->
    msgs = []
    /\ forall line msg, In line lines -> JSON_parse line = Some msg ->
         isUserOrAssistant msg = false /\ isSummary msg = false.
Proof.
  induction lines as [|l rest IH]; intros msgs H; simpl in *.
  - split; [done|]. intros ? ? [].
  - apply IH in H as [H1 H2]. apply addLine_nil_inv in H1 as [H1 H3].
    split; [done|]. intros line msg [<-|Hin] Hp.
    + by rewrite Hp in H3.
    + eauto.
Qed.

Lemma getConversation_empty_inv fs sessionId (idx : gmap string Path) :
  fst (getConversation JSON_parse fs sessionId idx) = Ok [] ->
  fst (findSessionFile fs sessionId idx) = Ok None
  \/ (exists p, fst (findSessionFile fs sessionId idx) = Ok (Some p)
        /\ ((exists e, readFile fs p = Err e)
            \/ exists content,
                 readFile fs p = Ok content
                 /\ forall line msg,
                      In line (List.filter nonEmpty (split_LF (trim content))) ->
                      JSON_parse line = Some msg ->
                      isUserOrAssistant msg = false /\ isSummary msg = false)).
Proof.
  destruct (findSessionFile_cases fs sessionId idx) as [[p Hp]|[Hn _]].
  - rewrite (getConversation_resolved JSON_parse _ _ _ _ _ Hp), Hp. simpl.
    intros H. right. exists p. split; [done|].
    destruct (readFile fs p) as [content|e]; [|left; eauto].
    right. exists content. split; [done|].
    injection H as H. by apply fold_addLine_nil_inv in H as [_ H].
  - rewrite Hn. by left.
Qed.

End SessionUsageProperties.

Lemma getSessionUsage_null_iff_empty_witness :
  exists u,
    fst (getSessionUsage sampleParse twoLineFS [] "s1" ∅) = Ok (Some u)
    /\ su_messageCount u = 2
    /\ su_totalInputTokens u = 0
    /\ su_estimatedCost u = 0%Q
    /\ su_model u = "Unknown"%string.
Proof.
  destruct (getSessionUsage_null_iff_empty sampleParse twoLineFS [] "s1" ∅)
    as (msgs & Hm & _ & Hsome).
  vm_compute in Hm. injection Hm as <-.
  destruct Hsome as (u & Hu & Hzero); [discriminate|].
  exists u. split; [exact Hu|].
  destruct Hzero as (H1 & _ & _ & _ & H5 & H6).
  { intros m [<-|[<-|[]]]; reflexivity. }
  split; [|by repeat split].
  vm_compute in Hu. injection Hu as <-. reflexivity.
Defined.

(** ** The request coalescer *)

Lemma initialCoalescer_inv : coalescerInv initialCoalescer.
Proof.
  unfold coalescerInv, initialCoalescer; simpl.
  repeat split; intros *; try set_solver; try (rewrite lookup_empty; done).
Qed.

Lemma lookup_snoc_inv {A : Type} (l : list A) (x y : A) (p : nat) :
  (l ++ [x]) !! p = Some y ->
  (p < length l)%nat /\ l !! p = Some y \/ p = length l /\ y = x.
Proof.
  intros H. destruct (decide (p < length l)%nat) as [Hlt|Hge].
  - left. split; [done|]. by rewrite lookup_app_l in H.
  - right. rewrite lookup_app_r in H by lia.
    destruct (p - length l)%nat as [|k] eqn:Hk; simpl in H; [|done].
    split; [lia|congruence].
Qed.

Lemma dedupe_fresh_inv (sessionId : string) (c : Coalescer) :
  coalescerInv c ->
  pendingRequests c !! conversationKey sessionId = None ->
  coalescerInv
    {| pendingRequests := <[ conversationKey sessionId := length (started c) ]> (pendingRequests c);
       started := started c ++ [ {| computation := FullRead sessionId;
                                    dedupeKey := Some (conversationKey sessionId) |} ];
       settled := settled c |}.
Proof.
  intros (I0 & I1 & I2 & I3) Hnone. unfold coalescerInv; simpl.
  split; [|split; [|split]].
  - intros p Hp. rewrite length_app. simpl. apply I0 in Hp. lia.
  - intros key p Hp.
    destruct (decide (conversationKey sessionId = key)) as [<-|Hne].
    + rewrite lookup_insert_eq in Hp. injection Hp as <-. split.
      * eexists. split; [|].
        -- rewrite lookup_app_r by lia. rewrite Nat.sub_diag. reflexivity.
        -- reflexivity.
      * intros Hs. apply I0 in Hs. lia.
    + rewrite lookup_insert_ne in Hp by done.
      destruct (I1 key p Hp) as [(l & Hl & Hk) Hs]. split; [|done].
      exists l. split; [|done]. rewrite lookup_app_l; [done|].
      by apply lookup_lt_Some in Hl.
  - intros p l key Hl Hk Hs.
    apply lookup_snoc_inv in Hl as [[_ Hl]|[-> ->]].
    + pose proof (I2 p l key Hl Hk Hs) as Hp.
      rewrite lookup_insert_ne; [done|]. intros <-. congruence.
    + simpl in Hk. injection Hk as <-. apply lookup_insert_eq.
  - intros p l Hl.
    apply lookup_snoc_inv in Hl as [[_ Hl]|[-> ->]]; [by apply (I3 p)|done].
Qed.

Lemma callGetConversation_inv sessionId c :
  coalescerInv c -> coalescerInv (snd (callGetConversation sessionId c)).
Proof.
  intros Hinv. unfold callGetConversation, dedupe.
  destruct (pendingRequests c !! conversationKey sessionId) eqn:Hp; simpl; [done|].
  by apply dedupe_fresh_inv.
Qed.

Lemma callGetConversationStream_inv sessionId fromOffset c :
  coalescerInv c -> coalescerInv (snd (callGetConversationStream sessionId fromOffset c)).
Proof.
  intros (I0 & I1 & I2 & I3).
  unfold callGetConversationStream, launch, coalescerInv; simpl.
  split; [|split; [|split]].
  - intros p Hp. rewrite length_app. simpl. apply I0 in Hp. lia.
  - intros key p Hp. destruct (I1 key p Hp) as [(l & Hl & Hk) Hs]. split; [|done].
    exists l. split; [|done]. rewrite lookup_app_l; [done|].
    by apply lookup_lt_Some in Hl.
  - intros p l key Hl Hk Hs.
    apply lookup_snoc_inv in Hl as [[_ Hl]|[-> ->]]; [by eapply I2|done].
  - intros p l Hl.
    apply lookup_snoc_inv in Hl as [[_ Hl]|[-> ->]]; [by apply (I3 p)|done].
Qed.

Lemma settle_inv promise c :
  coalescerInv c -> coalescerInv (settle promise c).
Proof.
  intros (I0 & I1 & I2 & I3). unfold settle.
  destruct (started c !! promise) as [l|] eqn:Hl; [|done].
  case_bool_decide as Hs; [done|].
  unfold coalescerInv; simpl. split; [|split; [|split]].
  - intros p Hp. apply elem_of_union in Hp as [Hp|Hp]; [|by apply I0].
    apply elem_of_singleton in Hp as ->. by apply lookup_lt_Some in Hl.
  - intros key p Hp.
    assert (Hold : pendingRequests c !! key = Some p
                   /\ dedupeKey l <> Some key).
    { destruct (dedupeKey l) as [k|] eqn:Hk; [|done].
      destruct (decide (k = key)) as [->|Hne].
      - by rewrite lookup_delete_eq in Hp.
      - rewrite lookup_delete_ne in Hp by done. split; [done|congruence]. }
    destruct Hold as [Hold Hkey].
    destruct (I1 key p Hold) as [(l' & Hl' & Hk') Hs']. split; [by eauto|].
    intros Hin. apply elem_of_union in Hin as [Hin|Hin]; [|done].
    apply elem_of_singleton in Hin as ->. congruence.
  - intros p l' key Hl' Hk' Hs'.
    assert (p <> promise) as Hne.
    { intros ->. apply Hs'. apply elem_of_union_l. by apply elem_of_singleton. }
    assert (p ∉ settled c) as Hs''.
    { intros Hin. apply Hs'. by apply elem_of_union_r. }
    pose proof (I2 p l' key Hl' Hk' Hs'') as Hp.
    destruct (dedupeKey l) as [k|] eqn:Hk; [|done].
    rewrite lookup_delete_ne; [done|]. intros ->.
    pose proof (I2 promise l key Hl Hk Hs). congruence.
  - done.
Qed.

Lemma step_inv c e : coalescerInv c -> coalescerInv (step c e).
Proof.
  destruct e; simpl;
    [apply callGetConversation_inv | apply callGetConversationStream_inv | apply settle_inv].
Qed.

Lemma run_inv events : forall c, coalescerInv c -> coalescerInv (run events c).
Proof.
  induction events as [|e rest IH]; intros c Hc; [done|].
  apply IH. by apply step_inv.
Qed.

Lemma reachable_inv c : reachable c -> coalescerInv c.
Proof. intros [events ->]. apply run_inv, initialCoalescer_inv. Qed.

(** A pending entry stays until its own promise settles. *)
Lemma step_keeps_pending c e key p :
  coalescerInv c ->
  pendingRequests c !! key = Some p ->
  e <> Settle p ->
  pendingRequests (step c e) !! key = Some p.
Proof.
  intros (I0 & I1 & I2 & I3) Hp Hne. destruct e as [s|s off|q]; simpl.
  - unfold callGetConversation, dedupe.
    destruct (pendingRequests c !! conversationKey s) eqn:Hs; simpl; [done|].
    rewrite lookup_insert_ne; [done|]. intros <-. congruence.
  - done.
  - unfold settle. destruct (started c !! q) as [l|] eqn:Hl; [|done].
    case_bool_decide as Hs; [done|]. simpl.
    destruct (dedupeKey l) as [k|] eqn:Hk; [|done].
    rewrite lookup_delete_ne; [done|]. intros ->.
    pose proof (I2 q l key Hl Hk Hs). congruence.
Qed.

Lemma run_keeps_pending events key p :
  forall c,
    coalescerInv c ->
    pendingRequests c !! key = Some p ->
    ~ In (Settle p) events ->
    pendingRequests (run events c) !! key = Some p.
Proof.
  induction events as [|e rest IH]; intros c Hinv Hp Hno; [done|].
  simpl. apply IH.
  - by apply step_inv.
  - apply step_keeps_pending; [done..|]. intros ->. apply Hno. by left.
  - intros Hin. apply Hno. by right.
Qed.

Lemma callGetConversation_pending sessionId c :
  pendingRequests (snd (callGetConversation sessionId c)) !! conversationKey sessionId
  = Some (fst (callGetConversation sessionId c)).
Proof.
  unfold callGetConversation, dedupe.
  destruct (pendingRequests c !! conversationKey sessionId) eqn:Hp; simpl; [done|].
  apply lookup_insert_eq.
Qed.

Lemma conversationKey_inj s1 s2 : conversationKey s1 = conversationKey s2 -> s1 = s2.
Proof. unfold conversationKey, String.app. congruence. Qed.

Lemma filter_seq_none (f : nat -> bool) (n : nat) :
  forall a,
    (forall q, (a <= q < a + n)%nat -> f q = false) ->
    List.filter f (seq a n) = [].
Proof.
  induction n as [|n IH]; intros a Hf; [done|].
  simpl. rewrite Hf by lia. apply IH. intros q Hq. apply Hf. lia.
Qed.

Lemma filter_seq_unique (f : nat -> bool) (p n : nat) :
  forall a,
    (a <= p < a + n)%nat ->
    f p = true ->
    (forall q, (a <= q < a + n)%nat -> f q = true -> q = p) ->
    List.filter f (seq a n) = [p].
Proof.
  induction n as [|n IH]; intros a Hp Hfp Huniq; [lia|].
  simpl. destruct (decide (a = p)) as [->|Hne].
  - rewrite Hfp. f_equal. apply filter_seq_none.
    intros q Hq. destruct (f q) eqn:Hfq; [|done].
    apply Huniq in Hfq; lia.
  - destruct (f a) eqn:Hfa.
    + apply Huniq in Hfa; [done|lia].
    + apply IH; [lia|done|]. intros q Hq. apply Huniq. lia.
Qed.

(** The full reads of a session in flight are the pending entry of its key. *)
Lemma inFlight_pending sessionId c p :
  coalescerInv c ->
  pendingRequests c !! conversationKey sessionId = Some p ->
  inFlight (isFullReadOf sessionId) c = [p].
Proof.
  intros (I0 & I1 & I2 & I3) Hp. unfold inFlight.
  destruct (I1 _ _ Hp) as [(l & Hl & Hk) Hs].
  apply filter_seq_unique.
  - apply lookup_lt_Some in Hl. lia.
  - rewrite Hl. rewrite (I3 p l Hl) in Hk.
    destruct (computation l) as [s|s off]; [|done].
    assert (s = sessionId) as -> by (apply conversationKey_inj; congruence).
    simpl. rewrite String.eqb_refl. by rewrite bool_decide_eq_false_2.
  - intros q _ Hq. destruct (started c !! q) as [l'|] eqn:Hl'; [|done].
    apply andb_true_iff in Hq as [Hfn Hs'].
    apply negb_true_iff, bool_decide_eq_false in Hs'.
    pose proof (I3 q l' Hl') as Hk'.
    destruct (computation l') as [s|s off]; [|done].
    simpl in Hfn. apply String.eqb_eq in Hfn as ->.
    pose proof (I2 q l' _ Hl' Hk' Hs'). congruence.
Qed.

Lemma inFlight_not_pending sessionId c :
  coalescerInv c ->
  pendingRequests c !! conversationKey sessionId = None ->
  inFlight (isFullReadOf sessionId) c = [].
Proof.
  intros (I0 & I1 & I2 & I3) Hp. unfold inFlight.
  apply filter_seq_none. intros q _.
  destruct (started c !! q) as [l'|] eqn:Hl'; [|done].
  destruct (isFullReadOf sessionId (computation l')) eqn:Hfn; [|done].
  simpl. apply negb_false_iff, bool_decide_eq_true.
  destruct (decide (q ∈ settled c)) as [|Hs']; [done|].
  pose proof (I3 q l' Hl') as Hk'.
  destruct (computation l') as [s|s off]; [|done].
  simpl in Hfn. apply String.eqb_eq in Hfn as ->.
  pose proof (I2 q l' _ Hl' Hk' Hs'). congruence.
Qed.

Lemma settle_removes_pending sessionId c p :
  coalescerInv c ->
  pendingRequests c !! conversationKey sessionId = Some p ->
  pendingRequests (settle p c) !! conversationKey sessionId = None
  /\ length (started (settle p c)) = length (started c)
  /\ (p < length (started c))%nat.
Proof.
  intros (I0 & I1 & I2 & I3) Hp.
  destruct (I1 _ _ Hp) as [(l & Hl & Hk) Hs].
  unfold settle. rewrite Hl. rewrite bool_decide_eq_false_2 by done. simpl.
  rewrite Hk. split; [apply lookup_delete_eq|]. split; [done|].
  by apply lookup_lt_Some in Hl.
Qed.

(** C9, for the full read.  While the promise of a call of
    [getConversation] has not settled, every call for the same session gets
    that promise and launches nothing: one full read of the session is in
    flight.  When the promise settles, with success or failure, its entry is
    removed, and the next call launches a new read under a new promise. *)
Theorem getConversation_coalesced (sessionId : string) (c : Coalescer)
    (events : list Event) :
  reachable c ->
  let promise := fst (callGetConversation sessionId c) in
  let c' := run events (snd (callGetConversation sessionId c)) in
  ~ In (Settle promise) events ->
  callGetConversation sessionId c' = (promise, c')
  /\ inFlight (isFullReadOf sessionId) c' = [promise]
  /\ pendingRequests (settle promise c') !! conversationKey sessionId = None
  /\ inFlight (isFullReadOf sessionId) (settle promise c') = []
  /\ fst (callGetConversation sessionId (settle promise c')) <> promise
  /\ inFlight (isFullReadOf sessionId)
       (snd (callGetConversation sessionId (settle promise c')))
     = [fst (callGetConversation sessionId (settle promise c'))].
Proof.
  intros Hreach promise c' Hno.
  assert (Hinv' : coalescerInv c').
  { apply run_inv, callGetConversation_inv, reachable_inv, Hreach. }
  assert (Hp : pendingRequests c' !! conversationKey sessionId = Some promise).
  { apply run_keeps_pending; [|apply callGetConversation_pending|done].
    apply callGetConversation_inv, reachable_inv, Hreach. }
  destruct (settle_removes_pending _ _ _ Hinv' Hp) as (Hgone & Hlen & Hlt).
  pose proof (settle_inv promise c' Hinv') as Hinv2.
  split; [|split; [|split; [|split; [|split]]]].
  - unfold callGetConversation, dedupe. by rewrite Hp.
  - by apply inFlight_pending.
  - exact Hgone.
  - by apply inFlight_not_pending.
  - unfold callGetConversation, dedupe. rewrite Hgone. simpl. lia.
  - apply inFlight_pending; [by apply callGetConversation_inv|].
    apply callGetConversation_pending.
Qed.

Lemma getConversation_coalesced_witness :
  let c := run [CallGetConversationStream "s2" 0] initialCoalescer in
  let events := [CallGetConversation "s2"; CallGetConversation "s1"; Settle 0%nat] in
  let c' := run events (snd (callGetConversation "s1" c)) in
  callGetConversation "s1" c' = (1%nat, c')
  /\ inFlight (isFullReadOf "s1") c' = [1%nat]
  /\ pendingRequests (settle 1%nat c') !! conversationKey "s1" = None
  /\ inFlight (isFullReadOf "s1") (settle 1%nat c') = []
  /\ fst (callGetConversation "s1" (settle 1%nat c')) <> 1%nat
  /\ inFlight (isFullReadOf "s1") (snd (callGetConversation "s1" (settle 1%nat c')))
     = [fst (callGetConversation "s1" (settle 1%nat c'))].
Proof.
  intros c events c'.
  apply (getConversation_coalesced "s1" c events).
  - by exists [CallGetConversationStream "s2" 0].
  - simpl. intros [H|[H|[H|[]]]]; discriminate.
Defined.

(** The tail read is not coalesced: two calls for the same session and
    offset, the second made before the first has settled, get two promises
    and have two reads of the file in flight; nothing is registered as
    pending. *)
Lemma tail_reads_not_coalesced :
  let first := callGetConversationStream "s1" 0 initialCoalescer in
  let second := callGetConversationStream "s1" 0 (snd first) in
  fst first = 0%nat
  /\ fst second = 1%nat
  /\ inFlight (isTailReadOf "s1") (snd second) = [0%nat; 1%nat]
  /\ pendingRequests (snd second) = ∅.
Proof. repeat split. Qed.

(** ** The history reconciler *)

Lemma encodeProjectPath_get (path : string) :
  forall n, String.get n (encodeProjectPath path) = option_map encode_char (String.get n path).
Proof.
  induction path as [|c rest IH]; intros n; simpl; [done|].
  destruct n as [|n]; [done|]. apply IH.
Qed.

Example encodeProjectPath_a_b :
  encodeProjectPath "/a/b" = "-a-b"%string
  /\ encodeProjectPath "/Users/me/my.app" = "-Users-me-my-app"%string.
Proof. split; reflexivity. Qed.

Lemma fold_left_over_map {A B C : Type} (f : A -> B -> A) (g : C -> B) (l : list C) :
  forall a, fold_left f (map g l) a = fold_left (fun a x => f a (g x)) l a.
Proof. induction l as [|x l IH]; intros a; simpl; [done|apply IH]. Qed.

Lemma endsWith_jsonl_nonempty (file : string) :
  endsWith file ".jsonl" = true -> truthy (Some file) = true.
Proof. by destruct file. Qed.

(** The loop over [fileStats] keeps the first file among those closest to
    the timestamp. *)
Lemma closest_fold (timestamp : Z) (rest : list (string * File)) :
  forall before f after,
    (forall g, In g before ->
       Z.abs (mtimeMs (snd f) - timestamp) < Z.abs (mtimeMs (snd g) - timestamp)) ->
    (forall g, In g after ->
       Z.abs (mtimeMs (snd f) - timestamp) <= Z.abs (mtimeMs (snd g) - timestamp)) ->
    exists before' f' after',
      before ++ f :: after ++ rest = before' ++ f' :: after'
      /\ fold_left (fun st g => closestStep timestamp st (fst g, mtimeMs (snd g))) rest
           (Some (fst f), Some (Z.abs (mtimeMs (snd f) - timestamp)))
         = (Some (fst f'), Some (Z.abs (mtimeMs (snd f') - timestamp)))
      /\ (forall g, In g before' ->
            Z.abs (mtimeMs (snd f') - timestamp) < Z.abs (mtimeMs (snd g) - timestamp))
      /\ (forall g, In g after' ->
            Z.abs (mtimeMs (snd f') - timestamp) <= Z.abs (mtimeMs (snd g) - timestamp)).
Proof.
  induction rest as [|y rest IH]; intros before f after Hb Ha.
  - exists before, f, after. by rewrite app_nil_r.
  - cbn [fold_left]. unfold closestStep at 2. cbn [snd closer].
    destruct (Z.ltb_spec (Z.abs (mtimeMs (snd y) - timestamp))
                         (Z.abs (mtimeMs (snd f) - timestamp))) as [Hlt|Hge].
    + destruct (IH (before ++ f :: after) y []) as (b' & f' & a' & Heq & Hfold & Hb' & Ha').
      * intros g Hg. apply in_app_or in Hg as [Hg|[<-|Hg]].
        -- specialize (Hb g Hg). lia.
        -- lia.
        -- specialize (Ha g Hg). lia.
      * intros g [].
      * exists b', f', a'. split; [|done].
        rewrite <- Heq. rewrite <- app_assoc. reflexivity.
    + destruct (IH before f (after ++ [y])) as (b' & f' & a' & Heq & Hfold & Hb' & Ha').
      * done.
      * intros g Hg. apply in_app_or in Hg as [Hg|[<-|[]]]; [by apply Ha|lia].
      * exists b', f', a'. split; [|done].
        rewrite <- Heq. by rewrite <- app_assoc.
Qed.

Lemma findSessionByTimestamp_no_candidate fs dir timestamp :
  match readdir_entries fs dir with
  | Err _ => True
  | Ok files => List.filter (fun f => endsWith (fst f) ".jsonl") files = []
  end ->
  findSessionByTimestamp fs dir timestamp = None.
Proof.
  unfold findSessionByTimestamp.
  destruct (readdir_entries fs dir) as [files|e]; [|done]. by intros ->.
Qed.

Lemma addHistoryEntry_unresolved fs acc entry :
  truthy (h_sessionId entry) = false ->
  findSessionByTimestamp fs (encodeProjectPath (h_project entry)) (h_timestamp entry) = None ->
  addHistoryEntry fs acc entry = acc.
Proof. intros Hid Hnone. unfold addHistoryEntry. by rewrite Hid, Hnone. Qed.

(** C7. A history entry without session id is looked up in the directory
    named by its project path with every [/] and [.] replaced by [-].  Of the
    [.jsonl] files listed there it resolves to one whose modification time is
    closest to the entry's timestamp (the first such in listing order), and
    the session takes that file's name as its id.  If the directory cannot be
    listed or holds no [.jsonl] file, the entry adds no session. *)
Theorem history_entry_reconciled (fs : FS) (acc : SessionAcc) (entry : HistoryEntry) :
  truthy (h_sessionId entry) = false ->
  let dir := encodeProjectPath (h_project entry) in
  let T := h_timestamp entry in
  let dist (f : string * File) := Z.abs (mtimeMs (snd f) - T) in
  (forall n, String.get n dir = option_map encode_char (String.get n (h_project entry)))
  /\ match readdir_entries fs dir with
     | Err _ =>
       findSessionByTimestamp fs dir T = None /\ addHistoryEntry fs acc entry = acc
     | Ok files =>
       match List.filter (fun f => endsWith (fst f) ".jsonl") files with
       | [] =>
         findSessionByTimestamp fs dir T = None /\ addHistoryEntry fs acc entry = acc
       | (_ :: _) as jsonlFiles =>
         exists before f after,
           jsonlFiles = before ++ f :: after
           /\ (forall g, In g before -> dist f < dist g)
           /\ (forall g, In g after -> dist f <= dist g)
           /\ findSessionByTimestamp fs dir T = Some (basename (fst f) ".jsonl")
           /\ (basename (fst f) ".jsonl" <> EmptyString ->
               basename (fst f) ".jsonl" ∉ acc_seenIds acc ->
               acc_sessions (addHistoryEntry fs acc entry) =
                 acc_sessions acc ++
                 [ {| s_id := basename (fst f) ".jsonl";
                      s_display := h_display entry;
                      s_timestamp := h_timestamp entry;
                      s_project := h_project entry;
                      s_projectName := getProjectName (h_project entry) |} ])
       end
     end.
Proof.
  intros Hid dir T dist. split; [apply encodeProjectPath_get|].
  destruct (readdir_entries fs dir) as [files|e] eqn:Hdir.
  - destruct (List.filter _ files) as [|f0 rest] eqn:Hjsonl.
    + assert (Hnone : findSessionByTimestamp fs dir T = None).
      { apply findSessionByTimestamp_no_candidate. by rewrite Hdir. }
      split; [done|]. by apply addHistoryEntry_unresolved.
    + destruct (closest_fold T rest [] f0 []) as (before & f & after & Heq & Hfold & Hb & Ha);
        [intros g []..|].
      exists before, f, after. simpl in Heq.
      assert (Hfind : findSessionByTimestamp fs dir T = Some (basename (fst f) ".jsonl")).
      { unfold findSessionByTimestamp. rewrite Hdir, Hjsonl.
        rewrite fold_left_over_map. cbn [fold_left]. unfold closestStep at 2. cbn [snd closer].
        fold T. rewrite Hfold.
        assert (Hin : In f (f0 :: rest)) by (rewrite Heq; apply in_elt).
        rewrite <- Hjsonl in Hin. apply filter_In in Hin as [_ Hends].
        by rewrite (endsWith_jsonl_nonempty _ Hends). }
      split; [exact Heq|]. split; [exact Hb|]. split; [exact Ha|]. split; [exact Hfind|].
      intros Hne Hseen. unfold addHistoryEntry. rewrite Hid. fold dir T. rewrite Hfind.
      destruct (basename (fst f) ".jsonl") as [|c s] eqn:Hb'; [done|].
      simpl. by rewrite bool_decide_eq_false_2.
  - assert (Hnone : findSessionByTimestamp fs dir T = None).
    { apply findSessionByTimestamp_no_candidate. by rewrite Hdir. }
    split; [done|]. by apply addHistoryEntry_unresolved.
Qed.

Lemma history_entry_reconciled_witness :
  findSessionByTimestamp threeLogsFS "-a-b" 190 = Some "s2"%string
  /\ map s_id (acc_sessions (historySessions threeLogsFS [legacyEntry 190])) = ["s2"%string]
  /\ exists f,
       fst f = "s2.jsonl"%string
       /\ forall g, In g [ ("s1.jsonl", logFile 100 (userLine +:+ NL));
                           ("s2.jsonl", logFile 200 (userLine +:+ NL));
                           ("s3.jsonl", logFile 300 (userLine +:+ NL)) ]%string ->
                    Z.abs (mtimeMs (snd f) - 190) <= Z.abs (mtimeMs (snd g) - 190).
Proof.
  pose proof (history_entry_reconciled threeLogsFS emptySessionAcc (legacyEntry 190) eq_refl)
    as [_ H].
  cbn in H. destruct H as (before & f & after & Heq & Hb & Ha & Hfind & Hpush).
  split; [reflexivity|]. split; [reflexivity|].
  exists f.
  assert (Hname : Some (basename (fst f) ".jsonl") = Some "s2"%string)
    by (rewrite <- Hfind; reflexivity).
  injection Hname as Hname.
  assert (Hf : fst f = "s2.jsonl"%string /\ mtimeMs (snd f) = 200).
  { assert (Hin : In f (before ++ f :: after)) by apply in_elt.
    rewrite <- Heq in Hin.
    destruct Hin as [<-|[<-|[<-|[]]]]; vm_compute in Hname; try discriminate.
    by split. }
  destruct Hf as [Hf1 Hf2]. split; [exact Hf1|].
  intros g [<-|[<-|[<-|[]]]]; rewrite Hf2; simpl; lia.
Defined.

(** ** Additivity of the usage summary *)

Lemma sumZ_app {A : Type} (f : A -> Z) (l1 l2 : list A) :
  sumZ f (l1 ++ l2) = sumZ f l1 + sumZ f l2.
Proof. induction l1 as [|x l1 IH]; simpl; [done|]. rewrite IH. lia. Qed.









(** The message loop leaves the grand totals, other than the cache totals,
    as they are. *)
Lemma summaryMessageStep_totals st msg :
  let st' := summaryMessageStep st msg in
  totalInputTokens (fst st') = totalInputTokens (fst st)
  /\ totalOutputTokens (fst st') = totalOutputTokens (fst st)
  /\ totalEstimatedCost (fst st') = totalEstimatedCost (fst st)
  /\ sessionCount (fst st') = sessionCount (fst st).
Proof.
  destruct st as [acc t]. unfold summaryMessageStep.
  destruct (assistantUsage msg) as [[u mdl]|]; by destruct (isUserOrAssistant msg).
Qed.

Lemma summaryMessages_totals msgs :
  forall st,
    let st' := fold_left summaryMessageStep msgs st in
    totalInputTokens (fst st') = totalInputTokens (fst st)
    /\ totalOutputTokens (fst st') = totalOutputTokens (fst st)
    /\ totalEstimatedCost (fst st') = totalEstimatedCost (fst st)
    /\ sessionCount (fst st') = sessionCount (fst st).
Proof.
  induction msgs as [|m rest IH]; intros st; simpl; [done|].
  destruct (IH (summaryMessageStep st m)) as (I1 & I2 & I3 & I4).
  destruct (summaryMessageStep_totals st m) as (H1 & H2 & H3 & H4).
  simpl in *. repeat split; congruence.
Qed.


Section Additivity.

Variable JSON_parse : list ascii -> option ConversationMessage.



End Additivity.


(** ** The daily series *)


Section DailySeries.

Variable JSON_parse : list ascii -> option ConversationMessage.


End DailySeries.

(** C5, on the code.  [getDailyUsage(7)] over three sessions of 1970-01-01
    and 1970-01-02, called on 1970-01-02 at 02:00 UTC: the series has eight
    entries, from 1969-12-26 to the day of the call, the days without session
    filled with zeros. *)
Theorem getDailyUsage_7_gives_8_entries :
  exists l,
    fst (getDailyUsage sampleParse usageFS usageSessions 93600000 93600000 7 ∅) = Ok l
    /\ length l = 8%nat
    /\ map (fun b => (date b, inputTokens b, d_sessionCount b)) l =
       [ ("1969-12-26", 0, 0); ("1969-12-27", 0, 0); ("1969-12-28", 0, 0);
         ("1969-12-29", 0, 0); ("1969-12-30", 0, 0); ("1969-12-31", 0, 0);
         ("1970-01-01", 1000000, 2); ("1970-01-02", 2000000, 1) ]%string.
Proof. eexists. split; [vm_compute; reflexivity|]. split; reflexivity. Qed.

(** If the clock ticks between the two readings, the day of the call is
    left out: the same call has seven entries, the last one for the day
    before. *)
Example getDailyUsage_7_after_tick :
  exists l,
    fst (getDailyUsage sampleParse usageFS usageSessions 93600000 93600001 7 ∅) = Ok l
    /\ map (fun b => (date b, inputTokens b, d_sessionCount b)) l =
       [ ("1969-12-26", 0, 0); ("1969-12-27", 0, 0); ("1969-12-28", 0, 0);
         ("1969-12-29", 0, 0); ("1969-12-30", 0, 0); ("1969-12-31", 0, 0);
         ("1970-01-01", 1000000, 2) ]%string.
Proof. eexists. split; [vm_compute; reflexivity|]. reflexivity. Qed.

(** ** Lines of a log *)

Lemma trimStart_nil_iff (s : list ascii) :
  trimStart s = [] <-> forallb isWhiteSpace s = true.
Proof.
  induction s as [|c s IH]; simpl; [done|].
  destruct (isWhiteSpace c); simpl; [done|]. split; discriminate.
Qed.

Lemma trimStart_head (s : list ascii) c rest :
  trimStart s = c :: rest -> isWhiteSpace c = false.
Proof.
  induction s as [|x s IH]; simpl; [done|].
  destruct (isWhiteSpace x) eqn:Hx; [done|]. by intros [= <- _].
Qed.

Lemma forallb_rev {A : Type} (f : A -> bool) (l : list A) :
  forallb f (rev l) = forallb f l.
Proof.
  induction l as [|x l IH]; simpl; [done|].
  rewrite forallb_app, IH. simpl. destruct (f x), (forallb f l); done.
Qed.

(** A line is blank when all its characters are white space. *)
Lemma isBlank_spec (s : list ascii) : isBlank s = forallb isWhiteSpace s.
Proof.
  unfold isBlank, trim, trimEnd.
  destruct (trimStart s) as [|c rest] eqn:Hs.
  - symmetry. by apply trimStart_nil_iff.
  - assert (Hc : isWhiteSpace c = false) by (by eapply trimStart_head).
    assert (Hall : forallb isWhiteSpace s = false).
    { destruct (forallb isWhiteSpace s) eqn:Hall; [|done].
      apply trimStart_nil_iff in Hall. congruence. }
    rewrite Hall.
    destruct (trimStart (rev (c :: rest))) as [|y ys] eqn:Hr.
    + apply trimStart_nil_iff in Hr. rewrite forallb_rev in Hr. simpl in Hr.
      by rewrite Hc in Hr.
    + simpl. by destruct (rev ys).
Qed.

Lemma isBlank_nil : isBlank [] = true.
Proof. reflexivity. Qed.

Lemma isBlank_cons c s : isBlank (c :: s) = isWhiteSpace c && isBlank s.
Proof. by rewrite !isBlank_spec. Qed.

Lemma isBlank_rev s : isBlank (rev s) = isBlank s.
Proof. rewrite !isBlank_spec. apply forallb_rev. Qed.

Lemma split_LF_nonempty (s : list ascii) : split_LF s <> [].
Proof.
  destruct s as [|c s]; simpl; [done|].
  destruct (Ascii.eqb c LF); [done|]. by destruct (split_LF s).
Qed.

Lemma readline_nil_inv (s : list ascii) : readline s = [] -> s = [].
Proof.
  destruct s as [|c s]; simpl; [done|].
  destruct (Ascii.eqb c LF); [done|].
  destruct (Ascii.eqb c CR).
  - destruct s as [|c' s]; [done|]. by destruct (Ascii.eqb c' LF).
  - by destruct (readline s).
Qed.

Lemma oneLine_cons c l :
  oneLine (c :: l) <-> (Ascii.eqb c LF = false /\ Ascii.eqb c CR = false) /\ oneLine l.
Proof.
  unfold oneLine, isLineBreak. simpl.
  destruct (Ascii.eqb c LF), (Ascii.eqb c CR); simpl; intuition discriminate.
Qed.





(** ** The tail read at a malformed line *)

Section MalformedLine.

Variable JSON_parse : list ascii -> option ConversationMessage.

Lemma length_unlines_cons (l : list ascii) (lines : list (list ascii)) :
  Z.of_nat (length (unlines (l :: lines)))
  = Z.of_nat (length l) + 1 + Z.of_nat (length (unlines lines)).
Proof. unfold unlines. simpl. rewrite !length_app. simpl. lia. Qed.

Lemma lineMessages_cons_blank l lines :
  isBlank l = true ->
  lineMessages JSON_parse (l :: lines) = lineMessages JSON_parse lines.
Proof. intros H. unfold lineMessages. simpl. by rewrite H. Qed.

Lemma lineMessages_cons_parsed l lines msg :
  isBlank l = false -> JSON_parse l = Some msg ->
  lineMessages JSON_parse (l :: lines)
  = (if isUserOrAssistant msg then [msg] else []) ++ lineMessages JSON_parse lines.
Proof.
  intros Hb Hp. unfold lineMessages. simpl. rewrite Hb. simpl. rewrite Hp. simpl.
  by destruct (isUserOrAssistant msg).
Qed.

(** The loop consumes good lines: it pushes their messages and counts
    their bytes. *)
Lemma consumeLines_good (lines rest : list (list ascii)) :
  Forall (goodLine JSON_parse) lines ->
  forall msgs b,
    consumeLines JSON_parse (lines ++ rest) msgs b
    = consumeLines JSON_parse rest
        (msgs ++ lineMessages JSON_parse lines)
        (b + Z.of_nat (length (unlines lines))).
Proof.
  induction 1 as [|l lines Hl _ IH]; intros msgs b.
  - simpl. by rewrite app_nil_r, Z.add_0_r.
  - cbn [app consumeLines]. rewrite length_unlines_cons.
    destruct (isBlank l) eqn:Hb; cbn [negb].
    + rewrite IH, lineMessages_cons_blank by done. f_equal. lia.
    + destruct Hl as [Hl|[msg Hp]]; [congruence|]. rewrite Hp.
      rewrite IH, (lineMessages_cons_parsed _ _ _ Hb Hp).
      rewrite app_assoc. f_equal; [|lia].
      by destruct (isUserOrAssistant msg); [|rewrite app_nil_r].
Qed.


Lemma stat_of_file fs p f :
  lookup_file fs p = Ok f ->
  stat fs p = Ok {| size := Z.of_nat (length (data f)); st_mtimeMs := mtimeMs f |}.
Proof. intros H. unfold stat. by rewrite H. Qed.

Lemma readFrom_of_file fs p f start :
  lookup_file fs p = Ok f -> readable f = true -> 0 <= start ->
  readFrom fs p start = Ok (drop (Z.to_nat start) (data f)).
Proof.
  intros H Hr Hs. unfold readFrom, readFile. rewrite H. simpl. rewrite Hr. simpl.
  destruct (Z.ltb_spec start 0); [lia|done].
Qed.


End MalformedLine.


(** ** The full read against chained tail reads *)

Lemma omap_rev {A B : Type} (f : A -> option B) (l : list A) :
  omap f (rev l) = rev (omap f l).
Proof.
  induction l as [|x l IH]; simpl; [done|].
  rewrite omap_app, IH. simpl. destruct (f x); simpl; [done|apply app_nil_r].
Qed.

Lemma omap_map {A B C : Type} (f : B -> option C) (g : A -> B) (l : list A) :
  omap f (map g l) = omap (fun x => f (g x)) l.
Proof.
  induction l as [|x l IH]; simpl; [done|].
  destruct (f (g x)); [f_equal|]; exact IH.
Qed.

Lemma omap_ext_in {A B : Type} (f g : A -> option B) (l : list A) :
  (forall x, In x l -> f x = g x) -> omap f l = omap g l.
Proof.
  induction l as [|x l IH]; intros H; simpl; [done|].
  rewrite (H x) by (by left).
  assert (IH' : omap f l = omap g l) by (apply IH; intros y Hy; apply H; by right).
  destruct (g x); [f_equal|]; exact IH'.
Qed.

(** Dropping lines on which [f] gives nothing changes nothing. *)
Lemma omap_filter_keep {A B : Type} (f : A -> option B) (keep : A -> bool) (l : list A) :
  (forall x, keep x = false -> f x = None) ->
  omap f (List.filter keep l) = omap f l.
Proof.
  intros H. induction l as [|x l IH]; simpl; [done|].
  destruct (keep x) eqn:Hk; simpl.
  - destruct (f x); [f_equal|]; exact IH.
  - rewrite (H x Hk). exact IH.
Qed.

Lemma app_last_snoc (lines : list (list ascii)) (l : list ascii) (x : ascii) :
  app_last (lines ++ [l]) x = lines ++ [l ++ [x]].
Proof.
  induction lines as [|l' lines IH]; simpl; [done|].
  rewrite IH. by destruct (lines ++ [l]) eqn:H; [destruct lines|].
Qed.

(** [split("\n")] of a text with one more character *)
Lemma split_LF_snoc (s : list ascii) (x : ascii) :
  split_LF (s ++ [x])
  = if Ascii.eqb x LF then split_LF s ++ [[]] else app_last (split_LF s) x.
Proof.
  induction s as [|c s IH]; simpl.
  - by destruct (Ascii.eqb x LF).
  - rewrite IH. pose proof (split_LF_nonempty s).
    destruct (Ascii.eqb c LF), (Ascii.eqb x LF); simpl; try done;
      destruct (split_LF s) as [|l [|l' ls]]; simpl; done.
Qed.

(** The lines of the reversed text are the reversed lines, last first. *)
Lemma split_LF_rev (s : list ascii) :
  split_LF (rev s) = rev (map (@rev ascii) (split_LF s)).
Proof.
  induction s as [|c s IH]; simpl; [done|].
  rewrite split_LF_snoc, IH.
  destruct (Ascii.eqb c LF); simpl; [done|].
  pose proof (split_LF_nonempty s).
  destruct (split_LF s) as [|l ls]; [done|]. simpl.
  by rewrite app_last_snoc.
Qed.

Section TrimmedLines.

Context {B : Type}.
Variable f : list ascii -> option B.
Hypothesis f_blank : refusesBlank f.
Hypothesis f_trim : skipsWhiteSpace f.

Lemma goodLine_tail (c : ascii) (l : list ascii) :
  isWhiteSpace c = true -> goodLine f (c :: l) -> goodLine f l /\ f (c :: l) = f l.
Proof.
  intros Hc [Hb|[m Hm]].
  - rewrite isBlank_cons, Hc in Hb. simpl in Hb. split; [by left|].
    rewrite (f_blank l Hb). apply f_blank. by rewrite isBlank_cons, Hc.
  - assert (Hl : f l = Some m).
    { apply (f_trim [c] l [] m); [simpl; by rewrite Hc|done|]. by rewrite app_nil_r. }
    split; [right; by eexists|congruence].
Qed.

(** Trimming the start of the text leaves the parsed lines as they are. *)
Lemma trimStart_lines (s : list ascii) :
  Forall (goodLine f) (split_LF s) ->
  Forall (goodLine f) (split_LF (trimStart s))
  /\ omap f (split_LF (trimStart s)) = omap f (split_LF s).
Proof.
  induction s as [|c s IH]; intros Hgood; [done|].
  simpl. destruct (isWhiteSpace c) eqn:Hc; [|done].
  simpl in Hgood. destruct (Ascii.eqb c LF).
  - apply Forall_cons in Hgood as [_ Hgood].
    destruct (IH Hgood) as [IH1 IH2]. split; [done|].
    rewrite IH2. simpl. by rewrite (f_blank [] isBlank_nil).
  - pose proof (split_LF_nonempty s).
    destruct (split_LF s) as [|l ls] eqn:Hs; [done|].
    apply Forall_cons in Hgood as [Hl Hgood].
    destruct (goodLine_tail c l Hc Hl) as [Hl' Heq].
    destruct IH as [IH1 IH2]; [by constructor|]. split; [done|].
    rewrite IH2. simpl. by rewrite Heq.
Qed.

End TrimmedLines.

Section TrimmedLinesEnd.

Context {B : Type}.
Variable f : list ascii -> option B.
Hypothesis f_blank : refusesBlank f.
Hypothesis f_trim : skipsWhiteSpace f.

Lemma rev_refusesBlank : refusesBlank (fun l => f (rev l)).
Proof. intros l Hl. apply f_blank. by rewrite isBlank_rev. Qed.

Lemma rev_skipsWhiteSpace : skipsWhiteSpace (fun l => f (rev l)).
Proof.
  intros a s b m Ha Hb Hm. rewrite !rev_app_distr, <- app_assoc in Hm.
  apply (f_trim (rev b) (rev s) (rev a) m); [by rewrite forallb_rev..|done].
Qed.

Lemma goodLine_rev (l : list ascii) :
  goodLine f l -> goodLine (fun l => f (rev l)) (rev l).
Proof.
  intros [Hb|Hm]; [left; by rewrite isBlank_rev|right; by rewrite rev_involutive].
Qed.

Lemma goodLine_unrev (l : list ascii) :
  goodLine (fun l => f (rev l)) l -> goodLine f (rev l).
Proof. intros [Hb|Hm]; [left; by rewrite isBlank_rev|by right]. Qed.

Lemma omap_rev_lines (lines : list (list ascii)) :
  omap (fun l => f (rev l)) (rev (map (@rev ascii) lines)) = rev (omap f lines).
Proof.
  rewrite omap_rev, omap_map. f_equal. apply omap_ext_in.
  intros l _. by rewrite rev_involutive.
Qed.

(** Trimming the end of the text leaves the parsed lines as they are. *)
Lemma trimEnd_lines (s : list ascii) :
  Forall (goodLine f) (split_LF s) ->
  Forall (goodLine f) (split_LF (trimEnd s))
  /\ omap f (split_LF (trimEnd s)) = omap f (split_LF s).
Proof.
  intros Hgood. unfold trimEnd.
  destruct (trimStart_lines (fun l => f (rev l)) rev_refusesBlank rev_skipsWhiteSpace (rev s))
    as [H1 H2].
  { rewrite split_LF_rev. apply Forall_rev, Forall_map.
    eapply Forall_impl; [exact Hgood|]. intros l Hl. by apply goodLine_rev. }
  rewrite split_LF_rev. split.
  - apply Forall_rev, Forall_map. eapply Forall_impl; [exact H1|].
    intros l Hl. by apply goodLine_unrev.
  - rewrite split_LF_rev in H2. rewrite omap_rev_lines in H2.
    apply (f_equal (@rev B)) in H2. rewrite rev_involutive in H2.
    rewrite omap_rev, omap_map. rewrite <- H2. reflexivity.
Qed.

(** So does [trim]. *)
Lemma trim_lines (s : list ascii) :
  Forall (goodLine f) (split_LF s) ->
  omap f (split_LF (trim s)) = omap f (split_LF s).
Proof.
  intros Hgood. unfold trim.
  destruct (trimStart_lines f f_blank f_trim s Hgood) as [H1 H2].
  destruct (trimEnd_lines (trimStart s) H1) as [_ H3]. congruence.
Qed.

End TrimmedLinesEnd.

Lemma noCR_cons c s :
  noCR (c :: s) <-> Ascii.eqb c CR = false /\ noCR s.
Proof.
  unfold noCR. simpl. destruct (Ascii.eqb c CR); simpl; intuition discriminate.
Qed.

(** Without carriage returns, [readline] and [split("\n")] see the same
    lines, but for the empty piece [split] adds after a final line feed. *)
Lemma split_LF_readline (s : list ascii) :
  noCR s ->
  exists tl, split_LF s = readline s ++ tl /\ (tl = [] \/ tl = [[]]).
Proof.
  induction s as [|c s IH]; intros Hcr.
  - exists [[]]. by split; [|right].
  - apply noCR_cons in Hcr as [Hc Hcr]. destruct (IH Hcr) as (tl & Heq & Htl).
    simpl. rewrite Hc. destruct (Ascii.eqb c LF).
    + exists tl. by rewrite Heq.
    + destruct (readline s) as [|l ls] eqn:Hr.
      * apply readline_nil_inv in Hr as ->. exists []. simpl. by split; [|left].
      * exists tl. by rewrite Heq.
Qed.

(** Without carriage returns, the bytes the tail read counts for the lines
    of a text are all its bytes, and one more when the last line has no line
    feed. *)
Lemma length_readline (s : list ascii) :
  noCR s ->
  (length s <= length (unlines (readline s)) <= length s + 1)%nat.
Proof.
  induction s as [|c s IH]; intros Hcr; [simpl; lia|].
  apply noCR_cons in Hcr as [Hc Hcr]. specialize (IH Hcr).
  simpl. rewrite Hc. destruct (Ascii.eqb c LF).
  - unfold unlines in *. simpl. lia.
  - destruct (readline s) as [|l ls] eqn:Hr.
    + apply readline_nil_inv in Hr as ->. simpl. lia.
    + unfold unlines in *. simpl in *. lia.
Qed.

Lemma isSummary_not_userOrAssistant msg :
  isSummary msg = true -> isUserOrAssistant msg = false.
Proof.
  unfold isSummary, isUserOrAssistant. intros H.
  apply String.eqb_eq in H. by rewrite H.
Qed.

Section FullRead.

Variable JSON_parse : list ascii -> option ConversationMessage.

(** The user and assistant messages of the full read are those of the
    parsed lines, in order; summaries go to the front. *)
Lemma fold_addLine_userOrAssistant (lines : list (list ascii)) :
  forall msgs,
    List.filter isUserOrAssistant (fold_left (addLine JSON_parse) lines msgs)
    = List.filter isUserOrAssistant msgs
      ++ List.filter isUserOrAssistant (omap JSON_parse lines).
Proof.
  induction lines as [|l lines IH]; intros msgs; simpl.
  - by rewrite app_nil_r.
  - rewrite IH. unfold addLine. destruct (JSON_parse l) as [msg|]; [|done].
    simpl. destruct (isUserOrAssistant msg) eqn:Hua.
    + rewrite List.filter_app. simpl. rewrite Hua. by rewrite <- app_assoc.
    + destruct (isSummary msg); [|done]. simpl. by rewrite Hua.
Qed.

(** The full read holds user, assistant and summary messages only. *)
Lemma fold_addLine_kinds (lines : list (list ascii)) :
  forall msgs,
    Forall (fun m => isUserOrAssistant m || isSummary m = true) msgs ->
    Forall (fun m => isUserOrAssistant m || isSummary m = true)
           (fold_left (addLine JSON_parse) lines msgs).
Proof.
  induction lines as [|l lines IH]; intros msgs Hm; simpl; [done|].
  apply IH. unfold addLine. destruct (JSON_parse l) as [msg|]; [|done].
  destruct (isUserOrAssistant msg) eqn:Hua.
  - apply Forall_app. split; [done|]. constructor; [by rewrite Hua|constructor].
  - destruct (isSummary msg) eqn:Hs; [|done]. constructor; [by rewrite Hua, Hs|done].
Qed.

Hypothesis parse_blank : refusesBlank JSON_parse.
Hypothesis parse_trim : skipsWhiteSpace JSON_parse.

Lemma full_read_messages (content : list ascii) :
  wellFormedLog JSON_parse content ->
  List.filter isUserOrAssistant (parseConversation JSON_parse content)
  = lineMessages JSON_parse (readline content).
Proof.
  intros [Hcr Hgood]. unfold parseConversation, lineMessages.
  rewrite fold_addLine_userOrAssistant. simpl.
  destruct (split_LF_readline content Hcr) as (tl & Hsplit & Htl).
  assert (Hgood' : Forall (goodLine JSON_parse) (split_LF content)).
  { rewrite Hsplit. apply Forall_app. split; [done|].
    destruct Htl as [->| ->]; [constructor|]. constructor; [by left|constructor]. }
  rewrite (omap_filter_keep JSON_parse nonEmpty).
  2:{ intros [|c x] Hx; [|done]. by apply parse_blank. }
  rewrite (trim_lines JSON_parse parse_blank parse_trim content Hgood').
  rewrite (omap_filter_keep JSON_parse (fun l => negb (isBlank l))).
  2:{ intros x Hx. apply parse_blank. by apply negb_false_iff. }
  rewrite Hsplit, omap_app.
  destruct Htl as [->| ->]; simpl; [by rewrite app_nil_r|].
  by rewrite (parse_blank [] isBlank_nil), app_nil_r.
Qed.

(** A tail read from the start of a well-formed log reads all of it. *)
Lemma tail_read_whole_log fs p f :
  lookup_file fs p = Ok f ->
  readable f = true ->
  wellFormedLog JSON_parse (data f) ->
  tailReadResult JSON_parse 0 (stat fs p) (readFrom fs p 0)
  = {| messages := lineMessages JSON_parse (readline (data f));
       nextOffset := Z.of_nat (length (data f)) |}.
Proof.
  intros Hfile Hread [Hcr Hgood].
  rewrite (stat_of_file _ _ _ Hfile), (readFrom_of_file _ _ _ _ Hfile Hread) by lia.
  unfold tailReadResult. cbn [size]. change (Z.to_nat 0) with 0%nat. rewrite drop_0.
  destruct (Z.geb_spec 0 (Z.of_nat (length (data f)))) as [Hle|Hgt].
  - assert (Hnil : data f = []) by (destruct (data f); [done|simpl in Hle; lia]).
    by rewrite Hnil.
  - pose proof (consumeLines_good JSON_parse (readline (data f)) [] Hgood [] 0) as Hc.
    rewrite app_nil_r in Hc. rewrite Hc. cbn [consumeLines fst snd app].
    pose proof (length_readline (data f) Hcr).
    rewrite !Z.add_0_l.
    destruct (Z.gtb_spec (Z.of_nat (length (unlines (readline (data f)))))
                         (Z.of_nat (length (data f)))); f_equal; lia.
Qed.

End FullRead.

Lemma filter_all {A : Type} (f : A -> bool) (l : list A) :
  Forall (fun x => f x = true) l -> List.filter f l = l.
Proof. induction 1 as [|x l Hx _ IH]; simpl; [done|]. by rewrite Hx, IH. Qed.

Lemma concat_no_messages (n : nat) (o : Z) :
  concat (map messages (replicate n {| messages := []; nextOffset := o |})) = [].
Proof. induction n as [|n IH]; simpl; [done|exact IH]. Qed.

Section ChainedReads.

Variable JSON_parse : list ascii -> option ConversationMessage.

(** Reads that find nothing new, one after the other *)
Lemma tailReads_idle fs sessionId (idx : gmap string Path) p o :
  idx !! sessionId = Some p ->
  tailReadResult JSON_parse o (stat fs p) (readFrom fs p o)
  = {| messages := []; nextOffset := o |} ->
  forall n,
    tailReads JSON_parse (replicate n fs) sessionId o idx
    = replicate n {| messages := []; nextOffset := o |}.
Proof.
  intros Hidx Hidle.
  assert (Hfind : findSessionFile fs sessionId idx = (Ok (Some p), idx)).
  { unfold findSessionFile. by rewrite Hidx. }
  induction n as [|n IH]; [done|].
  cbn [replicate tailReads].
  rewrite (getConversationStream_resolved JSON_parse _ _ _ _ _ _ Hfind), Hidle.
  cbn [nextOffset]. by rewrite IH.
Qed.

Lemma tailReads_unresolved fs sessionId (idx : gmap string Path) :
  findSessionFile fs sessionId idx = (Ok None, idx) ->
  forall n,
    tailReads JSON_parse (replicate n fs) sessionId 0 idx
    = replicate n {| messages := []; nextOffset := 0 |}.
Proof.
  intros Hfind. induction n as [|n IH]; [done|].
  cbn [replicate tailReads].
  rewrite (getConversationStream_unresolved JSON_parse _ _ _ _ _ Hfind).
  cbn [nextOffset]. by rewrite IH.
Qed.

Lemma tailRead_idle_no_file fs p o e :
  lookup_file fs p = Err e ->
  tailReadResult JSON_parse o (stat fs p) (readFrom fs p o)
  = {| messages := []; nextOffset := o |}.
Proof. intros H. unfold stat. by rewrite H. Qed.

Lemma tailRead_idle_unreadable fs p f o :
  lookup_file fs p = Ok f -> readable f = false ->
  tailReadResult JSON_parse o (stat fs p) (readFrom fs p o)
  = {| messages := []; nextOffset := o |}.
Proof.
  intros H Hr. unfold stat, readFrom, readFile. rewrite H. simpl. rewrite Hr. simpl.
  by destruct (o >=? _).
Qed.

Lemma tailRead_idle_at_end fs p f :
  lookup_file fs p = Ok f ->
  tailReadResult JSON_parse (Z.of_nat (length (data f))) (stat fs p)
    (readFrom fs p (Z.of_nat (length (data f))))
  = {| messages := []; nextOffset := Z.of_nat (length (data f)) |}.
Proof.
  intros H. rewrite (stat_of_file _ _ _ H). unfold tailReadResult. cbn [size].
  destruct (Z.geb_spec (Z.of_nat (length (data f))) (Z.of_nat (length (data f)))); [done|lia].
Qed.

Hypothesis parse_blank : refusesBlank JSON_parse.
Hypothesis parse_trim : skipsWhiteSpace JSON_parse.

(** C1, as the code has it.  For a session whose log holds well-formed
    lines only, each ended by a line feed, the messages of a tail read from
    offset 0 and of any number of further reads, each from the offset the one
    before returned, are together the user and assistant messages of the full
    read, in the same order.  The full read has the summary messages besides,
    in front; when the log has none, the two are equal. *)
Theorem tail_reads_equal_full_read fs sessionId (idx : gmap string Path) (n : nat) :
  (forall p f,
     fst (findSessionFile fs sessionId idx) = Ok (Some p) ->
     lookup_file fs p = Ok f ->
     readable f = true ->
     wellFormedLog JSON_parse (data f)) ->
  let reads := tailReads JSON_parse (replicate (S n) fs) sessionId 0 idx in
  exists msgs,
    fst (getConversation JSON_parse fs sessionId idx) = Ok msgs
    /\ length reads = S n
    /\ concat (map messages reads) = List.filter isUserOrAssistant msgs
    /\ ((forall m, In m msgs -> isSummary m = false) ->
        concat (map messages reads) = msgs).
Proof.
  intros Hwf reads.
  assert (Hmain : exists msgs,
    fst (getConversation JSON_parse fs sessionId idx) = Ok msgs
    /\ Forall (fun m => isUserOrAssistant m || isSummary m = true) msgs
    /\ length reads = S n
    /\ concat (map messages reads) = List.filter isUserOrAssistant msgs).
  { unfold reads.
    destruct (findSessionFile_cases fs sessionId idx) as [[p Hp]|[Hn _]].
    - rewrite (getConversation_resolved JSON_parse _ _ _ _ _ Hp).
      cbn [replicate tailReads].
      rewrite (getConversationStream_resolved JSON_parse _ _ 0 _ _ _ Hp).
      assert (Hidx : (<[ sessionId := p ]> idx) !! sessionId = Some p)
        by apply lookup_insert_eq.
      destruct (lookup_file fs p) as [f|e] eqn:Hfile.
      + destruct (readable f) eqn:Hread.
        * assert (Hlog : wellFormedLog JSON_parse (data f)).
          { apply (Hwf p f); [by rewrite Hp|done..]. }
          rewrite (tail_read_whole_log JSON_parse _ _ _ Hfile Hread Hlog).
          cbn [nextOffset].
          rewrite (tailReads_idle _ _ _ _ _ Hidx
                     (tailRead_idle_at_end _ _ _ Hfile)).
          unfold readFile. rewrite Hfile. simpl. rewrite Hread.
          eexists. split; [reflexivity|]. split.
          { by apply fold_addLine_kinds. }
          split; [simpl; by rewrite length_replicate|].
          simpl. rewrite concat_no_messages, app_nil_r.
          symmetry. by apply full_read_messages.
        * rewrite (tailRead_idle_unreadable _ _ _ 0 Hfile Hread). cbn [nextOffset].
          rewrite (tailReads_idle _ _ _ _ _ Hidx
                     (tailRead_idle_unreadable _ _ _ 0 Hfile Hread)).
          unfold readFile. rewrite Hfile. simpl. rewrite Hread.
          exists []. split; [done|]. split; [done|].
          split; [simpl; by rewrite length_replicate|].
          simpl. by rewrite concat_no_messages.
      + rewrite (tailRead_idle_no_file _ _ 0 _ Hfile). cbn [nextOffset].
        rewrite (tailReads_idle _ _ _ _ _ Hidx (tailRead_idle_no_file _ _ 0 _ Hfile)).
        unfold readFile. rewrite Hfile.
        exists []. split; [done|]. split; [done|].
        split; [simpl; by rewrite length_replicate|].
        simpl. by rewrite concat_no_messages.
    - rewrite (getConversation_unresolved JSON_parse _ _ _ _ Hn).
      rewrite (tailReads_unresolved _ _ _ Hn).
      exists []. split; [done|]. split; [done|].
      split; [by rewrite length_replicate|].
      by rewrite concat_no_messages. }
  destruct Hmain as (msgs & Hfull & Hkinds & Hlen & Hcat).
  exists msgs. split; [done|]. split; [done|]. split; [done|].
  intros Hnosum. rewrite Hcat. apply filter_all.
  apply Forall_forall. intros m Hm.
  rewrite Forall_forall in Hkinds. specialize (Hkinds m Hm).
  rewrite (Hnosum m) in Hkinds; [by rewrite orb_false_r in Hkinds|].
  by apply list_elem_of_In.
Qed.

End ChainedReads.

(** ** The sample parser has the properties asked of [JSON.parse] *)

Lemma trimStart_app_ws (a s : list ascii) :
  forallb isWhiteSpace a = true -> trimStart (a ++ s) = trimStart s.
Proof.
  induction a as [|c a IH]; simpl; [done|].
  destruct (isWhiteSpace c); [|done]. exact IH.
Qed.

Lemma trimStart_app_text (s b : list ascii) :
  forallb isWhiteSpace s = false -> trimStart (s ++ b) = trimStart s ++ b.
Proof.
  induction s as [|c s IH]; simpl; [done|].
  destruct (isWhiteSpace c); [|done]. exact IH.
Qed.

Lemma trimEnd_app_ws (s b : list ascii) :
  forallb isWhiteSpace b = true -> trimEnd (s ++ b) = trimEnd s.
Proof.
  intros Hb. unfold trimEnd. rewrite rev_app_distr.
  rewrite trimStart_app_ws; [done|]. by rewrite forallb_rev.
Qed.

Lemma trim_ws (a s b : list ascii) :
  forallb isWhiteSpace a = true -> forallb isWhiteSpace b = true ->
  trim (a ++ s ++ b) = trim s.
Proof.
  intros Ha Hb. unfold trim. rewrite trimStart_app_ws by done.
  destruct (forallb isWhiteSpace s) eqn:Hs.
  - assert (H1 : trimStart (s ++ b) = []).
    { apply trimStart_nil_iff. by rewrite forallb_app, Hs, Hb. }
    assert (H2 : trimStart s = []) by (by apply trimStart_nil_iff).
    by rewrite H1, H2.
  - rewrite trimStart_app_text by done. by apply trimEnd_app_ws.
Qed.

Lemma sampleParse_refusesBlank : refusesBlank sampleParse.
Proof.
  intros l Hl. unfold sampleParse. unfold isBlank in Hl.
  by destruct (trim l).
Qed.

Lemma sampleParse_skipsWhiteSpace : skipsWhiteSpace sampleParse.
Proof.
  intros a s b m Ha Hb. unfold sampleParse. by rewrite trim_ws.
Qed.

Lemma tail_reads_equal_full_read_witness :
  let reads := tailReads sampleParse (replicate 3 usageFS) "s1" 0 ∅ in
  exists msgs,
    fst (getConversation sampleParse usageFS "s1" ∅) = Ok msgs
    /\ length reads = 3%nat
    /\ concat (map messages reads) = List.filter isUserOrAssistant msgs
    /\ ((forall m, In m msgs -> isSummary m = false) ->
        concat (map messages reads) = msgs).
Proof.
  apply (tail_reads_equal_full_read sampleParse
           sampleParse_refusesBlank sampleParse_skipsWhiteSpace
           usageFS "s1" ∅ 2).
  intros p f Hp Hf _.
  vm_compute in Hp. injection Hp as <-.
  vm_compute in Hf. injection Hf as <-.
  split; [reflexivity|]. unfold data. vm_compute (readline _).
  constructor; [sample_parsed|]. constructor; [sample_parsed|]. constructor.
Defined.

(** A summary line is in the full read and in no tail read: for the log
    of a summary and a user message, every line well-formed, the full read
    gives both messages and the chained tail reads give the user message
    only. *)
Lemma tail_reads_miss_summary :
  let reads := tailReads sampleParse [summaryFS; summaryFS] "s1" 0 ∅ in
  wellFormedLog sampleParse (json (summaryLine +:+ NL +:+ userLine +:+ NL))
  /\ fst (getConversation sampleParse summaryFS "s1" ∅)
     = Ok [plainMessage "summary"; plainMessage "user"]
  /\ map nextOffset reads = [35; 35]
  /\ concat (map messages reads) = [plainMessage "user"]
  /\ Ok (concat (map messages reads)) <> fst (getConversation sampleParse summaryFS "s1" ∅).
Proof.
  intros reads. split.
  { split; [reflexivity|]. vm_compute (readline _).
    constructor; [sample_parsed|]. constructor; [sample_parsed|]. constructor. }
  repeat split; try reflexivity.
  intros H. vm_compute in H. discriminate.
Qed.

(** ** Further properties of the read modes and the summary *)

Section FullReadShape.

Variable JSON_parse : list ascii -> option ConversationMessage.

Lemma fold_addLine_shape (lines : list (list ascii)) :
  forall msgs,
    fold_left (addLine JSON_parse) lines msgs
    = rev (List.filter isSummary (omap JSON_parse lines))
      ++ msgs ++ List.filter isUserOrAssistant (omap JSON_parse lines).
Proof.
  induction lines as [|l lines IH]; intros msgs; simpl.
  - by rewrite app_nil_r.
  - rewrite IH. unfold addLine. destruct (JSON_parse l) as [msg|]; [|done].
    simpl. destruct (isUserOrAssistant msg) eqn:Hua.
    + destruct (isSummary msg) eqn:Hs.
      { apply isSummary_not_userOrAssistant in Hs. congruence. }
      by rewrite <- app_assoc.
    + destruct (isSummary msg) eqn:Hs; [|done].
      simpl. by rewrite <- !app_assoc.
Qed.

(** The full read of a log that can be read is the summary messages of its
    lines, last first, then the user and assistant messages in file order: a
    summary precedes the transcript wherever its line stands. *)
Theorem full_read_summary_first fs sessionId (idx : gmap string Path) p content :
  fst (findSessionFile fs sessionId idx) = Ok (Some p) ->
  readFile fs p = Ok content ->
  let parsed := omap JSON_parse (List.filter nonEmpty (split_LF (trim content))) in
  fst (getConversation JSON_parse fs sessionId idx)
  = Ok (rev (List.filter isSummary parsed) ++ List.filter isUserOrAssistant parsed).
Proof.
  intros Hfind Hread parsed.
  destruct (findSessionFile_cases fs sessionId idx) as [[q Hq]|[Hq _]];
    rewrite Hq in Hfind; simpl in Hfind; [|discriminate].
  injection Hfind as ->.
  rewrite (getConversation_resolved JSON_parse _ _ _ _ _ Hq), Hread. simpl.
  unfold parseConversation. by rewrite fold_addLine_shape.
Qed.


End FullReadShape.

Lemma full_read_summary_first_witness :
  fst (getConversation sampleParse summaryLastFS "s1" ∅)
  = Ok [plainMessage "summary"; plainMessage "user"; plainMessage "assistant"].
Proof.
  rewrite (full_read_summary_first sampleParse summaryLastFS "s1" ∅ s1Path
             (json (userLine +:+ NL +:+ assistantLine +:+ NL +:+ summaryLine +:+ NL)));
    reflexivity.
Defined.

Lemma assistantUsage_userOrAssistant msg :
  isUserOrAssistant msg = false -> assistantUsage msg = None.
Proof.
  unfold isUserOrAssistant, assistantUsage. intros H.
  apply orb_false_iff in H as [_ H]. by rewrite H.
Qed.

Lemma summaryMessages_no_message msgs :
  forall st,
    Forall (fun m => isUserOrAssistant m = false) msgs ->
    fold_left summaryMessageStep msgs st = st.
Proof.
  induction msgs as [|m rest IH]; intros st Hno; [done|].
  apply Forall_cons in Hno as [Hm Hno]. simpl.
  assert (Hstep : summaryMessageStep st m = st).
  { destruct st as [acc t]. unfold summaryMessageStep.
    by rewrite (assistantUsage_userOrAssistant m Hm), Hm. }
  rewrite Hstep. by apply IH.
Qed.

(** A session without user or assistant message leaves the summary and the
    date map as they are, and its timestamp is not looked at. *)
Theorem empty_session_not_counted st session msgs :
  Forall (fun m => isUserOrAssistant m = false) msgs ->
  summarySessionStep st session msgs = Ok st.
Proof.
  intros Hno. destruct st as [acc byDateMap]. unfold summarySessionStep.
  by rewrite (summaryMessages_no_message msgs _ Hno).
Qed.

Lemma empty_session_not_counted_witness :
  exists msgs,
    fst (getConversation sampleParse systemOnlyFS "s1" ∅) = Ok msgs
    /\ msgs = [plainMessage "summary"]
    /\ summarySessionStep (emptySummary, []) (sampleSession "s1" (maxTime + 1)) msgs
       = Ok (emptySummary, []).
Proof.
  eexists. split; [vm_compute; reflexivity|]. split; [reflexivity|].
  apply empty_session_not_counted. by repeat constructor.
Defined.



Section SummaryOrder.

Variable JSON_parse : list ascii -> option ConversationMessage.


End SummaryOrder.


(** ** When the usage functions return *)





Section UsageReturns.

Variable JSON_parse : list ascii -> option ConversationMessage.




End UsageReturns.


(* ===================================================================== *)
(** ** The list of sessions *)
(* ===================================================================== *)

(** *** Sorting *)

Lemma insertSorted_perm {A : Type} (before : A -> A -> bool) (a : A) (l : list A) :
  Permutation (a :: l) (insertSorted before a l).
Proof.
  induction l as [|x l IH]; simpl; [done|].
  destruct (before a x); [done|].
  rewrite <- IH. apply perm_swap.
Qed.

Lemma stableSort_perm {A : Type} (before : A -> A -> bool) (l : list A) :
  Permutation l (stableSort before l).
Proof.
  induction l as [|x l IH]; simpl; [done|].
  rewrite <- insertSorted_perm. by constructor.
Qed.

Lemma insertSorted_sorted {A : Type} (before : A -> A -> bool) (a : A) (l : list A) :
  (forall x y, before x y = false -> before y x = true) ->
  Sorted (fun x y => before x y = true) l ->
  Sorted (fun x y => before x y = true) (insertSorted before a l).
Proof.
  intros Htotal. induction 1 as [|x l Hl IH Hhd]; simpl.
  - by repeat constructor.
  - destruct (before a x) eqn:Hax.
    + constructor; [by constructor|by constructor].
    + constructor; [exact IH|].
      destruct l as [|y l]; simpl.
      * constructor. by apply Htotal.
      * destruct (before a y); constructor; [by apply Htotal|].
        by inversion Hhd.
Qed.

Lemma stableSort_sorted {A : Type} (before : A -> A -> bool) (l : list A) :
  (forall x y, before x y = false -> before y x = true) ->
  Sorted (fun x y => before x y = true) (stableSort before l).
Proof.
  intros Htotal. induction l as [|x l IH]; simpl; [constructor|].
  by apply insertSorted_sorted.
Qed.

(** *** Listings *)

Lemma elem_of_list_map {A B : Type} (f : A -> B) (l : list A) (y : B) :
  y ∈ map f l <-> exists x, y = f x /\ x ∈ l.
Proof. change (map f l) with (f <$> l). apply list_elem_of_fmap. Qed.

Lemma elem_of_filter_list {A : Type} (f : A -> bool) (l : list A) (x : A) :
  x ∈ List.filter f l <-> x ∈ l /\ f x = true.
Proof. rewrite !list_elem_of_In. apply filter_In. Qed.

Lemma find_dirent_Some dirName ds d :
  find_dirent dirName ds = Some d -> d ∈ ds /\ name d = dirName.
Proof.
  induction ds as [|x ds IH]; simpl; [done|].
  destruct (String.eqb (name x) dirName) eqn:Hx.
  - intros [= ->]. split; [left|by apply String.eqb_eq].
  - intros H. destruct (IH H). split; [by right|done].
Qed.

Lemma readdir_Ok fs dirName files :
  readdir fs dirName = Ok files ->
  exists projectDirs dir es,
    readdir_projects fs = Ok projectDirs
    /\ dir ∈ List.filter isDirectory projectDirs
    /\ name dir = dirName
    /\ readdir_entries fs dirName = Ok es
    /\ files = map fst es.
Proof.
  unfold readdir, readdir_entries, readdir_projects.
  destruct (projectsDir fs) as [ds|]; [|done].
  destruct (find_dirent dirName ds) as [d|] eqn:Hd; [|done].
  destruct (isDirectory d) eqn:Hdir; [|done].
  destruct (entries d) as [es|]; [|done]. simpl. intros [= <-].
  apply find_dirent_Some in Hd as [Hin Hname].
  exists ds, d, es. repeat split; try done.
  by apply elem_of_filter_list.
Qed.

Lemma table_get_listed {V : Type} (key : string) (es : list (string * V)) :
  key ∈ map fst es -> is_Some (table_get key es).
Proof.
  induction es as [|[k v] es IH]; simpl.
  - intros H. by apply elem_of_nil in H.
  - intros H. destruct (String.eqb k key) eqn:Hk; [by eexists|].
    apply elem_of_cons in H as [->|H]; [|by apply IH].
    by rewrite String.eqb_refl in Hk.
Qed.

Lemma stat_listed fs dirName files file :
  readdir fs dirName = Ok files -> file ∈ files ->
  exists fileStat, stat fs (dirName, file) = Ok fileStat.
Proof.
  intros Hdir Hfile.
  destruct (readdir_Ok _ _ _ Hdir) as (_ & _ & es & _ & _ & _ & Hes & ->).
  unfold stat, lookup_file. simpl. rewrite Hes. simpl.
  destruct (table_get_listed file es Hfile) as [f ->]. simpl. by eexists.
Qed.

(** *** The ids seen by the loops of [getSessions] *)

Lemma idsSeen_push (sessions : list Session) (seenIds : gset string) (s : Session) :
  idsSeen (sessions, seenIds) ->
  s_id s ∉ seenIds ->
  idsSeen (sessions ++ [s], {[ s_id s ]} ∪ seenIds).
Proof.
  intros [Hnd Hseen] Hnew. split; simpl in *.
  - rewrite map_app. apply NoDup_app. split; [done|]. split.
    + intros x Hx Hx'. apply list_elem_of_singleton in Hx'. subst x.
      by apply Hnew, Hseen.
    + apply NoDup_singleton.
  - intros id. rewrite map_app, elem_of_app, elem_of_union, elem_of_singleton.
    simpl. rewrite list_elem_of_singleton, Hseen. tauto.
Qed.

Lemma addHistoryEntry_cases (fs : FS) (acc : SessionAcc) (entry : HistoryEntry) :
  addHistoryEntry fs acc entry =
  match entrySessionId fs entry with
  | Some sessionId =>
    if negb (nonEmptyString sessionId) || bool_decide (sessionId ∈ acc_seenIds acc)
    then acc
    else {| acc_sessions := acc_sessions acc ++ [entrySession sessionId entry];
            acc_seenIds := {[ sessionId ]} ∪ acc_seenIds acc;
            acc_historySessionIds := <[ sessionId := entry ]> (acc_historySessionIds acc) |}
  | None => acc
  end.
Proof. reflexivity. Qed.

Lemma addHistoryEntry_idsSeen (fs : FS) (acc : SessionAcc) (entry : HistoryEntry) :
  idsSeen (acc_sessions acc, acc_seenIds acc) ->
  idsSeen (acc_sessions (addHistoryEntry fs acc entry),
           acc_seenIds (addHistoryEntry fs acc entry)).
Proof.
  intros Hinv. rewrite addHistoryEntry_cases.
  destruct (entrySessionId fs entry) as [id|]; [|done].
  destruct (negb (nonEmptyString id)); simpl; [done|].
  case_bool_decide as Hid; [done|]. simpl.
  by apply (idsSeen_push _ _ (entrySession id entry)).
Qed.

Lemma fold_addHistoryEntry_idsSeen (fs : FS) (entries : list HistoryEntry) :
  forall acc,
    idsSeen (acc_sessions acc, acc_seenIds acc) ->
    idsSeen (acc_sessions (fold_left (addHistoryEntry fs) entries acc),
             acc_seenIds (fold_left (addHistoryEntry fs) entries acc)).
Proof.
  induction entries as [|e rest IH]; intros acc Hacc; simpl; [done|].
  by apply IH, addHistoryEntry_idsSeen.
Qed.

Lemma historySessions_idsSeen (fs : FS) (entries : list HistoryEntry) :
  idsSeen (acc_sessions (historySessions fs entries),
           acc_seenIds (historySessions fs entries)).
Proof.
  apply fold_addHistoryEntry_idsSeen. split; simpl; [constructor|].
  intros id. set_solver.
Qed.

Lemma resolveSession_idsSeen resolvedPath st found :
  idsSeen st -> idsSeen (resolveSession resolvedPath st found).
Proof.
  destruct st as [sessions seenIds]. intros Hinv. unfold resolveSession.
  case_bool_decide as Hid; [done|].
  by apply idsSeen_push.
Qed.

Lemma resolveDirectory_idsSeen dirToProjectPath st entry :
  idsSeen st -> idsSeen (resolveDirectory dirToProjectPath st entry).
Proof.
  unfold resolveDirectory. generalize (dirToProjectPath !! entry.1).
  intros resolvedPath. revert st.
  induction (snd entry) as [|found rest IH]; intros st Hst; simpl; [done|].
  by apply IH, resolveSession_idsSeen.
Qed.

Lemma fold_resolveDirectory_idsSeen dirToProjectPath discovered :
  forall st, idsSeen st -> idsSeen (fold_left (resolveDirectory dirToProjectPath) discovered st).
Proof.
  induction discovered as [|entry rest IH]; intros st Hst; simpl; [done|].
  by apply IH, resolveDirectory_idsSeen.
Qed.

Lemma fold_addHistoryEntry_seen (fs : FS) (entries : list HistoryEntry) (id : string) :
  forall acc,
    id ∈ acc_seenIds (fold_left (addHistoryEntry fs) entries acc)
    <-> id ∈ acc_seenIds acc
        \/ (id <> EmptyString
            /\ exists entry, entry ∈ entries /\ entrySessionId fs entry = Some id).
Proof.
  induction entries as [|e rest IH]; intros acc; simpl.
  - split; [by left|]. intros [H|(_ & e & He & _)]; [done|]. by apply elem_of_nil in He.
  - rewrite IH, addHistoryEntry_cases. clear IH.
    split.
    + intros [H|(Hid & e' & He' & Hres)].
      * destruct (entrySessionId fs e) as [id'|] eqn:He; [|by left].
        destruct (nonEmptyString id') eqn:Hne; simpl in H; [|by left].
        case_bool_decide as Hseen; simpl in H; [by left|].
        apply elem_of_union in H as [H|H]; [|by left].
        apply elem_of_singleton in H as ->. right. split.
        -- intros ->. done.
        -- exists e. split; [left|done].
      * right. split; [done|]. exists e'. split; [by right|done].
    + intros [H|(Hid & e' & He' & Hres)].
      * left. destruct (entrySessionId fs e) as [id'|]; [|done].
        destruct (negb (nonEmptyString id')); simpl; [done|].
        case_bool_decide; simpl; [done|]. apply elem_of_union. by right.
      * apply elem_of_cons in He' as [->|He'].
        -- left. rewrite Hres.
           destruct (nonEmptyString id) eqn:Hne; simpl.
           ++ case_bool_decide; simpl; [done|]. apply elem_of_union. left.
              by apply elem_of_singleton.
           ++ by destruct id.
        -- right. split; [done|]. by exists e'.
Qed.

Lemma resolveSession_seen resolvedPath st found id :
  id ∈ snd (resolveSession resolvedPath st found)
  <-> id = s_id (found_session found) \/ id ∈ snd st.
Proof.
  destruct st as [sessions seenIds]. unfold resolveSession.
  assert (s_id (if negb (found_hasCwd found) && truthy resolvedPath
                then {| s_id := s_id (found_session found);
                        s_display := s_display (found_session found);
                        s_timestamp := s_timestamp (found_session found);
                        s_project := or_else resolvedPath "";
                        s_projectName := getProjectName (or_else resolvedPath "") |}
                else found_session found) = s_id (found_session found)) as ->
    by (by destruct (negb (found_hasCwd found) && truthy resolvedPath)).
  case_bool_decide as Hseen; simpl.
  - split; [by right|]. by intros [->|H].
  - rewrite elem_of_union, elem_of_singleton. tauto.
Qed.

Lemma fold_resolveSession_seen resolvedPath results id :
  forall st,
    id ∈ snd (fold_left (resolveSession resolvedPath) results st)
    <-> id ∈ foundIds results \/ id ∈ snd st.
Proof.
  induction results as [|found rest IH]; intros st; simpl.
  - split; [by right|]. intros [H|H]; [by apply elem_of_nil in H|done].
  - rewrite IH, resolveSession_seen, elem_of_cons. tauto.
Qed.

Lemma fold_resolveDirectory_seen dirToProjectPath discovered id :
  forall st,
    id ∈ snd (fold_left (resolveDirectory dirToProjectPath) discovered st)
    <-> id ∈ discoveredIds discovered \/ id ∈ snd st.
Proof.
  unfold discoveredIds.
  induction discovered as [|entry rest IH]; intros st; simpl.
  - split; [by right|]. intros [H|H]; [by apply elem_of_nil in H|done].
  - rewrite IH. unfold resolveDirectory.
    rewrite fold_resolveSession_seen, elem_of_app. tauto.
Qed.

Lemma NoDup_map_eq {A B : Type} (f : A -> B) (l : list A) (x y : A) :
  NoDup (map f l) -> x ∈ l -> y ∈ l -> f x = f y -> x = y.
Proof.
  induction l as [|a l IH]; simpl; intros Hnd Hx Hy Hf.
  - by apply elem_of_nil in Hx.
  - apply NoDup_cons in Hnd as [Ha Hnd].
    apply elem_of_cons in Hx as [->|Hx]; apply elem_of_cons in Hy as [->|Hy].
    + done.
    + exfalso. apply Ha. rewrite Hf. apply elem_of_list_map. by exists y.
    + exfalso. apply Ha. rewrite <- Hf. apply elem_of_list_map. by exists x.
    + by apply IH.
Qed.

Lemma addHistoryEntry_keeps fs acc entry s :
  s ∈ acc_sessions acc -> s ∈ acc_sessions (addHistoryEntry fs acc entry).
Proof.
  intros Hs. rewrite addHistoryEntry_cases.
  destruct (entrySessionId fs entry) as [id|]; [|done].
  destruct (negb (nonEmptyString id) || bool_decide (id ∈ acc_seenIds acc)); [done|].
  simpl. apply elem_of_app. by left.
Qed.

Lemma fold_addHistoryEntry_keeps fs entries s :
  forall acc,
    s ∈ acc_sessions acc -> s ∈ acc_sessions (fold_left (addHistoryEntry fs) entries acc).
Proof.
  induction entries as [|e rest IH]; intros acc Hs; simpl; [done|].
  by apply IH, addHistoryEntry_keeps.
Qed.

Lemma resolveSession_keeps resolvedPath st found s :
  s ∈ fst st -> s ∈ fst (resolveSession resolvedPath st found).
Proof.
  destruct st as [sessions seenIds]. unfold resolveSession. intros Hs.
  case_bool_decide; [done|]. simpl. apply elem_of_app. by left.
Qed.

Lemma fold_resolveDirectory_keeps dirToProjectPath discovered s :
  forall st,
    s ∈ fst st -> s ∈ fst (fold_left (resolveDirectory dirToProjectPath) discovered st).
Proof.
  induction discovered as [|entry rest IH]; intros st Hs; simpl; [done|].
  apply IH. unfold resolveDirectory.
  generalize (dirToProjectPath !! entry.1). intros resolvedPath.
  revert st Hs. induction (snd entry) as [|found more IHm]; intros st Hs; simpl; [done|].
  by apply IHm, resolveSession_keeps.
Qed.

Section GetSessions.

Variable JSON_parse_history : list ascii -> option HistoryEntry.
Variable JSON_parse_line : list ascii -> option LogLine.

Lemma discoverFile_found fs now seenIds dirName st file id :
  id ∈ foundIds (fst (discoverFile JSON_parse_line fs now seenIds dirName st file))
  -> id ∈ foundIds (fst st) \/ (id = basename file ".jsonl" /\ id ∉ seenIds).
Proof.
  destruct st as [results m]. unfold discoverFile.
  case_bool_decide as Hseen; [by left|].
  destruct (readSessionMetadata _ _ _ _) as [meta|]; simpl.
  - unfold foundIds. rewrite map_app, elem_of_app. simpl.
    rewrite list_elem_of_singleton. intros [H| ->]; [by left|by right].
  - destruct (stat fs (dirName, file)); simpl; [|by left].
    unfold foundIds. rewrite map_app, elem_of_app. simpl.
    rewrite list_elem_of_singleton. intros [H| ->]; [by left|by right].
Qed.

Lemma discoverFile_keeps fs now seenIds dirName st file id :
  id ∈ foundIds (fst st) ->
  id ∈ foundIds (fst (discoverFile JSON_parse_line fs now seenIds dirName st file)).
Proof.
  destruct st as [results m]. unfold discoverFile. intros Hid.
  case_bool_decide as Hseen; [done|].
  destruct (readSessionMetadata _ _ _ _) as [meta|]; simpl.
  - unfold foundIds. rewrite map_app, elem_of_app. by left.
  - destruct (stat fs (dirName, file)); simpl; [|done].
    unfold foundIds. rewrite map_app, elem_of_app. by left.
Qed.

Lemma discoverFile_finds fs now seenIds dirName st file fileStat :
  stat fs (dirName, file) = Ok fileStat ->
  basename file ".jsonl" ∈ seenIds
  \/ basename file ".jsonl"
     ∈ foundIds (fst (discoverFile JSON_parse_line fs now seenIds dirName st file)).
Proof.
  destruct st as [results m]. unfold discoverFile. intros Hstat.
  case_bool_decide as Hseen; [by left|]. right.
  destruct (readSessionMetadata _ _ _ _) as [meta|]; simpl.
  - unfold foundIds. rewrite map_app, elem_of_app. right. simpl. left.
  - rewrite Hstat. simpl.
    unfold foundIds. rewrite map_app, elem_of_app. right. simpl. left.
Qed.

Lemma fold_discoverFile_found fs now seenIds dirName files id :
  forall st,
    id ∈ foundIds (fst (fold_left (discoverFile JSON_parse_line fs now seenIds dirName) files st))
    -> id ∈ foundIds (fst st)
       \/ ((id ∉ seenIds) /\ exists file, file ∈ files /\ id = basename file ".jsonl").
Proof.
  induction files as [|file rest IH]; intros st; simpl; [by left|].
  intros H. apply IH in H as [H|(Hseen & f & Hf & ->)].
  - apply discoverFile_found in H as [H|[-> Hseen]]; [by left|].
    right. split; [done|]. exists file. split; [left|done].
  - right. split; [done|]. exists f. split; [by right|done].
Qed.

Lemma fold_discoverFile_keeps fs now seenIds dirName files id :
  forall st,
    id ∈ foundIds (fst st) ->
    id ∈ foundIds (fst (fold_left (discoverFile JSON_parse_line fs now seenIds dirName) files st)).
Proof.
  induction files as [|file rest IH]; intros st H; simpl; [done|].
  by apply IH, discoverFile_keeps.
Qed.

Lemma fold_discoverFile_finds fs now seenIds dirName files file :
  file ∈ files ->
  (exists fileStat, stat fs (dirName, file) = Ok fileStat) ->
  forall st,
    basename file ".jsonl" ∈ seenIds
    \/ basename file ".jsonl"
       ∈ foundIds (fst (fold_left (discoverFile JSON_parse_line fs now seenIds dirName) files st)).
Proof.
  intros Hfile [fileStat Hstat].
  induction files as [|f rest IH]; intros st; simpl; [by apply elem_of_nil in Hfile|].
  apply elem_of_cons in Hfile as [<-|Hfile]; [|by apply IH].
  destruct (discoverFile_finds fs now seenIds dirName st file fileStat Hstat) as [H|H];
    [by left|right].
  by apply fold_discoverFile_keeps.
Qed.

Lemma discoverDirectory_ids fs now seenIds st dir id :
  id ∈ discoveredIds (fst (discoverDirectory JSON_parse_line fs now seenIds st dir))
  <-> id ∈ discoveredIds (fst st)
      \/ match readdir fs (name dir) with
         | Ok files =>
           id ∈ foundIds
                  (fst (fold_left (discoverFile JSON_parse_line fs now seenIds (name dir))
                          (List.filter (fun f => endsWith f ".jsonl") files)
                          ([], snd st)))
         | Err _ => False
         end.
Proof.
  destruct st as [discovered m]. unfold discoverDirectory. simpl.
  destruct (readdir fs (name dir)) as [files|].
  - destruct (fold_left _ _ _) as [results m'] eqn:Hfold. simpl.
    unfold discoveredIds. rewrite map_app, concat_app, elem_of_app. simpl.
    by rewrite app_nil_r.
  - simpl. unfold discoveredIds. rewrite map_app, concat_app, elem_of_app. simpl.
    split; [intros [H|H]; [by left|by apply elem_of_nil in H]|intros [H|[]]; by left].
Qed.

Lemma fold_discoverDirectory_found fs now seenIds directories id :
  forall st,
    id ∈ discoveredIds (fst (fold_left (discoverDirectory JSON_parse_line fs now seenIds)
                               directories st))
    -> id ∈ discoveredIds (fst st)
       \/ ((id ∉ seenIds)
           /\ exists dir file,
                dir ∈ directories /\ listedLog fs (name dir) file
                /\ id = basename file ".jsonl").
Proof.
  induction directories as [|dir rest IH]; intros st; simpl; [by left|].
  intros H. apply IH in H as [H|(Hseen & d & f & Hd & Hf & ->)].
  - apply discoverDirectory_ids in H as [H|H]; [by left|].
    destruct (readdir fs (name dir)) as [files|] eqn:Hfiles; [|done].
    apply fold_discoverFile_found in H as [H|(Hseen & f & Hf & ->)];
      [by apply elem_of_nil in H|].
    apply elem_of_filter_list in Hf as [Hf Hjsonl].
    right. split; [done|]. exists dir, f. split; [left|]. split; [|done].
    by exists files.
  - right. split; [done|]. exists d, f. split; [by right|done].
Qed.

Lemma fold_discoverDirectory_keeps fs now seenIds directories id :
  forall st,
    id ∈ discoveredIds (fst st) ->
    id ∈ discoveredIds (fst (fold_left (discoverDirectory JSON_parse_line fs now seenIds)
                               directories st)).
Proof.
  induction directories as [|dir rest IH]; intros st H; simpl; [done|].
  apply IH, discoverDirectory_ids. by left.
Qed.

Lemma fold_discoverDirectory_finds fs now seenIds directories dir file :
  dir ∈ directories ->
  listedLog fs (name dir) file ->
  forall st,
    basename file ".jsonl" ∈ seenIds
    \/ basename file ".jsonl"
       ∈ discoveredIds (fst (fold_left (discoverDirectory JSON_parse_line fs now seenIds)
                               directories st)).
Proof.
  intros Hdir (files & Hfiles & Hfile & Hjsonl).
  induction directories as [|d rest IH]; intros st; simpl; [by apply elem_of_nil in Hdir|].
  apply elem_of_cons in Hdir as [<-|Hdir]; [|by apply IH].
  destruct (fold_discoverFile_finds fs now seenIds (name dir)
              (List.filter (fun f => endsWith f ".jsonl") files) file) with (st := (@nil Discovered, snd st))
    as [H|H].
  - by apply elem_of_filter_list.
  - by apply (stat_listed fs (name dir) files).
  - by left.
  - right. apply fold_discoverDirectory_keeps, discoverDirectory_ids. right.
    by rewrite Hfiles.
Qed.

Lemma discoverSessions_seen fs now st id :
  id ∈ snd (discoverSessions JSON_parse_line fs now st)
  <-> id ∈ snd st
      \/ exists dirName file, listedLog fs dirName file /\ id = basename file ".jsonl".
Proof.
  unfold discoverSessions.
  destruct (readdir_projects fs) as [projectDirs|] eqn:Hdirs.
  - destruct (fold_left _ _ _) as [discovered m] eqn:Hfold.
    rewrite fold_resolveDirectory_seen.
    assert (discovered = fst (fold_left (discoverDirectory JSON_parse_line fs now (snd st))
                                (List.filter isDirectory projectDirs) ([], ∅))) as ->
      by (by rewrite Hfold).
    split.
    + intros [H|H]; [|by left].
      apply fold_discoverDirectory_found in H as [H|(_ & d & f & _ & Hf & ->)];
        [by apply elem_of_nil in H|].
      right. by exists (name d), f.
    + intros [H|(dirName & file & Hlog & ->)]; [by right|].
      destruct Hlog as (files & Hfiles & Hrest).
      destruct (readdir_Ok _ _ _ Hfiles) as (ds & d & es & Hds & Hd & Hname & _).
      rewrite Hds in Hdirs. injection Hdirs as ->. subst dirName.
      destruct (fold_discoverDirectory_finds fs now (snd st)
                  (List.filter isDirectory projectDirs) d file Hd)
        with (st := (@nil (string * list Discovered), (∅ : gmap string string)))
        as [H|H]; [by exists files|by right|by left].
  - split; [by left|]. intros [H|(dirName & file & (files & Hfiles & _) & _)]; [done|].
    destruct (readdir_Ok _ _ _ Hfiles) as (ds & _ & _ & Hds & _). congruence.
Qed.

Lemma discoverSessions_idsSeen fs now st :
  idsSeen st -> idsSeen (discoverSessions JSON_parse_line fs now st).
Proof.
  intros Hst. unfold discoverSessions.
  destruct (readdir_projects fs) as [projectDirs|]; [|done].
  destruct (fold_left _ _ _) as [discovered dirToProjectPath].
  by apply fold_resolveDirectory_idsSeen.
Qed.

Lemma discoverSessions_keeps fs now st s :
  s ∈ fst st -> s ∈ fst (discoverSessions JSON_parse_line fs now st).
Proof.
  intros Hs. unfold discoverSessions.
  destruct (readdir_projects fs); [|done].
  destruct (fold_left _ _ _) as [discovered m].
  by apply fold_resolveDirectory_keeps.
Qed.

(** What a call computes when the session cache is empty *)
Lemma getSessions_uncached fs historyFile now c :
  sessionCache c = None ->
  fst (getSessions JSON_parse_history JSON_parse_line fs historyFile now c)
  = stableSort newerFirst
      (fst (discoverSessions JSON_parse_line fs now
              (acc_sessions (historySessions fs (historyEntries JSON_parse_history historyFile c)),
               acc_seenIds (historySessions fs (historyEntries JSON_parse_history historyFile c))))).
Proof.
  intros Hc. unfold getSessions, historyEntries. rewrite Hc.
  destruct (historyCache c) as [entries|].
  - by destruct (discoverSessions _ _ _ _).
  - destruct (loadHistoryCache _ _ _) as [entries c1]. simpl.
    by destruct (discoverSessions _ _ _ _).
Qed.

Lemma getSessions_fills fs historyFile now c :
  let r := getSessions JSON_parse_history JSON_parse_line fs historyFile now c in
  sessionCache (snd r) = Some (fst r)
  /\ (sessionCache c = None ->
      historyCache (snd r) = Some (historyEntries JSON_parse_history historyFile c)).
Proof.
  cbv zeta. unfold getSessions, historyEntries.
  destruct (sessionCache c) as [cached|] eqn:Hc; [done|].
  destruct (historyCache c) as [entries|] eqn:Hh.
  - destruct (discoverSessions _ _ _ _) as [sessions seen]. by simpl.
  - destruct (loadHistoryCache _ _ _) as [entries c1] eqn:Hload.
    destruct (discoverSessions _ _ _ _) as [sessions seen]. simpl.
    split; [done|]. intros _.
    unfold loadHistoryCache in Hload. destruct historyFile; by inversion Hload.
Qed.

(** A call of [getSessions] that finds the session cache empty returns no
    session id twice. *)
Theorem getSessions_ids_distinct fs historyFile now c :
  sessionCache c = None ->
  NoDup (map s_id (fst (getSessions JSON_parse_history JSON_parse_line fs historyFile now c))).
Proof.
  intros Hc. rewrite getSessions_uncached by done.
  rewrite <- (stableSort_perm newerFirst).
  apply discoverSessions_idsSeen, historySessions_idsSeen.
Qed.

(** A call of [getSessions] that finds the session cache empty returns the
    sessions by descending timestamp, the newest first. *)
Theorem getSessions_newest_first fs historyFile now c :
  sessionCache c = None ->
  StronglySorted (fun a b => s_timestamp b <= s_timestamp a)
    (fst (getSessions JSON_parse_history JSON_parse_line fs historyFile now c)).
Proof.
  intros Hc. rewrite getSessions_uncached by done.
  apply Sorted_StronglySorted; [intros x y z Hxy Hyz; lia|].
  eapply Sorted_ind with (P := fun l => Sorted (fun a b => s_timestamp b <= s_timestamp a) l);
    [constructor| |apply (stableSort_sorted newerFirst)].
  - intros a l _ IH Hhd. constructor; [done|].
    destruct Hhd as [|b l Hab]; constructor. unfold newerFirst in Hab. lia.
  - unfold newerFirst. intros x y Hxy. lia.
Qed.

(** The sessions [getSessions] lists when the session cache is empty: an id
    is among them exactly when a history entry names it (or, having no id,
    has it as the log closest in time), or a project directory that can be
    listed holds a log of that name.  An entry of the history is listed
    whether or not its log exists. *)
Theorem getSessions_ids fs historyFile now c id :
  sessionCache c = None ->
  id ∈ map s_id (fst (getSessions JSON_parse_history JSON_parse_line fs historyFile now c))
  <-> (id <> EmptyString
       /\ exists entry,
            entry ∈ historyEntries JSON_parse_history historyFile c
            /\ entrySessionId fs entry = Some id)
      \/ (exists dirName file, listedLog fs dirName file /\ id = basename file ".jsonl").
Proof.
  intros Hc. rewrite getSessions_uncached by done.
  rewrite <- (stableSort_perm newerFirst).
  set (entries := historyEntries JSON_parse_history historyFile c).
  pose proof (discoverSessions_idsSeen fs now _
                (historySessions_idsSeen fs entries)) as [_ Hseen].
  rewrite <- Hseen, discoverSessions_seen. simpl.
  unfold historySessions. rewrite fold_addHistoryEntry_seen. simpl.
  rewrite elem_of_empty. tauto.
Qed.

(** A session of the history log is listed with the display text, the
    timestamp and the project of the first history entry that gives its id,
    whatever its log says; no other session of the list has that id. *)
Theorem getSessions_history_entry fs historyFile now c before entry after id :
  sessionCache c = None ->
  historyEntries JSON_parse_history historyFile c = before ++ entry :: after ->
  entrySessionId fs entry = Some id ->
  id <> EmptyString ->
  (forall e, e ∈ before -> entrySessionId fs e <> Some id) ->
  let sessions := fst (getSessions JSON_parse_history JSON_parse_line fs historyFile now c) in
  entrySession id entry ∈ sessions
  /\ forall s, s ∈ sessions -> s_id s = id -> s = entrySession id entry.
Proof.
  intros Hc Hentries Hid Hne Hfirst sessions.
  assert (entrySession id entry ∈ sessions) as Hin.
  { unfold sessions. rewrite getSessions_uncached by done.
    rewrite <- (stableSort_perm newerFirst).
    apply discoverSessions_keeps. simpl.
    rewrite Hentries. unfold historySessions. rewrite fold_left_app. simpl.
    apply fold_addHistoryEntry_keeps. rewrite addHistoryEntry_cases, Hid.
    assert (id ∉ acc_seenIds (fold_left (addHistoryEntry fs) before emptySessionAcc)) as Hnew.
    { rewrite fold_addHistoryEntry_seen. simpl. rewrite elem_of_empty.
      intros [[]|(_ & e & He & Hres)]. by apply (Hfirst e). }
    destruct (nonEmptyString id) eqn:Hn; [|by destruct id]. simpl.
    case_bool_decide; [done|]. simpl. apply elem_of_app. right. left. }
  split; [done|].
  intros s Hs Hsid.
  apply (NoDup_map_eq s_id sessions); [|done..].
  unfold sessions. rewrite getSessions_uncached by done.
  rewrite <- (stableSort_perm newerFirst).
  apply discoverSessions_idsSeen, historySessions_idsSeen.
Qed.

(** Once [getSessions] has returned, a further call returns the same list
    and leaves the caches as they are, whatever has changed on disk.  After
    [invalidateSessionCache] the list is built anew, from the project
    directories and from the history entries read before: the history log
    is not read again. *)
Theorem getSessions_cached fs historyFile now c fs' historyFile' now' :
  let r := getSessions JSON_parse_history JSON_parse_line fs historyFile now c in
  getSessions JSON_parse_history JSON_parse_line fs' historyFile' now' (snd r) = r
  /\ (sessionCache c = None ->
      forall historyFile'',
        getSessions JSON_parse_history JSON_parse_line fs' historyFile' now'
          (invalidateSessionCache (snd r))
        = getSessions JSON_parse_history JSON_parse_line fs' historyFile'' now'
            (invalidateSessionCache (snd r))).
Proof.
  intros r. destruct (getSessions_fills fs historyFile now c) as [Hs Hh].
  fold r in Hs, Hh. split.
  - unfold getSessions. rewrite Hs. by destruct r.
  - intros Hc hf. unfold getSessions, invalidateSessionCache. simpl.
    by rewrite (Hh Hc).
Qed.

End GetSessions.

Lemma getSessions_ids_distinct_witness :
  map s_id (fst (getSessions sampleHistoryParse sampleLineParse discoveryFS
                   sampleHistoryFile sampleNow noCaches))
  = ["s2"; "s1"; "s3"]
  /\ NoDup (map s_id (fst (getSessions sampleHistoryParse sampleLineParse discoveryFS
                             sampleHistoryFile sampleNow noCaches))).
Proof.
  split; [vm_compute; reflexivity|].
  apply (getSessions_ids_distinct sampleHistoryParse sampleLineParse). reflexivity.
Defined.

Lemma getSessions_newest_first_witness :
  map s_timestamp (fst (getSessions sampleHistoryParse sampleLineParse discoveryFS
                          sampleHistoryFile sampleNow noCaches))
  = [7000; 5000; 300]
  /\ StronglySorted (fun a b => s_timestamp b <= s_timestamp a)
       (fst (getSessions sampleHistoryParse sampleLineParse discoveryFS
               sampleHistoryFile sampleNow noCaches)).
Proof.
  split; [vm_compute; reflexivity|].
  apply (getSessions_newest_first sampleHistoryParse sampleLineParse). reflexivity.
Defined.

Lemma getSessions_ids_witness :
  "s3" ∈ map s_id (fst (getSessions sampleHistoryParse sampleLineParse discoveryFS
                          sampleHistoryFile sampleNow noCaches)).
Proof.
  apply (getSessions_ids sampleHistoryParse sampleLineParse discoveryFS
           sampleHistoryFile sampleNow noCaches "s3"); [reflexivity|].
  right. exists "-a-b", "s3.jsonl". split; [|reflexivity].
  exists ["s1.jsonl"; "s2.jsonl"; "notes.txt"; "s3.jsonl"].
  split; [reflexivity|]. split; [|reflexivity].
  apply list_elem_of_In. simpl. tauto.
Defined.

Lemma getSessions_history_entry_witness :
  let sessions := fst (getSessions sampleHistoryParse sampleLineParse discoveryFS
                         sampleHistoryFile sampleNow noCaches) in
  {| s_id := "s1"; s_display := "fix the bug"; s_timestamp := 5000;
     s_project := "/a/b"; s_projectName := "b" |} ∈ sessions
  /\ forall s, s ∈ sessions -> s_id s = "s1"%string -> s_display s = "fix the bug"%string.
Proof.
  pose proof (getSessions_history_entry sampleHistoryParse sampleLineParse discoveryFS
                sampleHistoryFile sampleNow noCaches []
                {| h_display := "fix the bug"; h_timestamp := 5000; h_project := "/a/b";
                   h_sessionId := Some "s1" |}
                [ {| h_display := "and the tests"; h_timestamp := 6000; h_project := "/a/b";
                     h_sessionId := Some "s1" |} ]
                "s1") as H.
  destruct H as [Hin Honly]; [reflexivity|reflexivity|reflexivity|done| |].
  - intros e He. by apply elem_of_nil in He.
  - split; [exact Hin|]. intros s Hs Hid. by rewrite (Honly s Hs Hid).
Defined.

(* ===================================================================== *)
(** ** Building and scanning the file index *)
(* ===================================================================== *)

Lemma includes_name_elem (files : list string) (target : string) :
  includes_name files target = true <-> target ∈ files.
Proof.
  unfold includes_name. rewrite existsb_exists, list_elem_of_In. split.
  - intros (x & Hx & Heq). apply String.eqb_eq in Heq. by subst.
  - intros H. exists target. split; [done|apply String.eqb_refl].
Qed.

Lemma append_nil (s : string) : (EmptyString +:+ s)%string = s.
Proof. reflexivity. Qed.

Lemma append_cons (c : ascii) (s1 s2 : string) :
  (String c s1 +:+ s2)%string = String c (s1 +:+ s2).
Proof. reflexivity. Qed.

Lemma length_append (s1 s2 : string) :
  String.length (s1 +:+ s2) = (String.length s1 + String.length s2)%nat.
Proof.
  induction s1 as [|c s1 IH]; [done|].
  rewrite append_cons. simpl. by rewrite IH.
Qed.

Lemma substring_whole (s : string) : String.substring 0 (String.length s) s = s.
Proof. induction s as [|c s IH]; simpl; [done|]. by rewrite IH. Qed.

Lemma substring_append_r (s1 s2 : string) :
  String.substring (String.length s1) (String.length s2) (s1 +:+ s2) = s2.
Proof.
  induction s1 as [|c s1 IH]; [apply substring_whole|].
  rewrite append_cons. exact IH.
Qed.

Lemma substring_append_l (s1 s2 : string) :
  String.substring 0 (String.length s1) (s1 +:+ s2) = s1.
Proof.
  induction s1 as [|c s1 IH]; [by destruct s2|].
  rewrite append_cons. simpl. by rewrite IH.
Qed.

Lemma endsWith_app (s suffix : string) : endsWith (s +:+ suffix) suffix = true.
Proof.
  unfold endsWith. rewrite length_append.
  replace (String.length s + String.length suffix - String.length suffix)%nat
    with (String.length s) by lia.
  rewrite substring_append_r, String.eqb_refl, andb_true_r.
  apply Nat.leb_le. lia.
Qed.

Lemma basename_app (s suffix : string) : basename (s +:+ suffix) suffix = s.
Proof.
  unfold basename. rewrite endsWith_app, length_append.
  replace (String.length s + String.length suffix - String.length suffix)%nat
    with (String.length s) by lia.
  apply substring_append_l.
Qed.

Lemma find_some_result {A : Type} (f : A -> option Path) (l : list A) (r : option Path) :
  List.find (fun r => match r with Some _ => true | None => false end) (map f l) = Some r ->
  exists x p, x ∈ l /\ f x = Some p /\ r = Some p.
Proof.
  induction l as [|x l IH]; simpl; [done|].
  destruct (f x) as [p|] eqn:Hx.
  - intros [= <-]. exists x, p. split; [left|done].
  - intros H. destruct (IH H) as (y & p & Hy & Hfy & ->).
    exists y, p. split; [by right|done].
Qed.

Lemma find_no_result {A : Type} (f : A -> option Path) (l : list A) :
  List.find (fun r => match r with Some _ => true | None => false end) (map f l) = None ->
  forall x, x ∈ l -> f x = None.
Proof.
  induction l as [|x l IH]; simpl; intros H y Hy; [by apply elem_of_nil in Hy|].
  destruct (f x) as [p|] eqn:Hx; [done|].
  apply elem_of_cons in Hy as [->|Hy]; [done|by apply IH].
Qed.

(** A lookup of a session that is not in the index scans the project
    directories: it finds a log named after the session in a directory that
    can be listed, or there is no such log in any of them. *)
Theorem findSessionFile_scan fs sessionId (idx : gmap string Path) :
  idx !! sessionId = None ->
  match findSessionFile fs sessionId idx with
  | (Ok (Some p), idx') =>
    snd p = (sessionId +:+ ".jsonl")%string
    /\ listedLog fs (fst p) (snd p)
    /\ idx' = <[ sessionId := p ]> idx
  | (Ok None, idx') =>
    idx' = idx
    /\ forall dirName files,
         readdir fs dirName = Ok files -> (sessionId +:+ ".jsonl")%string ∉ files
  | (Err _, _) => False
  end.
Proof.
  intros Hidx. unfold findSessionFile. rewrite Hidx.
  destruct (readdir_projects fs) as [projectDirs|e] eqn:Hdirs.
  - set (f := fun dir : Dirent =>
                match readdir fs (name dir) with
                | Ok files =>
                  if includes_name files (sessionId +:+ ".jsonl")
                  then Some (name dir, (sessionId +:+ ".jsonl")%string)
                  else None
                | Err _ => None
                end).
    destruct (List.find _ (map f (List.filter isDirectory projectDirs))) as [r|] eqn:Hfind.
    + destruct (find_some_result _ _ _ Hfind) as (dir & p & Hdir & Hf & ->).
      unfold f in Hf. destruct (readdir fs (name dir)) as [files|] eqn:Hfiles; [|done].
      destruct (includes_name files _) eqn:Hinc; [|done]. injection Hf as <-. simpl.
      split; [done|]. split; [|done].
      exists files. split; [done|]. split; [by apply includes_name_elem|].
      apply endsWith_app.
    + split; [done|]. intros dirName files Hfiles Hin.
      destruct (readdir_Ok _ _ _ Hfiles) as (ds & d & es & Hds & Hd & Hname & _).
      rewrite Hds in Hdirs. injection Hdirs as ->.
      pose proof (find_no_result _ _ Hfind d Hd) as Hnone.
      unfold f in Hnone. rewrite Hname, Hfiles in Hnone.
      apply includes_name_elem in Hin. by rewrite Hin in Hnone.
  - split; [done|]. intros dirName files Hfiles _.
    destruct (readdir_Ok _ _ _ Hfiles) as (ds & _ & _ & Hds & _). congruence.
Qed.

Lemma findSessionFile_scan_witness :
  fst (findSessionFile discoveryFS "s2" ∅) = Ok (Some ("-a-b", "s2.jsonl")%string)
  /\ listedLog discoveryFS "-a-b" "s2.jsonl".
Proof.
  pose proof (findSessionFile_scan discoveryFS "s2" ∅) as H.
  split; [reflexivity|].
  assert (findSessionFile discoveryFS "s2" ∅
          = (Ok (Some ("-a-b", "s2.jsonl")%string), <[ "s2"%string := ("-a-b", "s2.jsonl")%string ]> ∅))
    as Heq by reflexivity.
  rewrite Heq in H. apply H. reflexivity.
Defined.

Lemma indexDirectory_run fs dir (idx : gmap string Path) :
  indexDirectory fs dir idx = (Ok tt, snd (indexDirectory fs dir idx)).
Proof. unfold indexDirectory. by destruct (readdir fs (name dir)). Qed.

Lemma buildFileIndex_run fs arrival projectDirs (idx : gmap string Path) :
  readdir_projects fs = Ok projectDirs ->
  buildFileIndex fs arrival idx
  = (Ok tt, fold_left (fun idx dir => snd (indexDirectory fs dir idx)) arrival idx).
Proof.
  intros Hdirs. unfold buildFileIndex. rewrite Hdirs.
  assert (forall (c : M unit) idx1,
            c idx = (Ok tt, idx1) ->
            fold_left (fun c dir => let* _ := c in indexDirectory fs dir) arrival c idx
            = (Ok tt, fold_left (fun idx dir => snd (indexDirectory fs dir idx)) arrival idx1))
    as Hgen.
  { induction arrival as [|dir rest IH]; intros c idx1 Hc; simpl; [done|].
    apply IH. unfold bind. rewrite Hc. apply indexDirectory_run. }
  by apply Hgen.
Qed.

Lemma indexFiles_keeps fs dirName files0 sessionId (files : list string) :
  readdir fs dirName = Ok files0 ->
  (forall f, f ∈ files -> f ∈ files0) ->
  forall idx : gmap string Path,
    indexed fs sessionId idx ->
    indexed fs sessionId
      (fold_left
         (fun idx file =>
            if endsWith file ".jsonl"
            then <[ basename file ".jsonl" := (dirName, file) ]> idx
            else idx)
         files idx).
Proof.
  intros Hdir. induction files as [|file rest IH]; intros Hsub idx Hidx; simpl; [done|].
  apply IH; [intros f Hf; apply Hsub; by right|].
  destruct (endsWith file ".jsonl") eqn:Hjsonl; [|done].
  destruct (decide (basename file ".jsonl" = sessionId)) as [Heq|Hne].
  - exists (dirName, file). rewrite Heq, lookup_insert_eq. split; [done|]. split; [|done].
    exists files0. split; [done|]. split; [apply Hsub; left|done].
  - destruct Hidx as (p & Hp & Hrest). exists p. by rewrite lookup_insert_ne.
Qed.

Lemma indexFiles_adds fs dirName files0 file (files : list string) :
  readdir fs dirName = Ok files0 ->
  (forall f, f ∈ files -> f ∈ files0) ->
  file ∈ files -> endsWith file ".jsonl" = true ->
  forall idx : gmap string Path,
    indexed fs (basename file ".jsonl")
      (fold_left
         (fun idx file =>
            if endsWith file ".jsonl"
            then <[ basename file ".jsonl" := (dirName, file) ]> idx
            else idx)
         files idx).
Proof.
  intros Hdir. induction files as [|f rest IH]; intros Hsub Hfile Hjsonl idx; simpl;
    [by apply elem_of_nil in Hfile|].
  apply elem_of_cons in Hfile as [<-|Hfile].
  - apply (indexFiles_keeps fs dirName files0); [done|intros g Hg; apply Hsub; by right|].
    rewrite Hjsonl. exists (dirName, file). rewrite lookup_insert_eq.
    split; [done|]. split; [|done].
    exists files0. split; [done|]. split; [apply Hsub; left|done].
  - apply IH; [intros g Hg; apply Hsub; by right|done..].
Qed.

Lemma indexDirectory_keeps fs dir sessionId (idx : gmap string Path) :
  indexed fs sessionId idx -> indexed fs sessionId (snd (indexDirectory fs dir idx)).
Proof.
  intros Hidx. unfold indexDirectory.
  destruct (readdir fs (name dir)) as [files|] eqn:Hfiles; [|done]. simpl.
  by apply (indexFiles_keeps fs (name dir) files).
Qed.

(** When [buildFileIndex] is done, whatever the order in which the listings
    arrived, every log of a directory that can be listed is resolved from
    the index, without a scan, to a log named after its session. *)
Theorem buildFileIndex_resolves fs arrival projectDirs (idx : gmap string Path)
    dirName file :
  readdir_projects fs = Ok projectDirs ->
  arrival ≡ₚ List.filter isDirectory projectDirs ->
  listedLog fs dirName file ->
  exists idx' p,
    buildFileIndex fs arrival idx = (Ok tt, idx')
    /\ idx' !! basename file ".jsonl" = Some p
    /\ listedLog fs (fst p) (snd p)
    /\ basename (snd p) ".jsonl" = basename file ".jsonl"
    /\ forall fs', findSessionFile fs' (basename file ".jsonl") idx' = (Ok (Some p), idx').
Proof.
  intros Hdirs Harrival (files & Hfiles & Hfile & Hjsonl).
  rewrite (buildFileIndex_run fs arrival projectDirs idx Hdirs).
  set (step := fun (idx : gmap string Path) dir => snd (indexDirectory fs dir idx)).
  assert (indexed fs (basename file ".jsonl") (fold_left step arrival idx))
    as (p & Hp & Hlog & Hbase).
  { destruct (readdir_Ok _ _ _ Hfiles) as (ds & d & es & Hds & Hd & Hname & _).
    rewrite Hds in Hdirs. injection Hdirs as ->.
    rewrite <- Harrival in Hd. clear Harrival. revert idx.
    induction arrival as [|dir rest IH]; intros idx; simpl; [by apply elem_of_nil in Hd|].
    apply elem_of_cons in Hd as [<-|Hd]; [|by apply IH].
    assert (indexed fs (basename file ".jsonl") (step idx d)) as Hnow.
    { unfold step, indexDirectory. rewrite Hname, Hfiles. simpl.
      by apply (indexFiles_adds fs dirName files). }
    clear IH. revert Hnow. generalize (step idx d).
    induction rest as [|dir rest IH]; intros idx1 Hnow; simpl; [done|].
    by apply IH, indexDirectory_keeps. }
  exists (fold_left step arrival idx), p.
  split; [done|]. split; [done|]. split; [done|]. split; [done|].
  intros fs'. unfold findSessionFile. by rewrite Hp.
Qed.

Lemma buildFileIndex_resolves_witness :
  exists idx' p,
    buildFileIndex discoveryFS
      [ {| name := "-a-b"; isDirectory := true;
           entries := Some [ ("s1.jsonl", logFile 100 (userLine +:+ NL));
                             ("s2.jsonl", logFile 200 (summaryLine +:+ NL +:+ promptLine +:+ NL));
                             ("notes.txt", logFile 250 "");
                             ("s3.jsonl", logFile 300 (userLine +:+ NL +:+ assistantLine +:+ NL)) ] |} ]
      ∅ = (Ok tt, idx')
    /\ idx' !! basename "s3.jsonl" ".jsonl" = Some p
    /\ listedLog discoveryFS (fst p) (snd p)
    /\ basename (snd p) ".jsonl" = basename "s3.jsonl" ".jsonl"
    /\ forall fs', findSessionFile fs' (basename "s3.jsonl" ".jsonl") idx' = (Ok (Some p), idx').
Proof.
  eapply (buildFileIndex_resolves discoveryFS _ _ ∅ "-a-b" "s3.jsonl").
  - reflexivity.
  - reflexivity.
  - exists ["s1.jsonl"; "s2.jsonl"; "notes.txt"; "s3.jsonl"].
    split; [reflexivity|]. split; [|reflexivity].
    apply list_elem_of_In. simpl. tauto.
Defined.

(* ===================================================================== *)
(** ** The model and project buckets of the usage summary *)
(* ===================================================================== *)



Lemma assistantUsage_counted msg u :
  assistantUsage msg = Some u -> isUserOrAssistant msg = true.
Proof.
  intros H. destruct (isUserOrAssistant msg) eqn:Hua; [done|].
  by rewrite (assistantUsage_userOrAssistant msg Hua) in H.
Qed.


Lemma summaryMessageStep_counted st msg :
  countedUsage (snd st) -> countedUsage (snd (summaryMessageStep st msg)).
Proof.
  destruct st as [acc t]. intros [Hpos Hzero].
  unfold summaryMessageStep, countedUsage in *. simpl in *.
  destruct (assistantUsage msg) as [[u mdl]|] eqn:Hu.
  - rewrite (assistantUsage_counted msg _ Hu). simpl. split; [lia|]. intros; lia.
  - destruct (isUserOrAssistant msg); simpl; [|done]. split; [lia|]. intros; lia.
Qed.



Lemma zero_totals_counted : countedUsage zeroSessionTotals.
Proof. by split. Qed.



Section BucketSums.

Variable JSON_parse : list ascii -> option ConversationMessage.


Lemma getUsageSummary_state fs sessions options (idx : gmap string Path) s :
  fst (getUsageSummary JSON_parse fs sessions options idx) = Ok s ->
  exists acc byDateMap,
    fst (summaryLoop JSON_parse fs (filterSessions sessions options) (emptySummary, []) idx)
    = Ok (acc, byDateMap)
    /\ totalInputTokens s = totalInputTokens acc
    /\ totalOutputTokens s = totalOutputTokens acc
    /\ totalCacheCreationTokens s = totalCacheCreationTokens acc
    /\ totalCacheReadTokens s = totalCacheReadTokens acc
    /\ totalEstimatedCost s = totalEstimatedCost acc
    /\ sessionCount s = sessionCount acc
    /\ messageCount s = messageCount acc
    /\ byModel s = byModel acc
    /\ byProject s = byProject acc
    /\ byDate s = sortByDate (map withDate byDateMap).
Proof.
  unfold getUsageSummary, bind.
  destruct (summaryLoop _ _ _ _ _) as [[[acc byDateMap]|e] idx']; [|done].
  simpl. intros [= <-]. exists acc, byDateMap. by simpl.
Qed.



End BucketSums.




(* ===================================================================== *)
(** ** The list of projects *)
(* ===================================================================== *)

Lemma ascii_compare_lt_trans (a b c : ascii) :
  Ascii.compare a b = Lt -> Ascii.compare b c = Lt -> Ascii.compare a c = Lt.
Proof.
  unfold Ascii.compare. rewrite !N.compare_lt_iff. apply N.lt_trans.
Qed.

Lemma string_compare_lt_trans (s1 : string) :
  forall s2 s3,
    String.compare s1 s2 = Lt -> String.compare s2 s3 = Lt -> String.compare s1 s3 = Lt.
Proof.
  induction s1 as [|c1 s1 IH]; intros [|c2 s2] [|c3 s3]; simpl; try done.
  destruct (Ascii.compare c1 c2) eqn:H12; [|intros _|done].
  - apply Ascii.compare_eq_iff in H12 as ->.
    destruct (Ascii.compare c2 c3); [apply IH|done..].
  - destruct (Ascii.compare c2 c3) eqn:H23; [|intros _|done].
    + apply Ascii.compare_eq_iff in H23 as <-. by rewrite H12.
    + by rewrite (ascii_compare_lt_trans c1 c2 c3).
Qed.

Lemma string_ltb_trans (s1 s2 s3 : string) :
  String.ltb s1 s2 = true -> String.ltb s2 s3 = true -> String.ltb s1 s3 = true.
Proof.
  unfold String.ltb. intros H12 H23.
  destruct (String.compare s1 s2) eqn:E12; try done.
  destruct (String.compare s2 s3) eqn:E23; try done.
  by rewrite (string_compare_lt_trans s1 s2 s3).
Qed.

Lemma string_leb_ne_ltb (s1 s2 : string) :
  String.leb s1 s2 = true -> s1 <> s2 -> String.ltb s1 s2 = true.
Proof.
  unfold String.leb, String.ltb. intros Hle Hne.
  destruct (String.compare s1 s2) eqn:E; try done.
  by apply String.compare_eq_iff in E.
Qed.

Lemma set_add_elem (p q : string) (projects : list string) :
  q ∈ set_add p projects <-> q = p \/ q ∈ projects.
Proof.
  unfold set_add. case_bool_decide as Hp.
  - split; [by right|]. by intros [->|H].
  - rewrite elem_of_app, list_elem_of_singleton. tauto.
Qed.

Lemma set_add_NoDup (p : string) (projects : list string) :
  NoDup projects -> NoDup (set_add p projects).
Proof.
  intros Hnd. unfold set_add. case_bool_decide as Hp; [done|].
  apply NoDup_app. split; [done|]. split; [|apply NoDup_singleton].
  intros x Hx Hx'. apply list_elem_of_singleton in Hx'. by subst.
Qed.

Lemma projects_fold (sessions : list Session) :
  forall projects,
    NoDup projects ->
    let projects' :=
      fold_left
        (fun projects session =>
           if nonEmptyString (s_project session)
           then set_add (s_project session) projects
           else projects)
        sessions projects in
    NoDup projects'
    /\ forall p, p ∈ projects'
                 <-> p ∈ projects
                     \/ (p <> EmptyString /\ exists s, s ∈ sessions /\ s_project s = p).
Proof.
  induction sessions as [|session rest IH]; intros projects Hnd; simpl.
  - split; [done|]. intros p. split; [by left|].
    intros [H|(_ & s & Hs & _)]; [done|by apply elem_of_nil in Hs].
  - destruct (nonEmptyString (s_project session)) eqn:Hne.
    + destruct (IH (set_add (s_project session) projects)
                  (set_add_NoDup _ _ Hnd)) as [Hnd' Hin].
      split; [done|]. intros p. rewrite Hin, set_add_elem. split.
      * intros [[->|H]|(Hp & s & Hs & Heq)].
        -- right. split; [by destruct (s_project session)|].
           exists session. split; [left|done].
        -- by left.
        -- right. split; [done|]. exists s. split; [by right|done].
      * intros [H|(Hp & s & Hs & Heq)]; [left; by right|].
        apply elem_of_cons in Hs as [->|Hs]; [left; by left|].
        right. split; [done|]. by exists s.
    + destruct (IH projects Hnd) as [Hnd' Hin]. split; [done|].
      intros p. rewrite Hin. split.
      * intros [H|(Hp & s & Hs & Heq)]; [by left|].
        right. split; [done|]. exists s. split; [by right|done].
      * intros [H|(Hp & s & Hs & Heq)]; [by left|].
        apply elem_of_cons in Hs as [->|Hs].
        -- subst p. by destruct (s_project session).
        -- right. split; [done|]. by exists s.
Qed.

Lemma Sorted_strict (l : list string) :
  Sorted (fun a b => String.leb a b = true) l -> NoDup l ->
  StronglySorted (fun a b => String.ltb a b = true) l.
Proof.
  intros Hs Hnd. apply Sorted_StronglySorted.
  { intros x y z. apply string_ltb_trans. }
  induction Hs as [|a l Hl IH Hhd]; [constructor|].
  apply NoDup_cons in Hnd as [Ha Hnd].
  constructor; [by apply IH|].
  destruct Hhd as [|b l Hab]; constructor.
  apply string_leb_ne_ltb; [done|]. intros ->. apply Ha. left.
Qed.

(** [getProjects] returns the projects of the sessions, the empty one left
    out, each once and in strictly ascending order of their characters. *)
Theorem getProjects_sorted_distinct (sessions : list Session) :
  StronglySorted (fun a b => String.ltb a b = true) (getProjects sessions)
  /\ forall p, p ∈ getProjects sessions
               <-> p <> EmptyString /\ exists s, s ∈ sessions /\ s_project s = p.
Proof.
  unfold getProjects.
  destruct (projects_fold sessions [] (@NoDup_nil_2 string)) as [Hnd Hin]. cbv zeta in *.
  set (projects := fold_left _ sessions []) in *.
  split.
  - apply Sorted_strict.
    + apply stableSort_sorted. intros x y Hxy.
      destruct (String.leb_total x y) as [H|H]; [congruence|done].
    + by rewrite <- (stableSort_perm String.leb).
  - intros p. rewrite <- (stableSort_perm String.leb), Hin.
    split; [intros [H|H]; [by apply elem_of_nil in H|done]|by right].
Qed.

(* ===================================================================== *)
(** ** The usage summary against the usage of each session *)
(* ===================================================================== *)

Lemma indexAgrees_empty fs : indexAgrees fs ∅.
Proof. intros id p H. by rewrite lookup_empty in H. Qed.

Lemma findSessionFile_miss fs sessionId (idx : gmap string Path) :
  idx !! sessionId = None ->
  findSessionFile fs sessionId idx
  = (fst (findSessionFile fs sessionId ∅),
     match fst (findSessionFile fs sessionId ∅) with
     | Ok (Some p) => <[ sessionId := p ]> idx
     | _ => idx
     end).
Proof.
  intros Hidx. unfold findSessionFile. rewrite Hidx, lookup_empty.
  destruct (readdir_projects fs) as [projectDirs|]; [|done].
  by destruct (List.find _ _) as [[p|]|].
Qed.

Lemma findSessionFile_agrees fs sessionId (idx : gmap string Path) :
  indexAgrees fs idx ->
  fst (findSessionFile fs sessionId idx) = fst (findSessionFile fs sessionId ∅)
  /\ indexAgrees fs (snd (findSessionFile fs sessionId idx)).
Proof.
  intros Hidx. destruct (idx !! sessionId) as [p|] eqn:Hp.
  - unfold findSessionFile at 1 3. rewrite Hp. simpl.
    split; [symmetry; by apply Hidx|done].
  - rewrite (findSessionFile_miss fs sessionId idx Hp). simpl. split; [done|].
    destruct (fst (findSessionFile fs sessionId ∅)) as [[p|]|] eqn:Hscan; try done.
    intros id q Hq. destruct (decide (id = sessionId)) as [->|Hne].
    + rewrite lookup_insert_eq in Hq. by injection Hq as <-.
    + rewrite lookup_insert_ne in Hq by done. by apply Hidx.
Qed.

Section IndexAgreement.

Variable JSON_parse : list ascii -> option ConversationMessage.

Lemma getConversation_agrees fs sessionId (idx : gmap string Path) :
  indexAgrees fs idx ->
  fst (getConversation JSON_parse fs sessionId idx)
  = Ok (conversationOf JSON_parse fs sessionId)
  /\ indexAgrees fs (snd (getConversation JSON_parse fs sessionId idx)).
Proof.
  intros Hidx. destruct (findSessionFile_agrees fs sessionId idx Hidx) as [Hfst Hsnd].
  unfold conversationOf.
  destruct (findSessionFile fs sessionId idx) as [r idx'] eqn:Hfind.
  destruct (findSessionFile fs sessionId ∅) as [r0 idx0] eqn:Hfind0.
  simpl in Hfst, Hsnd. subst r0.
  destruct r as [[p|]|e].
  - rewrite (getConversation_resolved JSON_parse _ _ _ _ _ Hfind).
    by rewrite (getConversation_resolved JSON_parse _ _ _ _ _ Hfind0).
  - rewrite (getConversation_unresolved JSON_parse _ _ _ _ Hfind).
    by rewrite (getConversation_unresolved JSON_parse _ _ _ _ Hfind0).
  - destruct (findSessionFile_cases fs sessionId idx) as [[p Hp]|[Hn _]]; congruence.
Qed.

Lemma getSessionUsage_agrees fs sessions sessionId (idx : gmap string Path) :
  indexAgrees fs idx ->
  fst (getSessionUsage JSON_parse fs sessions sessionId idx)
  = Ok (sessionUsageOf JSON_parse fs sessions sessionId)
  /\ indexAgrees fs (snd (getSessionUsage JSON_parse fs sessions sessionId idx)).
Proof.
  intros Hidx. unfold sessionUsageOf, getSessionUsage, bind.
  destruct (getConversation_agrees fs sessionId idx Hidx) as [Hfst Hsnd].
  destruct (getConversation_agrees fs sessionId ∅ (indexAgrees_empty fs)) as [Hfst0 _].
  destruct (getConversation JSON_parse fs sessionId idx) as [r idx'].
  destruct (getConversation JSON_parse fs sessionId ∅) as [r0 idx0].
  simpl in *. subst r r0.
  by destruct (length (conversationOf JSON_parse fs sessionId) =? 0)%nat.
Qed.

Lemma sessionUsageOf_conversation fs sessions sessionId :
  sessionUsageOf JSON_parse fs sessions sessionId
  = if (length (conversationOf JSON_parse fs sessionId) =? 0)%nat then None
    else Some (fold_left sessionUsageStep (conversationOf JSON_parse fs sessionId)
                 (initialSessionUsage sessions sessionId)).
Proof.
  unfold sessionUsageOf, getSessionUsage, bind.
  destruct (getConversation_agrees fs sessionId ∅ (indexAgrees_empty fs)) as [Hfst0 _].
  destruct (getConversation JSON_parse fs sessionId ∅) as [r0 idx0].
  simpl in *. subst r0.
  by destruct (length (conversationOf JSON_parse fs sessionId) =? 0)%nat.
Qed.

End IndexAgreement.

Lemma steps_sameGrowth a st msg :
  sameGrowth a (sessionUsageStep a msg) st (summaryMessageStep st msg).
Proof.
  destruct st as [acc t]. unfold sameGrowth, sessionUsageStep, summaryMessageStep.
  destruct (assistantUsage msg) as [[u mdl]|]; destruct (isUserOrAssistant msg); simpl;
    repeat split; try lia; ring.
Qed.

Lemma sameGrowth_trans a1 a2 a3 st1 st2 st3 :
  sameGrowth a1 a2 st1 st2 -> sameGrowth a2 a3 st2 st3 -> sameGrowth a1 a3 st1 st3.
Proof.
  intros (H1 & H2 & H3 & H4 & H5 & H6) (K1 & K2 & K3 & K4 & K5 & K6).
  unfold sameGrowth. repeat split; try lia.
  transitivity ((su_estimatedCost a3 - su_estimatedCost a2)
                + (su_estimatedCost a2 - su_estimatedCost a1))%Q; [ring|].
  rewrite H6, K6. ring.
Qed.

Lemma folds_sameGrowth msgs :
  forall a st,
    sameGrowth a (fold_left sessionUsageStep msgs a) st (fold_left summaryMessageStep msgs st).
Proof.
  induction msgs as [|msg rest IH]; intros a st; simpl.
  - unfold sameGrowth. repeat split; try lia; ring.
  - eapply sameGrowth_trans; [apply steps_sameGrowth|apply IH].
Qed.

Lemma summaryMessages_messageCount msgs :
  forall st, messageCount (fst (fold_left summaryMessageStep msgs st)) = messageCount (fst st).
Proof.
  induction msgs as [|msg rest IH]; intros st; simpl; [done|].
  rewrite IH. destruct st as [acc t]. unfold summaryMessageStep.
  destruct (assistantUsage msg) as [[u mdl]|]; by destruct (isUserOrAssistant msg).
Qed.

Lemma summaryMessages_counted msgs :
  forall st,
    countedUsage (snd st) -> countedUsage (snd (fold_left summaryMessageStep msgs st)).
Proof.
  induction msgs as [|msg rest IH]; intros st Hc; simpl; [done|].
  by apply IH, summaryMessageStep_counted.
Qed.

Lemma summarySessionStep_grows st session msgs st' sessions sessionId :
  summarySessionStep st session msgs = Ok st' ->
  totalsGrowBy (fst st) (fst st')
    (fold_left sessionUsageStep msgs (initialSessionUsage sessions sessionId)).
Proof.
  destruct st as [acc byDateMap]. unfold summarySessionStep. intros Hstep.
  pose proof (folds_sameGrowth msgs (initialSessionUsage sessions sessionId)
                (acc, zeroSessionTotals)) as (G1 & G2 & G3 & G4 & G5 & G6).
  pose proof (summaryMessages_totals msgs (acc, zeroSessionTotals)) as Htot.
  pose proof (summaryMessages_messageCount msgs (acc, zeroSessionTotals)) as Hmc.
  pose proof (summaryMessages_counted msgs (acc, zeroSessionTotals) zero_totals_counted)
    as [Hpos Hzero].
  cbv zeta in Htot.
  set (u := fold_left sessionUsageStep msgs (initialSessionUsage sessions sessionId)) in *.
  destruct (fold_left summaryMessageStep msgs (acc, zeroSessionTotals)) as [acc1 t].
  simpl in *. destruct Htot as (Hti & Hto & Htc & _).
  assert (su_estimatedCost u == sessionCost t)%Q as Hcost.
  { transitivity (su_estimatedCost u - 0)%Q; [ring|]. rewrite G6. ring. }
  destruct (sessionMessageCount t >? 0) eqn:Hcount.
  - destruct (toISODate (s_timestamp session)) as [dateStr|]; [|done].
    injection Hstep as <-. unfold totalsGrowBy. simpl.
    repeat split; try lia. rewrite Htc, Hcost. ring.
  - injection Hstep as <-. unfold totalsGrowBy. simpl.
    destruct Hzero as (Hi & Ho & Hc); [lia|].
    repeat split; try lia. rewrite Htc, Hcost, Hc. ring.
Qed.

Section SummaryOfSessions.

Variable JSON_parse : list ascii -> option ConversationMessage.

Lemma summaryLoop_grows fs sessions filteredSessions :
  forall st (idx : gmap string Path) st',
    indexAgrees fs idx ->
    fst (summaryLoop JSON_parse fs filteredSessions st idx) = Ok st' ->
    let usages := map (sessionFigures JSON_parse fs sessions) filteredSessions in
    totalInputTokens (fst st') = totalInputTokens (fst st) + sumZ su_totalInputTokens usages
    /\ totalOutputTokens (fst st')
       = totalOutputTokens (fst st) + sumZ su_totalOutputTokens usages
    /\ totalCacheCreationTokens (fst st')
       = totalCacheCreationTokens (fst st) + sumZ su_cacheCreationTokens usages
    /\ totalCacheReadTokens (fst st')
       = totalCacheReadTokens (fst st) + sumZ su_cacheReadTokens usages
    /\ messageCount (fst st') = messageCount (fst st) + sumZ su_messageCount usages
    /\ (totalEstimatedCost (fst st')
        == totalEstimatedCost (fst st) + sumQ su_estimatedCost usages)%Q.
Proof.
  induction filteredSessions as [|session rest IH]; intros st idx st' Hidx; simpl.
  - unfold ret. simpl. intros [= ->]. repeat split; try lia. ring.
  - unfold bind.
    destruct (getConversation_agrees JSON_parse fs (s_id session) idx Hidx) as [Hmsgs Hidx1].
    destruct (getConversation JSON_parse fs (s_id session) idx) as [r idx1].
    simpl in Hmsgs, Hidx1. subst r. unfold lift.
    destruct (summarySessionStep st session _) as [st1|e] eqn:Hstep; [|done].
    intros Hloop.
    destruct (IH st1 idx1 st' Hidx1 Hloop) as (I1 & I2 & I3 & I4 & I5 & I6).
    destruct (summarySessionStep_grows _ _ _ _ sessions (s_id session) Hstep)
      as (G1 & G2 & G3 & G4 & G5 & G6).
    fold (sessionFigures JSON_parse fs sessions session) in G1, G2, G3, G4, G5, G6.
    repeat split; try lia. rewrite I6, G6. ring.
Qed.

Lemma sumZ_usages (f : SessionUsage -> Z) fs sessions (l : list Session) :
  (forall sessionId, f (initialSessionUsage sessions sessionId) = 0) ->
  sumZ f (map (sessionFigures JSON_parse fs sessions) l)
  = sumZ f (omap (fun session => sessionUsageOf JSON_parse fs sessions (s_id session)) l).
Proof.
  intros Hf. induction l as [|session rest IH]; simpl; [done|].
  rewrite sessionUsageOf_conversation. unfold sessionFigures at 1.
  destruct (conversationOf JSON_parse fs (s_id session)) as [|m msgs] eqn:Hmsgs; simpl.
  - rewrite Hf. fold (omap (fun session => sessionUsageOf JSON_parse fs sessions (s_id session)) rest).
    lia.
  - fold (omap (fun session => sessionUsageOf JSON_parse fs sessions (s_id session)) rest).
    simpl. by rewrite IH.
Qed.

Lemma sumQ_usages fs sessions (l : list Session) :
  (sumQ su_estimatedCost (map (sessionFigures JSON_parse fs sessions) l)
   == sumQ su_estimatedCost
        (omap (fun session => sessionUsageOf JSON_parse fs sessions (s_id session)) l))%Q.
Proof.
  induction l as [|session rest IH]; simpl; [done|].
  rewrite sessionUsageOf_conversation. unfold sessionFigures at 1.
  destruct (conversationOf JSON_parse fs (s_id session)) as [|m msgs] eqn:Hmsgs; simpl.
  - fold (omap (fun session => sessionUsageOf JSON_parse fs sessions (s_id session)) rest).
    rewrite IH. ring.
  - fold (omap (fun session => sessionUsageOf JSON_parse fs sessions (s_id session)) rest).
    simpl. by rewrite IH.
Qed.

(** The grand totals of a usage summary are the sums, over the sessions
    that pass its filters, of the figures [getSessionUsage] gives for each:
    input, output and cache tokens, messages and cost. *)
Theorem usage_summary_sums_sessions fs sessions options (idx : gmap string Path) s :
  indexAgrees fs idx ->
  fst (getUsageSummary JSON_parse fs sessions options idx) = Ok s ->
  let usages :=
    omap (fun session => sessionUsageOf JSON_parse fs sessions (s_id session))
         (filterSessions sessions options) in
  totalInputTokens s = sumZ su_totalInputTokens usages
  /\ totalOutputTokens s = sumZ su_totalOutputTokens usages
  /\ totalCacheCreationTokens s = sumZ su_cacheCreationTokens usages
  /\ totalCacheReadTokens s = sumZ su_cacheReadTokens usages
  /\ messageCount s = sumZ su_messageCount usages
  /\ (totalEstimatedCost s == sumQ su_estimatedCost usages)%Q.
Proof.
  intros Hidx Hs usages.
  destruct (getUsageSummary_state JSON_parse _ _ _ _ _ Hs)
    as (acc & byDateMap & Hloop & -> & -> & -> & -> & -> & _ & -> & _).
  destruct (summaryLoop_grows fs sessions _ _ _ _ Hidx Hloop)
    as (I1 & I2 & I3 & I4 & I5 & I6).
  simpl in *. unfold usages.
  rewrite <- !sumZ_usages by done. rewrite <- sumQ_usages.
  repeat split; try lia. rewrite I6. ring.
Qed.

End SummaryOfSessions.

Lemma usage_summary_sums_sessions_witness :
  exists s,
    fst (getUsageSummary sampleParse usageFS usageSessions None ∅) = Ok s
    /\ totalInputTokens s = 3000000
    /\ map su_totalInputTokens
         (omap (fun session => sessionUsageOf sampleParse usageFS usageSessions (s_id session))
               usageSessions)
       = [2000000; 0; 1000000]
    /\ messageCount s
       = sumZ su_messageCount
           (omap (fun session => sessionUsageOf sampleParse usageFS usageSessions (s_id session))
                 (filterSessions usageSessions None)).
Proof.
  eexists. split; [vm_compute; reflexivity|]. split; [reflexivity|].
  split; [vm_compute; reflexivity|].
  apply (usage_summary_sums_sessions sampleParse usageFS usageSessions None ∅).
  - apply indexAgrees_empty.
  - vm_compute. reflexivity.
Defined.

(* ===================================================================== *)
(** ** Sessions with their usage *)
(* ===================================================================== *)

Lemma length_slice {A : Type} (l : list A) (start end_ : Z) :
  0 <= start -> 0 <= end_ ->
  Z.of_nat (length (slice l start end_))
  = Z.max 0 (Z.min end_ (Z.of_nat (length l)) - Z.min start (Z.of_nat (length l))).
Proof.
  intros Hs He. unfold slice.
  destruct (start <? 0) eqn:Hs'; [lia|]. destruct (end_ <? 0) eqn:He'; [lia|].
  rewrite length_take, length_drop. lia.
Qed.

Lemma slice_sublist {A : Type} (l : list A) (start end_ : Z) :
  slice l start end_ `sublist_of` l.
Proof.
  unfold slice. etransitivity; [apply sublist_take|apply sublist_drop].
Qed.

Lemma StronglySorted_sublist {A : Type} (R : A -> A -> Prop) (l1 l2 : list A) :
  l1 `sublist_of` l2 -> StronglySorted R l2 -> StronglySorted R l1.
Proof.
  induction 1 as [|x l1 l2 Hsub IH|x l1 l2 Hsub IH]; intros Hs.
  - constructor.
  - inversion Hs as [|? ? Hs' Hall]; subst. constructor; [by apply IH|].
    rewrite Forall_forall in Hall. apply Forall_forall. intros y Hy. apply Hall.
    by eapply elem_of_sublist.
  - inversion Hs; subst. by apply IH.
Qed.

Lemma StronglySorted_slice {A : Type} (R : A -> A -> Prop) (l : list A) (start end_ : Z) :
  StronglySorted R l -> StronglySorted R (slice l start end_).
Proof. apply StronglySorted_sublist, slice_sublist. Qed.

Lemma StronglySorted_weaken {A : Type} (R R' : A -> A -> Prop) (l : list A) :
  (forall a b, R a b -> R' a b) -> StronglySorted R l -> StronglySorted R' l.
Proof.
  intros HR. induction 1 as [|a l _ IH Hall]; constructor; [done|].
  eapply Forall_impl; [exact Hall|]. intros b. apply HR.
Qed.

Lemma stableSort_strongly {A : Type} (before : A -> A -> bool) (l : list A) :
  (forall x y, before x y = false -> before y x = true) ->
  (forall x y z, before x y = true -> before y z = true -> before x z = true) ->
  StronglySorted (fun x y => before x y = true) (stableSort before l).
Proof.
  intros Htotal Htrans. apply Sorted_StronglySorted; [exact Htrans|].
  by apply stableSort_sorted.
Qed.

Section SessionsWithUsageProperties.

Variable JSON_parse : list ascii -> option ConversationMessage.
Variable Date_getTime : string -> option Z.

Lemma getSessionUsage_total fs sessions sessionId (idx : gmap string Path) :
  exists usage idx',
    getSessionUsage JSON_parse fs sessions sessionId idx = (Ok usage, idx').
Proof.
  unfold getSessionUsage, bind.
  destruct (getConversation_total JSON_parse fs sessionId idx) as (msgs & idx' & ->).
  destruct (length msgs =? 0)%nat; by eexists _, _.
Qed.

Lemma usageLoop_total fs sessions filteredSessions :
  forall acc (idx : gmap string Path),
    exists l idx', usageLoop JSON_parse fs sessions filteredSessions acc idx = (Ok l, idx').
Proof.
  induction filteredSessions as [|session rest IH]; intros acc idx; simpl.
  - by eexists _, _.
  - unfold bind.
    destruct (getSessionUsage_total fs sessions (s_id session) idx) as (u & idx1 & ->).
    apply IH.
Qed.

Lemma usageLoop_agrees fs sessions filteredSessions :
  forall acc (idx : gmap string Path),
    indexAgrees fs idx ->
    fst (usageLoop JSON_parse fs sessions filteredSessions acc idx)
    = Ok (acc ++ omap (fun session => sessionUsageOf JSON_parse fs sessions (s_id session))
                      filteredSessions).
Proof.
  induction filteredSessions as [|session rest IH]; intros acc idx Hidx; simpl.
  - by rewrite app_nil_r.
  - unfold bind.
    destruct (getSessionUsage_agrees JSON_parse fs sessions (s_id session) idx Hidx)
      as [Hu Hidx1].
    destruct (getSessionUsage JSON_parse fs sessions (s_id session) idx) as [r idx1].
    simpl in Hu, Hidx1. subst r. rewrite (IH _ idx1 Hidx1).
    fold (omap (fun session => sessionUsageOf JSON_parse fs sessions (s_id session)) rest).
    destruct (sessionUsageOf JSON_parse fs sessions (s_id session)); [|done].
    by rewrite <- app_assoc.
Qed.

(** [getSessionsWithUsage] does not reject.  Its [total] is the number of
    sessions of the chosen project for which [getSessionUsage] is not
    [null], whatever [limit], [offset] and [sortBy] are. *)
Theorem getSessionsWithUsage_total fs sessions options (idx : gmap string Path) :
  indexAgrees fs idx ->
  let project := options ≫= lo_project in
  let filteredSessions :=
    if truthy project
    then List.filter (fun s => String.eqb (s_project s) (or_else project "")) sessions
    else sessions in
  exists r,
    fst (getSessionsWithUsage JSON_parse Date_getTime fs sessions options idx) = Ok r
    /\ swu_total r
       = Z.of_nat
           (length (omap (fun session => sessionUsageOf JSON_parse fs sessions (s_id session))
                         filteredSessions)).
Proof.
  intros Hidx project filteredSessions. unfold getSessionsWithUsage, bind.
  fold project. fold filteredSessions.
  pose proof (usageLoop_agrees fs sessions filteredSessions [] idx Hidx) as Hloop.
  destruct (usageLoop JSON_parse fs sessions filteredSessions [] idx) as [r idx'].
  simpl in Hloop. subst r. simpl. by eexists.
Qed.

(** The page [getSessionsWithUsage] returns holds, from [offset] on, at
    most [limit] of the [total] sessions with usage, as many as there are:
    a [limit] that is missing or [0] counts as [50]. *)
Theorem getSessionsWithUsage_page fs sessions options (idx : gmap string Path) :
  let limit := number_or (options ≫= lo_limit) 50 in
  let offset := number_or (options ≫= lo_offset) 0 in
  0 <= offset -> 0 <= limit ->
  exists r,
    fst (getSessionsWithUsage JSON_parse Date_getTime fs sessions options idx) = Ok r
    /\ 0 <= swu_total r
    /\ Z.of_nat (length (swu_sessions r)) = Z.min limit (Z.max 0 (swu_total r - offset)).
Proof.
  intros limit offset Hoff Hlim. unfold getSessionsWithUsage, bind.
  fold limit. fold offset.
  destruct (usageLoop_total fs sessions
              (if truthy (options ≫= lo_project)
               then List.filter
                      (fun s => String.eqb (s_project s) (or_else (options ≫= lo_project) ""))
                      sessions
               else sessions) [] idx) as (l & idx' & ->).
  simpl. eexists. split; [done|]. simpl. split; [lia|].
  rewrite length_slice by lia.
  rewrite <- (Permutation_length (stableSort_perm _ l)). lia.
Qed.

Lemma Qle_bool_total (x y : Q) : Qle_bool x y = false -> Qle_bool y x = true.
Proof.
  intros H. apply Qle_bool_iff. apply Qlt_le_weak, Qnot_le_lt.
  intros Hle. apply Qle_bool_iff in Hle. congruence.
Qed.

Lemma Qle_bool_trans (x y z : Q) :
  Qle_bool y x = true -> Qle_bool z y = true -> Qle_bool z x = true.
Proof. rewrite !Qle_bool_iff. intros H1 H2. by eapply Qle_trans. Qed.

(** With [sortBy] ["cost"] the page [getSessionsWithUsage] returns is in
    descending order of estimated cost, with ["tokens"] in descending order
    of input and output tokens taken together. *)
Theorem getSessionsWithUsage_order fs sessions options (idx : gmap string Path) :
  exists r,
    fst (getSessionsWithUsage JSON_parse Date_getTime fs sessions options idx) = Ok r
    /\ (options ≫= lo_sortBy = Some "cost"%string ->
        StronglySorted (fun a b => (su_estimatedCost b <= su_estimatedCost a)%Q)
          (swu_sessions r))
    /\ (options ≫= lo_sortBy = Some "tokens"%string ->
        StronglySorted
          (fun a b => su_totalInputTokens b + su_totalOutputTokens b
                      <= su_totalInputTokens a + su_totalOutputTokens a)
          (swu_sessions r)).
Proof.
  unfold getSessionsWithUsage, bind.
  destruct (usageLoop_total fs sessions
              (if truthy (options ≫= lo_project)
               then List.filter
                      (fun s => String.eqb (s_project s) (or_else (options ≫= lo_project) ""))
                      sessions
               else sessions) [] idx) as (l & idx' & ->).
  simpl. eexists. split; [done|]. simpl. split.
  - intros ->. simpl. apply StronglySorted_slice.
    eapply StronglySorted_weaken;
      [|apply (stableSort_strongly (usageBefore Date_getTime "cost"))].
    + intros a b Hb. by apply Qle_bool_iff.
    + intros x y. apply Qle_bool_total.
    + intros x y z. apply Qle_bool_trans.
  - intros ->. simpl. apply StronglySorted_slice.
    eapply StronglySorted_weaken;
      [|apply (stableSort_strongly (usageBefore Date_getTime "tokens"))].
    + intros a b Hb. unfold usageBefore in Hb. simpl in Hb. lia.
    + intros x y. unfold usageBefore. simpl. lia.
    + intros x y z. unfold usageBefore. simpl. lia.
Qed.

End SessionsWithUsageProperties.

Lemma getSessionsWithUsage_total_witness :
  exists r,
    fst (getSessionsWithUsage sampleParse noDates usageFS usageSessions (Some pageOptions) ∅)
    = Ok r
    /\ swu_total r
       = Z.of_nat
           (length (omap (fun session =>
                            sessionUsageOf sampleParse usageFS usageSessions (s_id session))
                         usageSessions)).
Proof.
  apply (getSessionsWithUsage_total sampleParse noDates usageFS usageSessions
           (Some pageOptions) ∅).
  apply indexAgrees_empty.
Defined.

Lemma getSessionsWithUsage_page_witness :
  exists r,
    fst (getSessionsWithUsage sampleParse noDates usageFS usageSessions (Some pageOptions) ∅)
    = Ok r
    /\ 0 <= swu_total r
    /\ Z.of_nat (length (swu_sessions r)) = Z.min 2 (Z.max 0 (swu_total r - 1)).
Proof.
  apply (getSessionsWithUsage_page sampleParse noDates usageFS usageSessions
           (Some pageOptions) ∅); simpl; lia.
Defined.

Example getSessionsWithUsage_second_page :
  exists r,
    fst (getSessionsWithUsage sampleParse noDates usageFS usageSessions (Some pageOptions) ∅)
    = Ok r
    /\ swu_total r = 3
    /\ map (fun u => (su_sessionId u, su_totalInputTokens u)) (swu_sessions r)
       = [("s1", 1000000); ("s2", 0)]%string.
Proof. eexists. split; [vm_compute; reflexivity|]. split; reflexivity. Qed.

(* ===================================================================== *)
(** ** Prices of models and usage *)
(* ===================================================================== *)

Lemma calculateCost_sum (u : TokenUsage) (mdl : option string) :
  (calculateCost u mdl ==
     perMillion (input_tokens u) * inputPerMillion (getModelPricing mdl)
     + perMillion (output_tokens u) * outputPerMillion (getModelPricing mdl)
     + perMillion (count_or_zero (cache_creation_input_tokens u))
       * inputPerMillion (getModelPricing mdl) * cacheWriteMultiplier (getModelPricing mdl)
     + perMillion (count_or_zero (cache_read_input_tokens u))
       * inputPerMillion (getModelPricing mdl) * cacheReadMultiplier (getModelPricing mdl))%Q.
Proof. unfold calculateCost. cbv zeta. rewrite !cache_cost_default. reflexivity. Qed.

Lemma perMillion_plus (a b : Z) : (perMillion (a + b) == perMillion a + perMillion b)%Q.
Proof. unfold perMillion. rewrite inject_Z_plus. field. Qed.





(** The cost of the tokens of two usage records taken together is the sum
    of the costs of the two, under the pricing of the same model. *)
Theorem calculateCost_additive (u1 u2 : TokenUsage) (mdl : option string) :
  (calculateCost (addUsage u1 u2) mdl == calculateCost u1 mdl + calculateCost u2 mdl)%Q.
Proof.
  rewrite !calculateCost_sum. unfold addUsage. simpl.
  rewrite !perMillion_plus. ring.
Qed.




(* ===================================================================== *)
(** ** Names of projects and display texts *)
(* ===================================================================== *)

Lemma split_on_nonempty (sep : ascii) (s : string) : split_on sep s <> [].
Proof.
  destruct s as [|c s]; simpl; [done|].
  destruct (Ascii.eqb c sep); [done|]. by destruct (split_on sep s).
Qed.

Lemma split_on_append (sep : ascii) (a b : string) :
  split_on sep (a +:+ String sep b) = split_on sep a ++ split_on sep b.
Proof.
  induction a as [|c a IH].
  - rewrite append_nil. simpl. by rewrite Ascii.eqb_refl.
  - rewrite append_cons. simpl. rewrite IH.
    destruct (Ascii.eqb c sep); [done|].
    pose proof (split_on_nonempty sep a) as Hne.
    by destruct (split_on sep a).
Qed.

Lemma split_on_whole (sep : ascii) (s : string) :
  hasChar sep s = false -> split_on sep s = [s].
Proof.
  induction s as [|c s IH]; simpl; [done|].
  destruct (Ascii.eqb c sep); [done|]. simpl. intros H. by rewrite IH.
Qed.

Lemma last_segment (sep : ascii) (a name dflt : string) :
  name <> EmptyString -> hasChar sep name = false ->
  last_or (List.filter nonEmptyString (split_on sep (a +:+ String sep name))) dflt = name.
Proof.
  intros Hne Hsep. rewrite split_on_append, (split_on_whole sep name Hsep).
  rewrite List.filter_app. simpl.
  destruct name as [|c name]; [done|]. simpl.
  unfold last_or. by rewrite last_snoc.
Qed.

Lemma split_on_separators (sep : ascii) (s : string) :
  onlyChar sep s = true ->
  exists ps, split_on sep s = EmptyString :: ps /\ List.filter nonEmptyString ps = [].
Proof.
  induction s as [|c s IH]; simpl; [by exists []|].
  intros H. apply andb_true_iff in H as [Hc Hs]. rewrite Hc.
  destruct (IH Hs) as (ps & -> & Hps). by exists (EmptyString :: ps).
Qed.

Lemma split_on_trailing (sep : ascii) (name trail : string) :
  hasChar sep name = false -> onlyChar sep trail = true ->
  exists ps, split_on sep (name +:+ trail) = name :: ps
             /\ List.filter nonEmptyString ps = [].
Proof.
  intros Hname Htrail. induction name as [|c name IH].
  - rewrite append_nil. by apply split_on_separators.
  - rewrite append_cons. simpl in *.
    destruct (Ascii.eqb c sep); [done|]. simpl in Hname.
    destruct (IH Hname) as (ps & -> & Hps). by exists ps.
Qed.

Lemma last_segment_trailing (sep : ascii) (a name trail dflt : string) :
  name <> EmptyString -> hasChar sep name = false -> onlyChar sep trail = true ->
  last_or (List.filter nonEmptyString (split_on sep (a +:+ String sep (name +:+ trail))))
          dflt = name.
Proof.
  intros Hne Hsep Htrail. rewrite split_on_append.
  destruct (split_on_trailing sep name trail Hsep Htrail) as (ps & -> & Hps).
  rewrite List.filter_app. simpl. rewrite Hps.
  destruct name as [|c name]; [done|]. simpl.
  unfold last_or. by rewrite last_snoc.
Qed.

(** The name of a project is the last segment of its path: what stands
    between the last [/] that something follows and the end, slashes at the
    end left out. *)
Theorem getProjectName_last_segment (dir name trail : string) :
  name <> EmptyString -> hasChar "/" name = false -> onlyChar "/" trail = true ->
  getProjectName (dir +:+ "/" +:+ name +:+ trail) = name.
Proof.
  intros Hne Hsep Htrail. unfold getProjectName.
  change ("/" +:+ name +:+ trail)%string with (String "/" (name +:+ trail)).
  by apply last_segment_trailing.
Qed.

Lemma getProjectName_last_segment_witness :
  getProjectName ("/Users/me" +:+ "/" +:+ "claude-run" +:+ "//") = "claude-run"%string.
Proof. by apply getProjectName_last_segment. Defined.

Lemma encodeProjectPath_append (a b : string) :
  encodeProjectPath (a +:+ b) = (encodeProjectPath a +:+ encodeProjectPath b)%string.
Proof.
  induction a as [|c a IH]; [done|].
  rewrite append_cons. simpl. by rewrite IH, append_cons.
Qed.

Lemma encodeProjectPath_plain (s : string) :
  hasChar "/" s = false -> hasChar "." s = false -> encodeProjectPath s = s.
Proof.
  induction s as [|c s IH]; simpl; [done|].
  unfold encode_char.
  destruct (Ascii.eqb c "/"); [done|]. destruct (Ascii.eqb c "."); [done|]. simpl.
  intros H1 H2. by rewrite IH.
Qed.

(** For a project whose last path segment has none of [/], [.] and [-], the
    display name made from the name of its directory is the project name
    made from its path; a segment with [.] or [-] is cut at the last of
    them. *)
Theorem projectDirToDisplayName_encoded (dir name : string) :
  name <> EmptyString ->
  hasChar "/" name = false -> hasChar "." name = false -> hasChar "-" name = false ->
  projectDirToDisplayName (encodeProjectPath (dir +:+ "/" +:+ name))
  = getProjectName (dir +:+ "/" +:+ name).
Proof.
  intros Hne H1 H2 H3. unfold getProjectName at 1.
  rewrite (last_segment "/" dir name) by done.
  rewrite !encodeProjectPath_append, (encodeProjectPath_plain name) by done.
  unfold projectDirToDisplayName.
  change (encodeProjectPath "/") with "-"%string.
  change ("-" +:+ name)%string with (String "-" name).
  by apply last_segment.
Qed.

Lemma projectDirToDisplayName_encoded_witness :
  projectDirToDisplayName (encodeProjectPath ("/Users/me.x" +:+ "/" +:+ "run"))
  = getProjectName ("/Users/me.x" +:+ "/" +:+ "run")
  /\ projectDirToDisplayName (encodeProjectPath "/Users/me/claude-run") = "run"%string
  /\ getProjectName "/Users/me/claude-run" = "claude-run"%string.
Proof.
  split; [by apply projectDirToDisplayName_encoded|]. split; reflexivity.
Defined.




(* ===================================================================== *)
(** ** The entries of the daily series *)
(* ===================================================================== *)




Lemma table_get_elem {V : Type} (k : string) (v : V) (m : list (string * V)) :
  table_get k m = Some v -> (k, v) ∈ m.
Proof.
  induction m as [|[k' v'] m IH]; simpl; [done|].
  destruct (String.eqb k' k) eqn:Hk.
  - apply String.eqb_eq in Hk as ->. intros [= ->]. left.
  - intros H. right. by apply IH.
Qed.

Lemma table_get_NoDup {V : Type} (k : string) (v : V) (m : list (string * V)) :
  NoDup (map fst m) -> (k, v) ∈ m -> table_get k m = Some v.
Proof.
  induction m as [|[k' v'] m IH]; simpl; intros Hnd Hin.
  - by apply elem_of_nil in Hin.
  - apply NoDup_cons in Hnd as [Hk Hnd].
    apply elem_of_cons in Hin as [[= <- <-]|Hin].
    + by rewrite String.eqb_refl.
    + destruct (String.eqb k' k) eqn:Hk'; [|by apply IH].
      apply String.eqb_eq in Hk' as ->. exfalso. apply Hk.
      apply elem_of_list_map. by exists (k, v).
Qed.








Section DailyEntries.

Variable JSON_parse : list ascii -> option ConversationMessage.



End DailyEntries.



(* ===================================================================== *)
(** ** The tail read of a log with carriage returns *)
(* ===================================================================== *)

Lemma readline_crlf_line (l s : list ascii) :
  oneLine l -> readline (l ++ CR :: LF :: s) = l :: readline s.
Proof.
  induction l as [|c l IH]; intros Hl; simpl.
  - reflexivity.
  - apply oneLine_cons in Hl as [[Hlf Hcr] Hl].
    rewrite Hlf, Hcr. by rewrite IH.
Qed.

Lemma readline_unlinesCRLF (lines : list (list ascii)) :
  Forall oneLine lines -> readline (unlinesCRLF lines) = lines.
Proof.
  induction 1 as [|l lines Hl _ IH]; simpl; [done|].
  unfold unlinesCRLF in *. simpl. rewrite <- app_assoc. simpl.
  by rewrite readline_crlf_line, IH.
Qed.

Lemma length_unlinesCRLF (lines : list (list ascii)) :
  length (unlinesCRLF lines) = (length (unlines lines) + length lines)%nat.
Proof.
  induction lines as [|l lines IH]; simpl; [done|].
  unfold unlinesCRLF, unlines in *. simpl. rewrite !length_app, IH. simpl. lia.
Qed.

Section CarriageReturns.

Variable JSON_parse : list ascii -> option ConversationMessage.

(** A tail read from the start of a log whose lines end with CR LF returns
    the messages of all its lines, and an offset that falls short of the
    size of the file by one byte for every line: a line is counted with its
    length and one byte for the break. *)
Theorem tail_read_crlf fs sessionId (idx : gmap string Path) p f
    (lines : list (list ascii)) :
  fst (findSessionFile fs sessionId idx) = Ok (Some p) ->
  lookup_file fs p = Ok f ->
  readable f = true ->
  data f = unlinesCRLF lines ->
  Forall oneLine lines ->
  Forall (goodLine JSON_parse) lines ->
  fst (getConversationStream JSON_parse fs sessionId 0 idx)
  = Ok {| messages := lineMessages JSON_parse lines;
          nextOffset := Z.of_nat (length (data f)) - Z.of_nat (length lines) |}.
Proof.
  intros Hfind Hfile Hread Hdata Hlines Hgood.
  destruct (findSessionFile_cases fs sessionId idx) as [[q Hq]|[Hq _]];
    rewrite Hq in Hfind; simpl in Hfind; [|discriminate].
  injection Hfind as ->.
  rewrite (getConversationStream_resolved _ _ _ _ _ _ _ Hq). simpl.
  rewrite (stat_of_file _ _ _ Hfile), (readFrom_of_file _ _ _ _ Hfile Hread) by lia.
  unfold tailReadResult. cbn [size].
  change (Z.to_nat 0) with 0%nat. rewrite drop_0, Hdata, length_unlinesCRLF.
  destruct (Z.geb_spec 0 (Z.of_nat (length (unlines lines) + length lines))) as [Hge|Hlt].
  - assert (lines = []) as -> by (destruct lines; [done|simpl in Hge; lia]).
    by simpl.
  - rewrite readline_unlinesCRLF by done.
    pose proof (consumeLines_good JSON_parse lines [] Hgood [] 0) as Hc.
    rewrite app_nil_r in Hc. rewrite Hc. cbn [fst snd app consumeLines].
    rewrite !Z.add_0_l.
    destruct (Z.gtb_spec (Z.of_nat (length (unlines lines)))
                (Z.of_nat (length (unlines lines) + length lines))); [lia|].
    f_equal. f_equal. lia.
Qed.

End CarriageReturns.

Lemma tail_read_crlf_witness :
  fst (getConversationStream sampleParse crlfFS "s1" 0 ∅)
  = Ok {| messages := [plainMessage "user"; plainMessage "assistant"];
          nextOffset := 39 - 2 |}.
Proof.
  rewrite (tail_read_crlf sampleParse crlfFS "s1" ∅ s1Path
             {| mtimeMs := 0; data := unlinesCRLF [json userLine; json assistantLine];
                readable := true |}
             [json userLine; json assistantLine]); try reflexivity.
  - constructor; [reflexivity|]. constructor; [reflexivity|constructor].
  - constructor; [sample_parsed|]. constructor; [sample_parsed|constructor].
Defined.

(* ===================================================================== *)
(** ** The sessions found in the project directories *)
(* ===================================================================== *)

Section DiscoveredSessions.

Variable JSON_parse_history : list ascii -> option HistoryEntry.
Variable JSON_parse_line : list ascii -> option LogLine.

Lemma discoverFile_cases fs now seenIds dirName st file :
  discoverFile JSON_parse_line fs now seenIds dirName st file = st
  \/ exists found m,
       foundIn JSON_parse_line fs now dirName file = Some found
       /\ discoverFile JSON_parse_line fs now seenIds dirName st file
          = (fst st ++ [found], m).
Proof.
  destruct st as [results m]. unfold discoverFile, foundIn.
  case_bool_decide; [by left|].
  destruct (readSessionMetadata _ _ _ _) as [meta|].
  - right. by eexists _, _.
  - destruct (stat fs (dirName, file)); [|by left]. right. by eexists _, _.
Qed.

Lemma fold_discoverFile_from fs now seenIds dirName files0 (files : list string) :
  readdir fs dirName = Ok files0 ->
  (forall f, f ∈ files -> f ∈ files0 /\ endsWith f ".jsonl" = true) ->
  forall st,
    Forall (foundFrom JSON_parse_line fs now dirName) (fst st) ->
    Forall (foundFrom JSON_parse_line fs now dirName)
      (fst (fold_left (discoverFile JSON_parse_line fs now seenIds dirName) files st)).
Proof.
  intros Hdir. induction files as [|file rest IH]; intros Hsub st Hst; simpl; [done|].
  apply IH; [intros f Hf; apply Hsub; by right|].
  destruct (discoverFile_cases fs now seenIds dirName st file) as [->|(found & m & Hf & ->)];
    [done|].
  simpl. apply Forall_app. split; [done|]. constructor; [|constructor].
  exists file. split; [|done]. exists files0.
  destruct (Hsub file) as [Hin Hjsonl]; [left|]. by repeat split.
Qed.

Lemma discoverDirectory_from fs now seenIds st dir :
  Forall (fun entry => Forall (foundFrom JSON_parse_line fs now (fst entry)) (snd entry))
    (fst st) ->
  Forall (fun entry => Forall (foundFrom JSON_parse_line fs now (fst entry)) (snd entry))
    (fst (discoverDirectory JSON_parse_line fs now seenIds st dir)).
Proof.
  destruct st as [discovered m]. unfold discoverDirectory. simpl. intros Hst.
  destruct (readdir fs (name dir)) as [files|] eqn:Hfiles.
  - pose proof (fold_discoverFile_from fs now seenIds (name dir) files
                  (List.filter (fun f => endsWith f ".jsonl") files) Hfiles) as Hfold.
    specialize (Hfold (fun f Hf => proj1 (elem_of_filter_list _ _ _) Hf) ([], m)).
    destruct (fold_left _ _ _) as [results m']. simpl in *.
    apply Forall_app. split; [done|]. constructor; [|constructor]. simpl.
    apply Hfold. constructor.
  - simpl. apply Forall_app. split; [done|]. by repeat constructor.
Qed.

Lemma fold_discoverDirectory_from fs now seenIds directories :
  forall st,
    Forall (fun entry => Forall (foundFrom JSON_parse_line fs now (fst entry)) (snd entry))
      (fst st) ->
    Forall (fun entry => Forall (foundFrom JSON_parse_line fs now (fst entry)) (snd entry))
      (fst (fold_left (discoverDirectory JSON_parse_line fs now seenIds) directories st)).
Proof.
  induction directories as [|dir rest IH]; intros st Hst; simpl; [done|].
  by apply IH, discoverDirectory_from.
Qed.

Lemma resolveSession_from resolvedPath st found s :
  s ∈ fst (resolveSession resolvedPath st found) ->
  s ∈ fst st \/ listedAs s found.
Proof.
  destruct st as [sessions seenIds]. unfold resolveSession.
  case_bool_decide; [by left|]. simpl. rewrite elem_of_app, list_elem_of_singleton.
  intros [Hs| ->]; [by left|]. right. unfold listedAs.
  destruct (found_hasCwd found); simpl; [done|].
  by destruct (truthy resolvedPath).
Qed.

Lemma fold_resolveDirectory_from dirToProjectPath discovered s :
  forall st,
    s ∈ fst (fold_left (resolveDirectory dirToProjectPath) discovered st) ->
    s ∈ fst st
    \/ exists entry found, entry ∈ discovered /\ found ∈ snd entry /\ listedAs s found.
Proof.
  induction discovered as [|entry rest IH]; intros st; simpl; [by left|].
  intros H. apply IH in H as [H|(e & found & He & Hf & Hs)].
  - unfold resolveDirectory in H.
    assert (forall results st0,
              s ∈ fst (fold_left (resolveSession (dirToProjectPath !! fst entry)) results st0)
              -> s ∈ fst st0 \/ exists found, found ∈ results /\ listedAs s found) as Hin.
    { induction results as [|found more IHm]; intros st0; simpl; [by left|].
      intros Hs. apply IHm in Hs as [Hs|(f & Hf & Hs)].
      - apply resolveSession_from in Hs as [Hs|Hs]; [by left|].
        right. exists found. split; [left|done].
      - right. exists f. split; [by right|done]. }
    apply Hin in H as [H|(found & Hf & Hs)]; [by left|].
    right. exists entry, found. split; [left|done].
  - right. exists e, found. split; [by right|done].
Qed.

Lemma discoverSessions_from fs now st s :
  s ∈ fst (discoverSessions JSON_parse_line fs now st) ->
  s ∈ fst st
  \/ exists dirName found,
       foundFrom JSON_parse_line fs now dirName found /\ listedAs s found.
Proof.
  unfold discoverSessions.
  destruct (readdir_projects fs) as [projectDirs|]; [|by left].
  pose proof (fold_discoverDirectory_from fs now (snd st)
                (List.filter isDirectory projectDirs) ([], ∅)) as Hfrom.
  destruct (fold_left _ _ _) as [discovered m]. simpl in Hfrom.
  intros H. apply fold_resolveDirectory_from in H as [H|(entry & found & He & Hf & Hs)];
    [by left|].
  right. exists (fst entry), found. split; [|done].
  specialize (Hfrom (Forall_nil_2 _)). rewrite Forall_forall in Hfrom.
  specialize (Hfrom entry He). rewrite Forall_forall in Hfrom. by apply Hfrom.
Qed.

Lemma historySessions_ids fs entries s :
  s ∈ acc_sessions (historySessions fs entries) ->
  exists entry, entry ∈ entries /\ entrySessionId fs entry = Some (s_id s).
Proof.
  intros Hs.
  destruct (historySessions_idsSeen fs entries) as [_ Hseen]. simpl in Hseen.
  assert (s_id s ∈ acc_seenIds (historySessions fs entries)) as Hid.
  { apply Hseen, elem_of_list_map. by exists s. }
  unfold historySessions in Hid. apply fold_addHistoryEntry_seen in Hid as [Hid|(_ & H)];
    [|done].
  simpl in Hid. by apply elem_of_empty in Hid.
Qed.

(** A log that the history does not give and whose name no other log
    shares is listed as a session: with the display text and the timestamp
    of its metadata, and with their project when they name one; or, when the
    log has no user message with content, as an untitled conversation at the
    time the file was last modified. *)
Theorem getSessions_discovered fs historyFile now c dirName file :
  sessionCache c = None ->
  listedLog fs dirName file ->
  (forall entry, entry ∈ historyEntries JSON_parse_history historyFile c ->
                 entrySessionId fs entry <> Some (basename file ".jsonl")) ->
  (forall dirName' file',
     listedLog fs dirName' file' -> basename file' ".jsonl" = basename file ".jsonl" ->
     dirName' = dirName /\ file' = file) ->
  exists s,
    s ∈ fst (getSessions JSON_parse_history JSON_parse_line fs historyFile now c)
    /\ s_id s = basename file ".jsonl"
    /\ match readSessionMetadata JSON_parse_line fs (now (dirName, file)) (dirName, file) with
       | Some meta =>
         s_display s = meta_display meta
         /\ s_timestamp s = meta_timestamp meta
         /\ (meta_project meta <> EmptyString ->
             s_project s = meta_project meta
             /\ s_projectName s = getProjectName (meta_project meta))
       | None =>
         s_display s = "Untitled conversation"%string
         /\ exists fileStat,
              stat fs (dirName, file) = Ok fileStat /\ s_timestamp s = st_mtimeMs fileStat
       end.
Proof.
  intros Hc Hlog Hhist Honly.
  set (id := basename file ".jsonl") in *.
  set (entries := historyEntries JSON_parse_history historyFile c) in *.
  set (sessions := fst (getSessions JSON_parse_history JSON_parse_line fs historyFile now c)).
  assert (id ∈ map s_id sessions) as Hid.
  { unfold sessions. rewrite getSessions_uncached by done.
    rewrite <- (stableSort_perm newerFirst).
    pose proof (discoverSessions_idsSeen JSON_parse_line fs now _
                  (historySessions_idsSeen fs entries)) as [_ Hseen].
    apply Hseen, discoverSessions_seen. right. by exists dirName, file. }
  apply elem_of_list_map in Hid as (s & Hsid & Hs). exists s.
  split; [done|]. split; [done|].
  unfold sessions in Hs. rewrite getSessions_uncached in Hs by done.
  rewrite <- (stableSort_perm newerFirst) in Hs.
  apply discoverSessions_from in Hs as [Hs|(dn & found & (f & Hf & Hfound) & Has)].
  { simpl in Hs. apply historySessions_ids in Hs as (entry & He & Hres).
    exfalso. apply (Hhist entry He). by rewrite Hres, Hsid. }
  destruct Has as (Hi & Hd & Ht & Hcwd).
  assert (s_id (found_session found) = basename f ".jsonl") as Hfid.
  { unfold foundIn in Hfound.
    destruct (readSessionMetadata _ _ _ _); [by injection Hfound as <-|].
    destruct (stat fs (dn, f)); [by injection Hfound as <-|done]. }
  destruct (Honly dn f Hf) as [-> ->]; [congruence|].
  unfold foundIn in Hfound.
  destruct (readSessionMetadata _ _ _ _) as [meta|].
  - injection Hfound as <-. simpl in *. split; [done|]. split; [done|].
    intros Hne. destruct (meta_project meta) as [|ch rest] eqn:Hp; [done|].
    simpl in Hcwd. by rewrite (Hcwd eq_refl).
  - destruct (stat fs (dirName, file)) as [fileStat|]; [|done].
    injection Hfound as <-. simpl in *. split; [done|]. by exists fileStat.
Qed.

End DiscoveredSessions.

Lemma getSessions_discovered_witness :
  exists s,
    s ∈ fst (getSessions sampleHistoryParse sampleLineParse discoveryFS sampleHistoryFile
               sampleNow noCaches)
    /\ s_id s = "s2"%string
    /\ s_display s = "hello"%string
    /\ s_timestamp s = 7000
    /\ s_project s = "/a/b"%string.
Proof.
  destruct (getSessions_discovered sampleHistoryParse sampleLineParse discoveryFS
              sampleHistoryFile sampleNow noCaches "-a-b" "s2.jsonl")
    as (s & Hs & Hid & Hmeta).
  - reflexivity.
  - exists ["s1.jsonl"; "s2.jsonl"; "notes.txt"; "s3.jsonl"].
    split; [reflexivity|]. split; [|reflexivity].
    apply list_elem_of_In. simpl. tauto.
  - intros entry He. apply list_elem_of_In in He. vm_compute in He.
    destruct He as [<-|[<-|[]]]; intros Heq; vm_compute in Heq; congruence.
  - intros dirName' file' (files & Hfiles & Hfile & _) Hbase.
    unfold readdir, readdir_entries in Hfiles.
    cbn [discoveryFS sampleFS projectsDir find_dirent name] in Hfiles.
    destruct (String.eqb_spec "-a-b" dirName') as [<-|Hne]; [|discriminate].
    simpl in Hfiles. injection Hfiles as <-. split; [done|].
    apply list_elem_of_In in Hfile. simpl in Hfile.
    destruct Hfile as [<-|[<-|[<-|[<-|[]]]]]; try done; vm_compute in Hbase; discriminate.
  - exists s. split; [exact Hs|]. split; [exact Hid|].
    change (readSessionMetadata sampleLineParse discoveryFS
              (sampleNow ("-a-b", "s2.jsonl")%string) ("-a-b", "s2.jsonl")%string)
      with (Some {| meta_display := "hello"; meta_timestamp := 7000;
                    meta_project := "/a/b" |}) in Hmeta.
    destruct Hmeta as (Hd & Ht & Hp). split; [exact Hd|]. split; [exact Ht|].
    by apply Hp.
Defined.

(* ===================================================================== *)
(** ** The usage figures of the session header *)
(* ===================================================================== *)

Lemma calculateCost_default_rates (u : TokenUsage) (mdl : option string) :
  getModelPricing mdl = DEFAULT_PRICING ->
  (calculateCost u mdl
   == perMillion (input_tokens u) * 3 + perMillion (output_tokens u) * 15
      + perMillion (count_or_zero (cache_creation_input_tokens u)) * 3 * (5 # 4)
      + perMillion (count_or_zero (cache_read_input_tokens u)) * 3 * (1 # 10))%Q.
Proof.
  intros Hp. unfold calculateCost. rewrite Hp. simpl.
  destruct (cache_creation_input_tokens u) as [w|], (cache_read_input_tokens u) as [r|];
    simpl.
  - destruct (Z.eqb_spec w 0) as [->|_], (Z.eqb_spec r 0) as [->|_];
      unfold perMillion; simpl; field.
  - destruct (Z.eqb_spec w 0) as [->|_]; unfold perMillion; simpl; field.
  - destruct (Z.eqb_spec r 0) as [->|_]; unfold perMillion; simpl; field.
  - unfold perMillion; simpl; field.
Qed.

Lemma usageStats_loop (msgs : list ConversationMessage) :
  forall (stats : UsageStats) (acc : SessionUsage),
    let stats' := fold_left usageStatsStep msgs stats in
    let acc' := fold_left sessionUsageStep msgs acc in
    us_inputTokens stats' - us_inputTokens stats
    = su_totalInputTokens acc' - su_totalInputTokens acc
    /\ us_outputTokens stats' - us_outputTokens stats
       = su_totalOutputTokens acc' - su_totalOutputTokens acc
    /\ ((forall msg u mdl,
           msg ∈ msgs -> assistantUsage msg = Some (u, mdl) ->
           getModelPricing mdl = DEFAULT_PRICING) ->
        (us_cost stats' - us_cost stats == su_estimatedCost acc' - su_estimatedCost acc)%Q).
Proof.
  induction msgs as [|msg msgs IH]; intros stats acc; simpl.
  { repeat split; try lia. intros _. ring. }
  destruct (IH (usageStatsStep stats msg) (sessionUsageStep acc msg)) as (Hi & Ho & Hc).
  assert (Hstep :
    us_inputTokens (usageStatsStep stats msg) - us_inputTokens stats
    = su_totalInputTokens (sessionUsageStep acc msg) - su_totalInputTokens acc
    /\ us_outputTokens (usageStatsStep stats msg) - us_outputTokens stats
       = su_totalOutputTokens (sessionUsageStep acc msg) - su_totalOutputTokens acc
    /\ ((forall u mdl, assistantUsage msg = Some (u, mdl) ->
                       getModelPricing mdl = DEFAULT_PRICING) ->
        (us_cost (usageStatsStep stats msg) - us_cost stats
         == su_estimatedCost (sessionUsageStep acc msg) - su_estimatedCost acc)%Q)).
  { unfold usageStatsStep, sessionUsageStep.
    destruct (assistantUsage msg) as [[u mdl]|]; destruct (isUserOrAssistant msg); simpl;
      repeat split; try lia; intros Hp;
      try (rewrite (calculateCost_default_rates u mdl (Hp u mdl eq_refl)); ring);
      ring. }
  destruct Hstep as (Hi1 & Ho1 & Hc1).
  split; [lia|]. split; [lia|]. intros Hp.
  assert (Hc' : (us_cost (fold_left usageStatsStep msgs (usageStatsStep stats msg))
                  - us_cost (usageStatsStep stats msg)
                  == su_estimatedCost (fold_left sessionUsageStep msgs (sessionUsageStep acc msg))
                     - su_estimatedCost (sessionUsageStep acc msg))%Q).
  { apply Hc. intros m u mdl Hin. apply Hp. apply elem_of_cons. by right. }
  assert (Hc1' : (us_cost (usageStatsStep stats msg) - us_cost stats
                  == su_estimatedCost (sessionUsageStep acc msg) - su_estimatedCost acc)%Q).
  { apply Hc1. intros u mdl. apply Hp. apply elem_of_cons. by left. }
  transitivity
    ((us_cost (fold_left usageStatsStep msgs (usageStatsStep stats msg))
      - us_cost (usageStatsStep stats msg))
     + (us_cost (usageStatsStep stats msg) - us_cost stats))%Q; [ring|].
  rewrite Hc', Hc1'. ring.
Qed.

Section SessionHeader.

Variable JSON_parse : list ascii -> option ConversationMessage.

(** The figures of the header of a session, worked out from the messages of
    its conversation, show the input and output tokens that
    [getSessionUsage] returns for the session; they show its estimated
    cost too when every message with usage data is of a model that has the
    default prices. *)
Theorem usageStats_session_usage (fs : FS) (sessions : list Session)
    (sessionId : string) (usage : SessionUsage) :
  sessionUsageOf JSON_parse fs sessions sessionId = Some usage ->
  let stats := usageStats (conversationOf JSON_parse fs sessionId) in
  us_inputTokens stats = su_totalInputTokens usage
  /\ us_outputTokens stats = su_totalOutputTokens usage
  /\ ((forall msg u mdl,
         msg ∈ conversationOf JSON_parse fs sessionId ->
         assistantUsage msg = Some (u, mdl) ->
         getModelPricing mdl = DEFAULT_PRICING) ->
      (us_cost stats == su_estimatedCost usage)%Q).
Proof.
  rewrite sessionUsageOf_conversation.
  destruct (length (conversationOf JSON_parse fs sessionId) =? 0)%nat; [done|].
  intros [= <-] stats. subst stats. unfold usageStats.
  destruct (usageStats_loop (conversationOf JSON_parse fs sessionId)
              {| us_inputTokens := 0; us_outputTokens := 0; us_cost := 0 |}
              (initialSessionUsage sessions sessionId)) as (Hi & Ho & Hc).
  simpl in Hi, Ho, Hc.
  split; [lia|]. split; [lia|]. intros Hp. specialize (Hc Hp).
  rewrite <- (Qplus_0_r (us_cost _)), <- (Qplus_0_r (su_estimatedCost _)).
  transitivity
    (us_cost (fold_left usageStatsStep (conversationOf JSON_parse fs sessionId)
                {| us_inputTokens := 0; us_outputTokens := 0; us_cost := 0 |}) - 0)%Q;
    [ring|].
  rewrite Hc. ring.
Qed.

End SessionHeader.

Lemma usageStats_session_usage_witness :
  exists usage,
    sessionUsageOf sampleParse usageFS usageSessions "s3" = Some usage
    /\ us_inputTokens (usageStats (conversationOf sampleParse usageFS "s3")) = 2000000
    /\ su_totalInputTokens usage = 2000000
    /\ (us_cost (usageStats (conversationOf sampleParse usageFS "s3"))
        == su_estimatedCost usage)%Q.
Proof.
  eexists. split; [vm_compute; reflexivity|].
  split; [vm_compute; reflexivity|]. split; [vm_compute; reflexivity|].
  apply (usageStats_session_usage sampleParse usageFS usageSessions "s3").
  - vm_compute. reflexivity.
  - intros msg u mdl Hin Hu.
    assert (Hconv : conversationOf sampleParse usageFS "s3"
                    = [assistantWithUsage; assistantWithUsage])
      by (vm_compute; reflexivity).
    rewrite Hconv in Hin.
    assert (msg = assistantWithUsage) as ->.
    { apply elem_of_cons in Hin as [->|Hin]; [done|].
      by apply list_elem_of_singleton in Hin. }
    vm_compute in Hu. injection Hu as <- <-. vm_compute. reflexivity.
Defined.
